(** * go-zskiplist: a rank-aware skip list (zskiplist.go)

    A shallow embedding of the Go package [zskiplist] and the proofs of its
    ordering, span and rank properties.

    Modelling choices.
    - A [*ZSkipListNode] is an address into a heap of nodes ([list
      ZSkipListNode], addresses are indices); Go's [nil] is [None].  Nodes
      are allocated at the end of the heap and never reclaimed: a deleted
      node stays where it is, unreachable from the list, as it does in Go
      while the caller still holds the pointer [Delete] returned.
    - A nil dereference and an index out of range are [Panic]; the
      unbounded [for] loops that follow pointers take fuel and give
      [OutOfFuel] when it is used up.
    - [Score] (uint32) and [Uuid()] (uint64) are integers that are only ever
      compared, never computed with, so they are plain [Z].  Spans, ranks
      and [length] are Go [int]s holding node counts; they are [Z] without
      wrap-around, as a count of live nodes cannot reach 2^63.  Levels and
      level indices range over 0..12 and are [nat].
    - [rand.Uint32()] is an explicit list of draws threaded through [Insert].
    - The capacity argument of [make] is an allocation hint and is left out
      of [GetNearByRankRange], which is studied for [up] and [down] that
      are not negative; [GetTopRankValueRange] keeps the panic of [make] on
      a negative capacity.  [log.Printf] has no effect on the list and is
      left out. *)

From Stdlib Require Import ZArith Lia.
From stdpp Require Import base tactics option list sets sorting gmap.

Set Default Proof Using "Type".

(** ** Results of fallible, possibly diverging code *)

Inductive result (A : Type) : Type :=
  | Ok (a : A)
  | Panic
  | OutOfFuel.
Arguments Ok {A} a.
Arguments Panic {A}.
Arguments OutOfFuel {A}.

Definition bind {A B : Type} (m : result A) (f : A → result B) : result B :=
  match m with
  | Ok a => f a
  | Panic => Panic
  | OutOfFuel => OutOfFuel
  end.

#[export] Instance result_ret : MRet result := @Ok.
#[export] Instance result_bind : MBind result := λ A B f m, bind m f.

(** [for i := a; i < a + n; i++ { s = body i s }] *)
Fixpoint for_up {T : Type} (n : nat) (i : nat) (body : nat → T → result T) (s : T)
  : result T :=
  match n with
  | O => Ok s
  | S n' => s' ← body i s; for_up n' (S i) body s'
  end.

(** ** The entity contract *)

(** [type RankInterface interface { Uuid() uint64 }] *)
Class RankInterface (E : Type) := Uuid : E → Z.

(** [testPlayer] of zskiplist_test.go. *)
Record testPlayer := mkPlayer { Uid : Z; Populace : Z; Level : Z }.

#[export] Instance testPlayer_rank : RankInterface testPlayer := Uid.

Definition ZSKIPLIST_MAXLEVEL : nat := 12.

Abbreviation ptr := nat.

(** ** Data model *)

Record zskipListLevel := mkLevel {
  forward : option ptr;
  span : Z
}.

Record ZSkipListNode (E : Type) := mkNode {
  Obj : option E;
  Score : Z;
  backward : option ptr;
  level : list zskipListLevel
}.
Arguments mkNode {E} _ _ _ _.
Arguments Obj {E} _.
Arguments Score {E} _.
Arguments backward {E} _.
Arguments level {E} _.

Record ZSkipList (E : Type) := mkZSkipList {
  zsl_heap : list (ZSkipListNode E);
  zsl_head : ptr;
  zsl_tail : option ptr;
  zsl_length : Z;
  zsl_level : nat
}.
Arguments mkZSkipList {E} _ _ _ _ _.
Arguments zsl_heap {E} _.
Arguments zsl_head {E} _.
Arguments zsl_tail {E} _.
Arguments zsl_length {E} _.
Arguments zsl_level {E} _.

(** Arrays [update [ZSKIPLIST_MAXLEVEL]*ZSkipListNode] and
    [rank [ZSKIPLIST_MAXLEVEL]int]: reads and writes check the index. *)
Definition aget {A : Type} (a : list A) (i : nat) : result A :=
  match a !! i with
  | Some v => Ok v
  | None => Panic
  end.

Definition aset {A : Type} (a : list A) (i : nat) (v : A) : result (list A) :=
  if decide (i < length a) then Ok (<[i := v]> a) else Panic.

Definition deref (p : option ptr) : result ptr :=
  match p with
  | Some a => Ok a
  | None => Panic
  end.

Section zskiplist.
Context {E : Type} `{RankInterface E}.

Abbreviation node := (ZSkipListNode E).
Abbreviation heap := (list (ZSkipListNode E)).
Abbreviation zskiplist := (ZSkipList E).

(** *** Heap accesses *)

Definition load (h : heap) (p : ptr) : result node :=
  match h !! p with
  | Some n => Ok n
  | None => Panic
  end.

(** [p.level[i]] *)
Definition load_level (h : heap) (p : ptr) (i : nat) : result zskipListLevel :=
  n ← load h p;
  match level n !! i with
  | Some s => Ok s
  | None => Panic
  end.

Definition store_level (h : heap) (p : ptr) (i : nat) (s : zskipListLevel) : result heap :=
  n ← load h p;
  if decide (i < length (level n))
  then Ok (<[p := mkNode (Obj n) (Score n) (backward n) (<[i := s]> (level n))]> h)
  else Panic.

(** [p.level[i].forward = v] *)
Definition set_forward (h : heap) (p : ptr) (i : nat) (v : option ptr) : result heap :=
  s ← load_level h p i;
  store_level h p i (mkLevel v (span s)).

(** [p.level[i].span = v] *)
Definition set_span (h : heap) (p : ptr) (i : nat) (v : Z) : result heap :=
  s ← load_level h p i;
  store_level h p i (mkLevel (forward s) v).

(** [p.backward = v] *)
Definition set_backward (h : heap) (p : ptr) (v : option ptr) : result heap :=
  n ← load h p;
  Ok (<[p := mkNode (Obj n) (Score n) v (level n)]> h).

(** *** Constructors and accessors *)

Definition newZSkipListNode (lvl : nat) (score : Z) (obj : option E) : node :=
  mkNode obj score None (replicate lvl (mkLevel None 0)).

Definition NewZSkipList : zskiplist :=
  mkZSkipList [newZSkipListNode ZSKIPLIST_MAXLEVEL 0 None] 0 None 0 1.

Definition Before (h : heap) (n : ptr) : result (option ptr) :=
  nn ← load h n; Ok (backward nn).

Definition Next (h : heap) (n : ptr) : result (option ptr) :=
  s ← load_level h n 0; Ok (forward s).

Definition Len (zsl : zskiplist) : Z := zsl_length zsl.

Definition Height (zsl : zskiplist) : nat := zsl_level zsl.

Definition HeaderNode (zsl : zskiplist) : result (option ptr) :=
  s ← load_level (zsl_heap zsl) (zsl_head zsl) 0; Ok (forward s).

Definition TailNode (zsl : zskiplist) : option ptr := zsl_tail zsl.

(** *** randLevel *)

(** [float32(seed) < ZSKIPLIST_P*0xFFFF] with [seed = draw & 0xFFFF]: the
    constant is 16383.75 and both sides are exact in float32, so the test
    is [4 * seed < 65535]. *)
Definition coin (draw : Z) : bool := (4 * Z.land draw 65535 <? 65535)%Z.

(** The loop of [randLevel]; the draws are consumed from [rnd]. *)
Fixpoint randLevel_loop (rnd : list Z) (lvl : nat) : result (nat * list Z) :=
  match rnd with
  | [] => OutOfFuel
  | d :: rnd' => if coin d then randLevel_loop rnd' (S lvl) else Ok (lvl, rnd')
  end.

Definition randLevel (rnd : list Z) : result (nat * list Z) :=
  '(lvl, rnd') ← randLevel_loop rnd 1;
  if decide (lvl < ZSKIPLIST_MAXLEVEL) then Ok (lvl, rnd') else Ok (ZSKIPLIST_MAXLEVEL, rnd').

(** *** The search loops *)

(** [f.Score < score || (f.Score == score && cmp (f.Obj.Uuid()) (obj.Uuid()))]
    for the forward node [f]; [cmp] is [<] in Insert and Delete and [<=] in
    GetRank.  [f.Obj.Uuid()] on a nil [Obj] panics. *)
Definition key_cond (cmp : Z → Z → bool) (score : Z) (obj : E) (f : node) : result bool :=
  if (Score f <? score)%Z then Ok true
  else if (Score f =? score)%Z then
    match Obj f with
    | Some o => Ok (cmp (Uuid o) (Uuid obj))
    | None => Panic
    end
  else Ok false.

(** [for x.level[i].forward != nil && cond { rank += x.level[i].span;
    x = x.level[i].forward }].  [cond] sees the rank so far, the slot
    [x.level[i]] and the forward node. *)
Fixpoint advance (cond : Z → zskipListLevel → node → result bool)
    (fuel : nat) (h : heap) (i : nat) (x : ptr) (rank : Z) : result (ptr * Z) :=
  match fuel with
  | O => OutOfFuel
  | S fuel' =>
      s ← load_level h x i;
      match forward s with
      | None => Ok (x, rank)
      | Some y =>
          f ← load h y;
          b ← cond rank s f;
          if b : bool then advance cond fuel' h i y (rank + span s)%Z
          else Ok (x, rank)
      end
  end.

Definition cond_lt (score : Z) (obj : E) : Z → zskipListLevel → node → result bool :=
  λ _ _ f, key_cond Z.ltb score obj f.

Definition cond_le (score : Z) (obj : E) : Z → zskipListLevel → node → result bool :=
  λ _ _ f, key_cond Z.leb score obj f.

(** [tranversed + x.level[i].span <= rank] *)
Definition cond_span (rank : Z) : Z → zskipListLevel → node → result bool :=
  λ tranversed s _, Ok (tranversed + span s <=? rank)%Z.

(** *** Insert *)

(** The first loop of [Insert], [for i := zsl.level - 1; i >= 0; i--], with
    [n] levels left: [i = n - 1]. *)
Fixpoint Insert_search (fuel : nat) (h : heap) (score : Z) (obj : E) (top : nat)
    (n : nat) (x : ptr) (update : list (option ptr)) (rank : list Z)
  : result (list (option ptr) * list Z) :=
  match n with
  | O => Ok (update, rank)
  | S i =>
      rank1 ← (if decide (i ≠ top - 1)
                then r ← aget rank (i + 1); aset rank i r
                else Ok rank);
      r0 ← aget rank1 i;
      '(x', r') ← advance (cond_lt score obj) fuel h i x r0;
      rank2 ← aset rank1 i r';
      update' ← aset update i (Some x');
      Insert_search fuel h score obj top i x' update' rank2
  end.

(** [rank[i] = 0; update[i] = zsl.head; update[i].level[i].span = zsl.length] *)
Definition Insert_raise (hd : ptr) (len : Z) (i : nat)
    (s : heap * list (option ptr) * list Z) : result (heap * list (option ptr) * list Z) :=
  let '(h, update, rank) := s in
  rank' ← aset rank i 0%Z;
  update' ← aset update i (Some hd);
  u ← aget update' i ≫= deref;
  h' ← set_span h u i len;
  Ok (h', update', rank').

(** The body of [for i := 0; i < level; i++] that links [x] in. *)
Definition Insert_splice (x : ptr) (update : list (option ptr)) (rank : list Z)
    (i : nat) (h : heap) : result heap :=
  u ← aget update i ≫= deref;
  su ← load_level h u i;
  h1 ← set_forward h x i (forward su);
  h2 ← set_forward h1 u i (Some x);
  su2 ← load_level h2 u i;
  r0 ← aget rank 0;
  ri ← aget rank i;
  h3 ← set_span h2 x i (span su2 - (r0 - ri))%Z;
  r0' ← aget rank 0;
  ri' ← aget rank i;
  set_span h3 u i ((r0' - ri') + 1)%Z.

(** [update[i].level[i].span++] *)
Definition Insert_bump (update : list (option ptr)) (i : nat) (h : heap) : result heap :=
  u ← aget update i ≫= deref;
  su ← load_level h u i;
  set_span h u i (span su + 1)%Z.

Definition Insert (fuel : nat) (rnd : list Z) (score : Z) (obj : E) (zsl : zskiplist)
  : result (zskiplist * ptr * list Z) :=
  let update0 : list (option ptr) := replicate ZSKIPLIST_MAXLEVEL None in
  let rank0 : list Z := replicate ZSKIPLIST_MAXLEVEL 0%Z in
  '(update, rank) ← Insert_search fuel (zsl_heap zsl) score obj (zsl_level zsl)
                       (zsl_level zsl) (zsl_head zsl) update0 rank0;
  '(lvl, rnd') ← randLevel rnd;
  '(h1, update1, rank1) ←
     (if decide (zsl_level zsl < lvl)
      then for_up (lvl - zsl_level zsl) (zsl_level zsl)
             (Insert_raise (zsl_head zsl) (zsl_length zsl))
             (zsl_heap zsl, update, rank)
      else Ok (zsl_heap zsl, update, rank));
  let zlevel := if decide (zsl_level zsl < lvl) then lvl else zsl_level zsl in
  let x : ptr := length h1 in
  let h2 := h1 ++ [newZSkipListNode lvl score (Some obj)] in
  h3 ← for_up lvl 0 (Insert_splice x update1 rank1) h2;
  h4 ← for_up (zlevel - lvl) lvl (Insert_bump update1) h3;
  u0 ← aget update1 0;
  h5 ← (if decide (u0 ≠ Some (zsl_head zsl)) then set_backward h4 x u0 else Ok h4);
  sx ← load_level h5 x 0;
  '(h6, tl) ← match forward sx with
               | Some y => h' ← set_backward h5 y (Some x); Ok (h', zsl_tail zsl)
               | None => Ok (h5, Some x)
               end;
  Ok (mkZSkipList h6 (zsl_head zsl) tl (zsl_length zsl + 1)%Z zlevel, x, rnd').

(** *** Delete *)

(** The body of the first loop of [deleteNode]. *)
Definition deleteNode_unlink (x : ptr) (update : list (option ptr)) (i : nat) (h : heap)
  : result heap :=
  u ← aget update i ≫= deref;
  su ← load_level h u i;
  if decide (forward su = Some x) then
    sx ← load_level h x i;
    h1 ← set_span h u i (span su + (span sx - 1))%Z;
    sx' ← load_level h1 x i;
    set_forward h1 u i (forward sx')
  else
    set_span h u i (span su - 1)%Z.

(** [for zsl.level > 1 && zsl.head.level[zsl.level-1].forward == nil
    { zsl.level-- }] *)
Fixpoint deleteNode_shrink (h : heap) (hd : ptr) (lvl : nat) : result nat :=
  match lvl with
  | S (S l' as l1) =>
      s ← load_level h hd l1;
      match forward s with
      | None => deleteNode_shrink h hd l1
      | Some _ => Ok lvl
      end
  | _ => Ok lvl
  end.

Definition deleteNode (zsl : zskiplist) (x : ptr) (update : list (option ptr))
  : result zskiplist :=
  h1 ← for_up (zsl_level zsl) 0 (deleteNode_unlink x update) (zsl_heap zsl);
  sx ← load_level h1 x 0;
  nx ← load h1 x;
  '(h2, tl) ← match forward sx with
               | Some y => h' ← set_backward h1 y (backward nx); Ok (h', zsl_tail zsl)
               | None => Ok (h1, backward nx)
               end;
  lvl ← deleteNode_shrink h2 (zsl_head zsl) (zsl_level zsl);
  Ok (mkZSkipList h2 (zsl_head zsl) tl (zsl_length zsl - 1)%Z lvl).

(** The search loop of [Delete]: that of [Insert] without the ranks (the
    rank that [advance] accumulates is dropped). *)
Fixpoint Delete_search (fuel : nat) (h : heap) (score : Z) (obj : E)
    (n : nat) (x : ptr) (update : list (option ptr)) : result (ptr * list (option ptr)) :=
  match n with
  | O => Ok (x, update)
  | S i =>
      '(x', _) ← advance (cond_lt score obj) fuel h i x 0%Z;
      update' ← aset update i (Some x');
      Delete_search fuel h score obj i x' update'
  end.

(** Returns the list after the call and the node removed ([None]: not found). *)
Definition Delete (fuel : nat) (score : Z) (obj : E) (zsl : zskiplist)
  : result (zskiplist * option ptr) :=
  let update0 : list (option ptr) := replicate ZSKIPLIST_MAXLEVEL None in
  '(x, update) ← Delete_search fuel (zsl_heap zsl) score obj (zsl_level zsl)
                    (zsl_head zsl) update0;
  sx ← load_level (zsl_heap zsl) x 0;
  match forward sx with
  | Some t =>
      nt ← load (zsl_heap zsl) t;
      if (score =? Score nt)%Z then
        match Obj nt with
        | Some o =>
            if (Uuid o =? Uuid obj)%Z then
              zsl' ← deleteNode zsl t update;
              Ok (zsl', Some t)
            else Ok (zsl, None)
        | None => Panic
        end
      else Ok (zsl, None)
  | None => Ok (zsl, None)
  end.

(** *** GetRank *)

Fixpoint GetRank_loop (fuel : nat) (h : heap) (score : Z) (obj : E)
    (n : nat) (x : ptr) (rank : Z) : result Z :=
  match n with
  | O => Ok 0%Z
  | S i =>
      '(x', rank') ← advance (cond_le score obj) fuel h i x rank;
      nx ← load h x';
      match Obj nx with
      | Some o =>
          if (Uuid o =? Uuid obj)%Z then Ok rank'
          else GetRank_loop fuel h score obj i x' rank'
      | None => GetRank_loop fuel h score obj i x' rank'
      end
  end.

Definition GetRank (fuel : nat) (zsl : zskiplist) (score : Z) (obj : E) : result Z :=
  GetRank_loop fuel (zsl_heap zsl) score obj (zsl_level zsl) (zsl_head zsl) 0%Z.

(** *** GetElementByRank *)

Fixpoint GetElementByRank_loop (fuel : nat) (h : heap) (rank : Z)
    (n : nat) (x : ptr) (tranversed : Z) : result (option ptr) :=
  match n with
  | O => Ok None
  | S i =>
      '(x', tranversed') ← advance (cond_span rank) fuel h i x tranversed;
      if decide (tranversed' = rank) then Ok (Some x')
      else GetElementByRank_loop fuel h rank i x' tranversed'
  end.

Definition GetElementByRank (fuel : nat) (zsl : zskiplist) (rank : Z) : result (option ptr) :=
  GetElementByRank_loop fuel (zsl_heap zsl) rank (zsl_level zsl) (zsl_head zsl) 0%Z.

(** *** GetNearByRankRange *)

(** [for x != nil && up > 0 { ranks = append(ranks, x.Obj); up--;
    x = x.backward }]: at most [up] rounds. *)
Fixpoint collect_backward (up : nat) (h : heap) (x : option ptr) (ranks : list (option E))
  : result (list (option E)) :=
  match x, up with
  | Some p, S up' =>
      n ← load h p;
      collect_backward up' h (backward n) (ranks ++ [Obj n])
  | _, _ => Ok ranks
  end.



(** *** GetTopRankValueRange *)

(** [make([]RankInterface, 0, n)] panics when [n] is negative; the loop is
    that of the backward walk above, from the tail. *)
Definition GetTopRankValueRange (zsl : zskiplist) (n : Z) : result (list (option E)) :=
  if (n <? 0)%Z then Panic
  else collect_backward (Z.to_nat n) (zsl_heap zsl) (zsl_tail zsl) [].

(** *** Walk *)

(** The inspector [fn] is a caller's closure: it threads a state [St] of
    its own and answers whether to go on. *)
Section walk.
Context {St : Type} (fn : Z → option E → St → bool * St).

Fixpoint Walk_tail (fuel : nat) (h : heap) (nd : option ptr) (rank : Z) (st : St)
  : result St :=
  match nd with
  | None => Ok st
  | Some p =>
      match fuel with
      | O => OutOfFuel
      | S fuel' =>
          n ← load h p;
          let '(go, st') := fn rank (Obj n) st in
          if go : bool then Walk_tail fuel' h (backward n) (rank + 1)%Z st'
          else Ok st'
      end
  end.

Fixpoint Walk_head (fuel : nat) (h : heap) (nd : option ptr) (rank : Z) (st : St)
  : result St :=
  match nd with
  | None => Ok st
  | Some p =>
      match fuel with
      | O => OutOfFuel
      | S fuel' =>
          n ← load h p;
          let '(go, st') := fn rank (Obj n) st in
          if go : bool then
            s ← load_level h p 0;
            Walk_head fuel' h (forward s) (rank - 1)%Z st'
          else Ok st'
      end
  end.

Definition Walk (fuel : nat) (zsl : zskiplist) (startTail : bool) (st : St) : result St :=
  if startTail then Walk_tail fuel (zsl_heap zsl) (zsl_tail zsl) 1%Z st
  else
    s ← load_level (zsl_heap zsl) (zsl_head zsl) 0;
    Walk_head fuel (zsl_heap zsl) (forward s) (zsl_length zsl) st.

End walk.

(** ** Reading the list back *)

(** The nodes met from [x] along the level-0 forward links:
    [for x != nil { ...; x = x.Next() }]. *)
Fixpoint Nodes_from (fuel : nat) (h : heap) (x : option ptr) : result (list ptr) :=
  match x with
  | None => Ok []
  | Some p =>
      match fuel with
      | O => OutOfFuel
      | S fuel' =>
          nx ← Next h p;
          rest ← Nodes_from fuel' h nx;
          Ok (p :: rest)
      end
  end.

(** The nodes of the list in level-0 order, from [HeaderNode()]. *)
Definition Nodes (fuel : nat) (zsl : zskiplist) : result (list ptr) :=
  first ← HeaderNode zsl;
  Nodes_from fuel (zsl_heap zsl) first.

(** The level-0 walk from [x], giving each node reached the sum of the
    level-0 spans of the links followed from the start to reach it. *)
Fixpoint span_sums_from (fuel : nat) (h : heap) (x : ptr) (acc : Z) : result (list (ptr * Z)) :=
  match fuel with
  | O => OutOfFuel
  | S fuel' =>
      s ← load_level h x 0;
      match forward s with
      | None => Ok []
      | Some y =>
          rest ← span_sums_from fuel' h y (acc + span s)%Z;
          Ok ((y, (acc + span s)%Z) :: rest)
      end
  end.

Definition span_sums (fuel : nat) (zsl : zskiplist) : result (list (ptr * Z)) :=
  span_sums_from fuel (zsl_heap zsl) (zsl_head zsl) 0%Z.

(** [(Score, Uuid())] of the node at [p], when it carries an entity. *)
Definition node_key (h : heap) (p : ptr) : option (Z * Z) :=
  n ← h !! p; o ← Obj n; Some (Score n, Uuid o).

(** [x.Obj] of the node at [p] ([None]: a nil [Obj] or no node). *)
Definition node_obj (h : heap) (p : ptr) : option E :=
  n ← h !! p; Obj n.

(** The lexicographic order on [(score, identity)]. *)
Definition key_lt (a b : Z * Z) : Prop :=
  (a.1 < b.1 ∨ (a.1 = b.1 ∧ a.2 < b.2))%Z.

Definition key_le (a b : Z * Z) : Prop :=
  (a.1 < b.1 ∨ (a.1 = b.1 ∧ a.2 ≤ b.2))%Z.

Definition key (se : Z * E) : Z * Z := (se.1, Uuid se.2).

(** The calls an inspector receives, in order, until it answers stop. *)
Fixpoint visit_all {St : Type} (fn : Z → option E → St → bool * St)
    (vs : list (Z * option E)) (st : St) : St :=
  match vs with
  | [] => st
  | (r, o) :: vs' =>
      let '(go, st') := fn r o st in
      if go : bool then visit_all fn vs' st' else st'
  end.

(** ** Reachable lists *)

(** [built zsl pr]: [zsl] is obtained from [NewZSkipList()] by calls of
    Insert and Delete that returned, and [pr] are the entities it then
    holds with their scores, most recently inserted first.  An Insert is
    valid when no entity with the same (score, identity) is in the list. *)
Inductive built : zskiplist → list (Z * E) → Prop :=
  | built_new : built NewZSkipList []
  | built_Insert zsl pr fuel rnd score obj zsl' x rnd' :
      built zsl pr →
      key (score, obj) ∉ key <$> pr →
      Insert fuel rnd score obj zsl = Ok (zsl', x, rnd') →
      built zsl' ((score, obj) :: pr)
  | built_Delete zsl pr fuel score obj zsl' r :
      built zsl pr →
      Delete fuel score obj zsl = Ok (zsl', r) →
      built zsl' (filter (λ se, key se ≠ key (score, obj)) pr).

(** The identities of the entities held. *)
Definition ids (pr : list (Z * E)) : list Z := (λ se, Uuid se.2) <$> pr.

(** Inserting a batch, then deleting a batch, threading the list. *)
Fixpoint Insert_all (fuel : nat) (batch : list (list Z * (Z * E))) (zsl : zskiplist)
  : result zskiplist :=
  match batch with
  | [] => Ok zsl
  | (rnd, (score, obj)) :: batch' =>
      '(zsl', _, _) ← Insert fuel rnd score obj zsl;
      Insert_all fuel batch' zsl'
  end.

Fixpoint Delete_all (fuel : nat) (batch : list (Z * E)) (zsl : zskiplist)
  : result (zskiplist * list (option ptr)) :=
  match batch with
  | [] => Ok (zsl, [])
  | (score, obj) :: batch' =>
      '(zsl', r) ← Delete fuel score obj zsl;
      '(zsl'', rs) ← Delete_all fuel batch' zsl';
      Ok (zsl'', r :: rs)
  end.

(** ** The representation invariant *)

Definition slot_at (h : heap) (p : ptr) (i : nat) : option zskipListLevel :=
  n ← h !! p; level n !! i.

(** The link out of [p] at level [i]: [Some None] when the forward pointer
    is nil (the span then carries no information), [Some (Some (q, d))]
    for a forward pointer [q] with span [d]. *)
Definition link (h : heap) (p : ptr) (i : nat) : option (option (ptr * Z)) :=
  s ← slot_at h p i; Some (q ← forward s; Some (q, span s)).

Definition shape_at (h : heap) (p : ptr) : option (option E * Z * nat) :=
  (λ n, (Obj n, Score n, length (level n))) <$> h !! p.

Definition back_at (h : heap) (p : ptr) : option (option ptr) :=
  backward <$> h !! p.

Definition hgt (h : heap) (p : ptr) : nat :=
  from_option (λ s, s.2) 0 (shape_at h p).

Definition entity_at (h : heap) (p : ptr) : option (Z * E) :=
  s ← shape_at h p; o ← s.1.1; Some (s.1.2, o).

(** [chain h i cur c k l]: at level [i], starting from the node [cur] that
    sits at position [c], the forward links visit exactly the nodes of [l]
    (whose first element sits at position [k]) that have more than [i]
    levels, each link spanning the difference of positions, and end in nil. *)
Fixpoint chain (h : heap) (i : nat) (cur : ptr) (c k : Z) (l : list ptr) : Prop :=
  match l with
  | [] => link h cur i = Some None
  | p :: l' =>
      if decide (i < hgt h p)
      then link h cur i = Some (Some (p, (k - c)%Z)) ∧ chain h i p k (k + 1)%Z l'
      else chain h i cur c (k + 1)%Z l'
  end.

(** The last node of [cur :: l] with more than [i] levels, and its position. *)
Fixpoint seek (h : heap) (i : nat) (cur : ptr) (c k : Z) (l : list ptr) : ptr * Z :=
  match l with
  | [] => (cur, c)
  | p :: l' =>
      if decide (i < hgt h p) then seek h i p k (k + 1)%Z l'
      else seek h i cur c (k + 1)%Z l'
  end.

(** The backward links along [l], whose first node points back to [prev]. *)
Fixpoint bchain (h : heap) (prev : option ptr) (l : list ptr) : Prop :=
  match l with
  | [] => True
  | p :: l' => back_at h p = Some prev ∧ bchain h (Some p) l'
  end.

(** [Inv zsl lp]: the heap of [zsl] holds a well-formed skip list whose
    nodes, in order, are at the addresses [lp.*1] and carry the scored
    entities [lp.*2]. *)
Record Inv (zsl : zskiplist) (lp : list (ptr * (Z * E))) : Prop := mkInv {
  inv_head : ∃ sc, shape_at (zsl_heap zsl) (zsl_head zsl) = Some (None, sc, ZSKIPLIST_MAXLEVEL);
  inv_nodup : NoDup (zsl_head zsl :: lp.*1);
  inv_nodes : Forall (λ pe, entity_at (zsl_heap zsl) pe.1 = Some pe.2 ∧
                            1 ≤ hgt (zsl_heap zsl) pe.1 ≤ zsl_level zsl) lp;
  inv_level : 1 ≤ zsl_level zsl ≤ ZSKIPLIST_MAXLEVEL;
  inv_tight : 1 < zsl_level zsl →
              Exists (λ pe, hgt (zsl_heap zsl) pe.1 = zsl_level zsl) lp;
  inv_length : zsl_length zsl = Z.of_nat (length lp);
  inv_sorted : StronglySorted key_lt (key <$> lp.*2);
  inv_chain : ∀ i, i < ZSKIPLIST_MAXLEVEL →
              chain (zsl_heap zsl) i (zsl_head zsl) 0 1 lp.*1;
  inv_back : bchain (zsl_heap zsl) None lp.*1;
  inv_tail : zsl_tail zsl = last lp.*1
}.

(** Two heaps that differ at most in the slots of level [i]. *)
Definition same_but_level (i : nat) (h h' : heap) : Prop :=
  length h' = length h ∧
  (∀ p, shape_at h' p = shape_at h p) ∧
  (∀ p, back_at h' p = back_at h p) ∧
  (∀ p j, j ≠ i → slot_at h' p j = slot_at h p j).

(** Two heaps with the same nodes as to [Obj], [Score] and number of
    levels: what no operation on an existing node changes. *)
Definition same_shape (h h' : heap) : Prop :=
  length h' = length h ∧ ∀ p, shape_at h' p = shape_at h p.

(** A pure slot update, the effect of [store_level]. *)
Definition put_slot (h : heap) (p : ptr) (i : nat) (s : zskipListLevel) : heap :=
  match h !! p with
  | Some n => <[p := mkNode (Obj n) (Score n) (backward n) (<[i := s]> (level n))]> h
  | None => h
  end.

Definition put_back (h : heap) (p : ptr) (v : option ptr) : heap :=
  match h !! p with
  | Some n => <[p := mkNode (Obj n) (Score n) v (level n)]> h
  | None => h
  end.

(** A link whose span is moved by [e]. *)
Definition shift_link (e : Z) (o : option (ptr * Z)) : option (ptr * Z) :=
  (λ qd, (qd.1, (qd.2 + e)%Z)) <$> o.

(** The loop condition [cond] holds at exactly the first [m] nodes of [l]
    (the node of index [j] sits at position [k + j]) when it is evaluated,
    as the loops do, with the rank so far at a node in position [cc]
    (shifted by [off]) and a slot spanning the distance to the node tested. *)
Definition splits (cond : Z → zskipListLevel → ZSkipListNode E → result bool)
    (h : list (ZSkipListNode E)) (l : list ptr) (k : Z) (m : nat) (off : Z) : Prop :=
  ∀ (j : nat) q, l !! j = Some q →
    ∃ nq, h !! q = Some nq ∧
      ∀ cc s, (cc + span s = k + Z.of_nat j)%Z → cond (cc + off)%Z s nq = Ok (bool_decide (j < m)).

#[export] Instance key_lt_dec (a b : Z * Z) : Decision (key_lt a b).
Proof. unfold key_lt. apply _. Defined.

#[export] Instance key_le_dec (a b : Z * Z) : Decision (key_le a b).
Proof. unfold key_le. apply _. Defined.

End zskiplist.

(** ** The duplicate check of the tests (zskiplist_test.go) *)

(** The loop of [checkDupObject]; [set] is the Go map [map[uint64]bool].
    The type assertion on [node.Obj] panics on a nil [Obj].  The result is the
    arguments [rank] and [player.Uid] of [t.Fatalf] when the check fails,
    [None] when it passes. *)
Fixpoint checkDupObject_loop (fuel : nat) (h : list (ZSkipListNode testPlayer))
    (node : option ptr) (rank : Z) (set : gmap Z bool) : result (option (Z * Z)) :=
  match node with
  | None => Ok None
  | Some p =>
      match fuel with
      | O => OutOfFuel
      | S fuel' =>
          let rank := (rank - 1)%Z in
          n ← load h p;
          match Obj n with
          | None => Panic
          | Some player =>
              if decide (is_Some (set !! Uid player))
              then Ok (Some (rank, Uid player))
              else
                nx ← Next h p;
                checkDupObject_loop fuel' h nx rank (<[Uid player := true]> set)
          end
      end
  end.

(** [var node = zsl.HeaderNode().Next()]: the walk starts at the second
    node of the list. *)
Definition checkDupObject (fuel : nat) (zsl : ZSkipList testPlayer)
  : result (option (Z * Z)) :=
  if decide (Len zsl = 0%Z) then Ok None
  else
    first ← HeaderNode zsl ≫= deref;
    node ← Next (zsl_heap zsl) first;
    checkDupObject_loop fuel (zsl_heap zsl) node (Len zsl) ∅.

(** ** Concrete lists for the examples *)

Module Ex.

Definition A : testPlayer := mkPlayer 1 10 0.
Definition B : testPlayer := mkPlayer 2 20 0.
Definition C : testPlayer := mkPlayer 3 30 0.

(** Two players that share the identity 7 and differ in score. *)
Definition P : testPlayer := mkPlayer 7 5 0.
Definition Q : testPlayer := mkPlayer 7 10 0.

(** Draws: [40000] ends [randLevel] at once, [0] adds a level. *)
Definition one : list Z := [40000%Z].
Definition two : list Z := [0%Z; 40000%Z].

(** The list after an Insert with the score [Populace p] (the calls below
    all return). *)
Definition ins (fuel : nat) (rnd : list Z) (p : testPlayer)
    (zsl : ZSkipList testPlayer) : ZSkipList testPlayer :=
  match Insert fuel rnd (Populace p) p zsl with
  | Ok (zsl', _, _) => zsl'
  | _ => zsl
  end.

Definition zA : ZSkipList testPlayer := ins 4 one A NewZSkipList.
Definition zAB : ZSkipList testPlayer := ins 4 two B zA.
Definition zABC : ZSkipList testPlayer := ins 4 one C zAB.

Definition zP : ZSkipList testPlayer := ins 4 two P NewZSkipList.
Definition zPQ : ZSkipList testPlayer := ins 4 one Q zP.

(** An inspector that records its calls and never stops the walk. *)
Definition record (r : Z) (o : option testPlayer) (st : list (Z * option testPlayer))
  : bool * list (Z * option testPlayer) :=
  (true, st ++ [(r, o)]).

End Ex.

(** * Proofs *)
Local Coercion Z.of_nat : nat >-> Z.

(** Equalities that hold up to linear arithmetic under constructors. *)
Ltac feq := solve [ lia | done | f_equal; feq ].

(** Case analysis on the decisions in the goal, leaving the hypotheses alone. *)
Ltac goal_decide :=
  repeat (match goal with
          | |- context [decide ?P] => destruct (decide P); try lia; try congruence
          end).

Arguments load : simpl never.
Arguments load_level : simpl never.
Arguments store_level : simpl never.
Arguments set_forward : simpl never.
Arguments set_span : simpl never.
Arguments set_backward : simpl never.
Arguments aget : simpl never.
Arguments aset : simpl never.
Section proofs.
Context {E : Type} `{RankInterface E}.
Implicit Types (h : list (ZSkipListNode E)) (p q x u : ptr) (i j : nat).
Implicit Types (s : zskipListLevel) (n : ZSkipListNode E).

(** ** Heap accesses *)

Lemma load_Ok h p n : h !! p = Some n → load h p = Ok n.
Proof. unfold load. by intros ->. Qed.

Lemma load_level_Ok h p i s : slot_at h p i = Some s → load_level h p i = Ok s.
Proof.
  unfold slot_at, load_level, load. destruct (h !! p) as [n|]; simpl; [|done].
  by intros ->.
Qed.

Lemma slot_at_hgt h p i s : slot_at h p i = Some s → i < hgt h p.
Proof.
  unfold slot_at, hgt, shape_at. destruct (h !! p) as [n|]; simpl; [|done].
  apply lookup_lt_Some.
Qed.

Lemma hgt_slot_at h p i : i < hgt h p → is_Some (slot_at h p i).
Proof.
  unfold slot_at, hgt, shape_at. destruct (h !! p) as [n|]; simpl; [|lia].
  apply lookup_lt_is_Some_2.
Qed.

Lemma store_level_Ok h p i s0 s :
  slot_at h p i = Some s0 → store_level h p i s = Ok (put_slot h p i s).
Proof.
  unfold slot_at, store_level, put_slot, load.
  destruct (h !! p) as [n|]; simpl; [|done]. intros Hs.
  apply lookup_lt_Some in Hs. by rewrite decide_True.
Qed.

Lemma set_forward_Ok h p i s0 v :
  slot_at h p i = Some s0 → set_forward h p i v = Ok (put_slot h p i (mkLevel v (span s0))).
Proof.
  intros Hs. unfold set_forward. rewrite (load_level_Ok _ _ _ _ Hs). simpl.
  by eapply store_level_Ok.
Qed.

Lemma set_span_Ok h p i s0 v :
  slot_at h p i = Some s0 → set_span h p i v = Ok (put_slot h p i (mkLevel (forward s0) v)).
Proof.
  intros Hs. unfold set_span. rewrite (load_level_Ok _ _ _ _ Hs). simpl.
  by eapply store_level_Ok.
Qed.

Lemma set_backward_Ok h p v :
  is_Some (h !! p) → set_backward h p v = Ok (put_back h p v).
Proof. intros [n Hn]. unfold set_backward, put_back, load. by rewrite Hn. Qed.

Lemma length_put_slot h p i s : length (put_slot h p i s) = length h.
Proof. unfold put_slot. destruct (h !! p); [apply length_insert|done]. Qed.

Lemma length_put_back h p v : length (put_back h p v) = length h.
Proof. unfold put_back. destruct (h !! p); [apply length_insert|done]. Qed.

Lemma shape_at_put_slot h p i s q : shape_at (put_slot h p i s) q = shape_at h q.
Proof.
  unfold shape_at, put_slot. destruct (h !! p) as [n|] eqn:Hn; [|done].
  destruct (decide (p = q)) as [->|Hne].
  - rewrite list_lookup_insert_eq by (by eapply lookup_lt_Some).
    rewrite Hn. simpl. by rewrite length_insert.
  - by rewrite list_lookup_insert_ne.
Qed.

Lemma back_at_put_slot h p i s q : back_at (put_slot h p i s) q = back_at h q.
Proof.
  unfold back_at, put_slot. destruct (h !! p) as [n|] eqn:Hn; [|done].
  destruct (decide (p = q)) as [->|Hne].
  - rewrite list_lookup_insert_eq by (by eapply lookup_lt_Some). by rewrite Hn.
  - by rewrite list_lookup_insert_ne.
Qed.

Lemma slot_at_put_slot h p i s q j :
  is_Some (slot_at h p i) →
  slot_at (put_slot h p i s) q j = if decide (q = p ∧ j = i) then Some s else slot_at h q j.
Proof.
  unfold slot_at, put_slot. destruct (h !! p) as [n|] eqn:Hn; simpl; [|by intros [??]].
  intros [s0 Hs0]. apply lookup_lt_Some in Hs0.
  destruct (decide (q = p)) as [->|Hne].
  - rewrite list_lookup_insert_eq by (by eapply lookup_lt_Some). simpl.
    destruct (decide (j = i)) as [->|Hji].
    + rewrite decide_True by done. by rewrite list_lookup_insert_eq.
    + rewrite decide_False by naive_solver. rewrite Hn. simpl.
      by rewrite list_lookup_insert_ne.
  - rewrite decide_False by naive_solver. by rewrite list_lookup_insert_ne.
Qed.

Lemma shape_at_put_back h p v q : shape_at (put_back h p v) q = shape_at h q.
Proof.
  unfold shape_at, put_back. destruct (h !! p) as [n|] eqn:Hn; [|done].
  destruct (decide (p = q)) as [->|Hne].
  - rewrite list_lookup_insert_eq by (by eapply lookup_lt_Some). by rewrite Hn.
  - by rewrite list_lookup_insert_ne.
Qed.

Lemma slot_at_put_back h p v q j : slot_at (put_back h p v) q j = slot_at h q j.
Proof.
  unfold slot_at, put_back. destruct (h !! p) as [n|] eqn:Hn; [|done].
  destruct (decide (p = q)) as [->|Hne].
  - rewrite list_lookup_insert_eq by (by eapply lookup_lt_Some). by rewrite Hn.
  - by rewrite list_lookup_insert_ne.
Qed.

Lemma back_at_put_back h p v q :
  is_Some (h !! p) →
  back_at (put_back h p v) q = if decide (q = p) then Some v else back_at h q.
Proof.
  unfold back_at, put_back. intros [n Hn]. rewrite Hn.
  destruct (decide (q = p)) as [->|Hne].
  - by rewrite list_lookup_insert_eq by (by eapply lookup_lt_Some).
  - by rewrite list_lookup_insert_ne.
Qed.

Lemma link_put_back h p v q j : link (put_back h p v) q j = link h q j.
Proof. unfold link. by rewrite slot_at_put_back. Qed.

Lemma hgt_put_slot h p i s q : hgt (put_slot h p i s) q = hgt h q.
Proof. unfold hgt. by rewrite shape_at_put_slot. Qed.

Lemma hgt_put_back h p v q : hgt (put_back h p v) q = hgt h q.
Proof. unfold hgt. by rewrite shape_at_put_back. Qed.

Lemma shape_at_is_Some h p : is_Some (shape_at h p) ↔ is_Some (h !! p).
Proof. unfold shape_at. by rewrite fmap_is_Some. Qed.

Lemma shape_at_lt h p sh : shape_at h p = Some sh → p < length h.
Proof.
  intros Hs. apply lookup_lt_is_Some, shape_at_is_Some. by rewrite Hs.
Qed.

(** Allocation at the end of the heap. *)
Lemma slot_at_alloc_old h n p i : p < length h → slot_at (h ++ [n]) p i = slot_at h p i.
Proof. intros Hp. unfold slot_at. by rewrite lookup_app_l. Qed.

Lemma shape_at_alloc_old h n p : p < length h → shape_at (h ++ [n]) p = shape_at h p.
Proof. intros Hp. unfold shape_at. by rewrite lookup_app_l. Qed.

Lemma back_at_alloc_old h n p : p < length h → back_at (h ++ [n]) p = back_at h p.
Proof. intros Hp. unfold back_at. by rewrite lookup_app_l. Qed.

Lemma lookup_alloc_new h n : (h ++ [n]) !! length h = Some n.
Proof. by rewrite lookup_app_r, Nat.sub_diag. Qed.

Lemma same_but_level_refl i h : same_but_level i h h.
Proof. by split_and!. Qed.

Lemma same_but_level_put_slot h p i s :
  is_Some (slot_at h p i) → same_but_level i h (put_slot h p i s).
Proof.
  intros Hs. split_and!.
  - apply length_put_slot.
  - intros q. apply shape_at_put_slot.
  - intros q. apply back_at_put_slot.
  - intros q j Hj. rewrite slot_at_put_slot by done.
    rewrite decide_False; [done|naive_solver].
Qed.

Lemma same_but_level_trans i h1 h2 h3 :
  same_but_level i h1 h2 → same_but_level i h2 h3 → same_but_level i h1 h3.
Proof.
  intros (L1 & S1 & B1 & T1) (L2 & S2 & B2 & T2). split_and!.
  - congruence.
  - intros p. by rewrite S2.
  - intros p. by rewrite B2.
  - intros p j Hj. rewrite T2 by done. by apply T1.
Qed.

End proofs.
Section proofs2.
Context {E : Type} `{RankInterface E}.
Implicit Types (h : list (ZSkipListNode E)) (p q x u cur : ptr) (i j : nat).
Implicit Types (s : zskipListLevel) (n : ZSkipListNode E) (l : list ptr) (c k : Z).

(** ** Links and chains *)

Lemma link_Some_inv h p i q d :
  link h p i = Some (Some (q, d)) →
  ∃ s, slot_at h p i = Some s ∧ forward s = Some q ∧ span s = d.
Proof.
  unfold link. destruct (slot_at h p i) as [s|]; simpl; [|done].
  destruct (forward s) as [q'|] eqn:Hf; simpl; [|done].
  intros [= -> <-]. eauto.
Qed.

Lemma link_None_inv h p i :
  link h p i = Some None → ∃ s, slot_at h p i = Some s ∧ forward s = None.
Proof.
  unfold link. destruct (slot_at h p i) as [s|]; simpl; [|done].
  destruct (forward s) as [q'|] eqn:Hf; simpl; [done|]. eauto.
Qed.

Lemma link_of_slot h p i s :
  slot_at h p i = Some s → link h p i = Some (q ← forward s; Some (q, span s)).
Proof. unfold link. by intros ->. Qed.

Lemma link_hgt h p i o : link h p i = Some o → i < hgt h p.
Proof.
  unfold link. destruct (slot_at h p i) as [s|] eqn:Hs; simpl; [|done].
  intros _. by eapply slot_at_hgt.
Qed.

Lemma chain_ext h h' i cur c k l :
  (∀ p, p ∈ l → hgt h' p = hgt h p) →
  link h' cur i = link h cur i →
  (∀ p, p ∈ l → i < hgt h p → link h' p i = link h p i) →
  chain h i cur c k l → chain h' i cur c k l.
Proof.
  revert cur c k. induction l as [|p l IH]; intros cur c k Hh Hc Hl; simpl.
  - by rewrite Hc.
  - rewrite (Hh p) by set_solver. case_decide as Hq.
    + intros [H1 H2]. split; [by rewrite Hc|].
      apply IH; [set_solver|apply Hl; [set_solver|done]|set_solver|done].
    + apply IH; [set_solver|done|set_solver].
Qed.

Lemma chain_shift h i cur c k l d :
  chain h i cur c k l → chain h i cur (c + d) (k + d) l.
Proof.
  revert cur c k. induction l as [|p l IH]; intros cur c k; simpl; [done|].
  case_decide.
  - intros [H1 H2]. split.
    + rewrite H1. feq.
    + replace (k + d + 1)%Z with (k + 1 + d)%Z by lia. by apply IH.
  - intros H1. replace (k + d + 1)%Z with (k + 1 + d)%Z by lia. by apply IH.
Qed.

Lemma chain_rebase h h' i cur c k x cx k' l e :
  e = ((k' - k) + (c - cx))%Z →
  chain h i cur c k l →
  link h' x i = shift_link e <$> link h cur i →
  (∀ p, p ∈ l → hgt h' p = hgt h p) →
  (∀ p, p ∈ l → i < hgt h p → link h' p i = link h p i) →
  chain h' i x cx k' l.
Proof.
  intros ->. revert k k'. induction l as [|p l IH]; intros k k' Hc Hx Hh Hl; simpl in *.
  - by rewrite Hx, Hc.
  - rewrite (Hh p) by set_solver. case_decide as Hq.
    + destruct Hc as [H1 H2]. split.
      * rewrite Hx, H1. simpl. feq.
      * apply (chain_shift _ _ _ _ _ _ (k' - k)) in H2.
        replace (k + (k' - k))%Z with k' in H2 by lia.
        replace (k + 1 + (k' - k))%Z with (k' + 1)%Z in H2 by lia.
        eapply chain_ext; [| |  |exact H2].
        -- set_solver.
        -- apply Hl; [set_solver|done].
        -- set_solver.
    + apply (IH (k + 1)%Z (k' + 1)%Z); [done| |set_solver|set_solver].
      rewrite Hx. feq.
Qed.

Lemma seek_elem h i cur c k l u cu :
  seek h i cur c k l = (u, cu) → u = cur ∨ u ∈ l.
Proof.
  revert cur c k. induction l as [|p l IH]; intros cur c k; simpl.
  - intros [= -> ->]. by left.
  - case_decide; intros Hs; apply IH in Hs; set_solver.
Qed.

Lemma seek_app h i cur c k l1 l2 :
  seek h i cur c k (l1 ++ l2) =
  seek h i (seek h i cur c k l1).1 (seek h i cur c k l1).2 (k + length l1)%Z l2.
Proof.
  revert cur c k. induction l1 as [|p l1 IH]; intros cur c k; simpl.
  - by replace (k + 0%nat)%Z with k by lia.
  - case_decide; rewrite IH; feq.
Qed.

Lemma chain_app h i cur c k l1 l2 :
  chain h i cur c k (l1 ++ l2) →
  chain h i (seek h i cur c k l1).1 (seek h i cur c k l1).2 (k + length l1)%Z l2.
Proof.
  revert cur c k. induction l1 as [|p l1 IH]; intros cur c k; simpl.
  - by replace (k + 0%nat)%Z with k by lia.
  - case_decide.
    + intros [_ H2]. apply IH in H2.
      by replace (k + S (length l1))%Z with (k + 1 + length l1)%Z by lia.
    + intros H2. apply IH in H2.
      by replace (k + S (length l1))%Z with (k + 1 + length l1)%Z by lia.
Qed.

Lemma seek_none h i cur c k l :
  Forall (λ p, hgt h p ≤ i) l → seek h i cur c k l = (cur, c).
Proof.
  revert k. induction l as [|p l IH]; intros k Hl; simpl; [done|].
  inversion_clear Hl. rewrite decide_False by lia. by apply IH.
Qed.

Lemma seek_snoc h i cur c k l p :
  i < hgt h p → seek h i cur c k (l ++ [p]) = (p, (k + length l)%Z).
Proof. intros Hp. rewrite seek_app. simpl. by rewrite decide_True. Qed.

(** Where [seek] ends: at the start, or at a node that splits the list. *)
Lemma seek_split h i cur c k l u cu :
  seek h i cur c k l = (u, cu) →
  (u = cur ∧ cu = c ∧ Forall (λ p, hgt h p ≤ i) l) ∨
  (∃ l1 l2, l = l1 ++ u :: l2 ∧ cu = (k + length l1)%Z ∧ i < hgt h u ∧
            Forall (λ p, hgt h p ≤ i) l2).
Proof.
  revert cur c k. induction l as [|p l IH]; intros cur c k; simpl.
  - intros [= -> ->]. left. split_and!; [done|done|constructor].
  - case_decide as Hq; intros Hs; apply IH in Hs as [(-> & -> & Hl)|(l1 & l2 & -> & -> & Hu & Hl)].
    + right. exists [], l. simpl. split_and!; [done|lia|done|done].
    + right. exists (p :: l1), l2. simpl. split_and!; [done|lia|done|done].
    + left. split_and!; [done|done|]. constructor; [lia|done].
    + right. exists (p :: l1), l2. simpl. split_and!; [done|lia|done|done].
Qed.

(** The walk of a lower level resumes where that of a higher level ended. *)
Lemma seek_resume h i j cur c k l u cu :
  i ≤ j → seek h j cur c k l = (u, cu) →
  ∃ pre post, l = pre ++ post ∧ seek h i cur c k pre = (u, cu) ∧
              Forall (λ p, hgt h p ≤ j) post.
Proof.
  intros Hij Hs. apply seek_split in Hs as [(-> & -> & Hl)|(l1 & l2 & -> & -> & Hu & Hl)].
  - exists [], l. split_and!; [done|done|].
    eapply Forall_impl; [exact Hl|]. simpl. lia.
  - exists (l1 ++ [u]), l2. split_and!; [by rewrite <- app_assoc| |].
    + apply seek_snoc. lia.
    + eapply Forall_impl; [exact Hl|]. simpl. lia.
Qed.

Lemma chain_link_in h i cur c k l q d :
  chain h i cur c k l → link h cur i = Some (Some (q, d)) → q ∈ l ∧ i < hgt h q.
Proof.
  revert k. induction l as [|p l IH]; intros k; simpl.
  - by intros ->.
  - case_decide.
    + intros [H1 _]. rewrite H1. intros [= -> _]. split; [set_solver|done].
    + intros H1 H2. destruct (IH _ H1 H2). split; [set_solver|done].
Qed.

Lemma chain_nil_iff h i cur c k l :
  Forall (λ p, hgt h p ≤ i) l → chain h i cur c k l ↔ link h cur i = Some None.
Proof.
  revert k. induction l as [|p l IH]; intros k Hl; simpl; [done|].
  inversion_clear Hl. rewrite decide_False by lia. by apply IH.
Qed.

(** *** Linking a node in *)

Lemma chain_insert h h' i x cur c k l1 l2 u cu :
  NoDup (cur :: l1 ++ l2) →
  chain h i cur c k (l1 ++ l2) →
  seek h i cur c k l1 = (u, cu) →
  (∀ p, p ∈ l1 ++ l2 → hgt h' p = hgt h p) →
  i < hgt h' x →
  link h' u i = Some (Some (x, (k + length l1 - cu)%Z)) →
  link h' x i = shift_link (1 + cu - (k + length l1))%Z <$> link h u i →
  (∀ p, p ∈ cur :: l1 ++ l2 → p ≠ u → link h' p i = link h p i) →
  chain h' i cur c k (l1 ++ x :: l2).
Proof.
  revert cur c k. induction l1 as [|p l1 IH]; intros cur c k Hnd Hc Hs Hh Hx Hu Hlx Hl;
    simpl in *.
  - injection Hs as -> ->. rewrite decide_True by done. split.
    + rewrite Hu. feq.
    + eapply (chain_rebase h h' i u cu k x k (k + 1)%Z); [|done| | |].
      * reflexivity.
      * rewrite Hlx. feq.
      * done.
      * intros p Hp _. apply Hl; [set_solver|].
        apply NoDup_cons in Hnd as [Hnd _]. intros ->. done.
  - apply NoDup_cons in Hnd as [Hcur Hnd].
    rewrite (Hh p) by set_solver. case_decide as Hq.
    + destruct Hc as [H1 H2].
      assert (u ≠ cur) as Hne.
      { apply seek_elem in Hs. intros ->. set_solver. }
      split; [rewrite Hl; [done|set_solver|done]|].
      apply IH; [done|done|done|set_solver|done| | |].
      * rewrite Hu. feq.
      * rewrite Hlx. feq.
      * intros q Hq' Hqu. apply Hl; [set_solver|done].
    + apply IH; [|done|done|set_solver|done| | |].
      * apply NoDup_cons. apply NoDup_cons in Hnd as [Hp Hnd]. split; [set_solver|done].
      * rewrite Hu. feq.
      * rewrite Hlx. feq.
      * intros q Hq' Hqu. apply Hl; [set_solver|done].
Qed.

Lemma chain_insert_above h h' i x cur c k l1 l2 u cu :
  NoDup (cur :: l1 ++ l2) →
  chain h i cur c k (l1 ++ l2) →
  seek h i cur c k l1 = (u, cu) →
  (∀ p, p ∈ l1 ++ l2 → hgt h' p = hgt h p) →
  hgt h' x ≤ i →
  link h' u i = shift_link 1 <$> link h u i →
  (∀ p, p ∈ cur :: l1 ++ l2 → p ≠ u → link h' p i = link h p i) →
  chain h' i cur c k (l1 ++ x :: l2).
Proof.
  revert cur c k. induction l1 as [|p l1 IH]; intros cur c k Hnd Hc Hs Hh Hx Hu Hl;
    simpl in *.
  - injection Hs as -> ->. rewrite decide_False by lia.
    eapply (chain_rebase h h' i u cu k u cu (k + 1)%Z); [|done| | |].
    + reflexivity.
    + rewrite Hu. feq.
    + done.
    + intros p Hp _. apply Hl; [set_solver|].
      apply NoDup_cons in Hnd as [Hnd _]. intros ->. done.
  - apply NoDup_cons in Hnd as [Hcur Hnd].
    rewrite (Hh p) by set_solver. case_decide as Hq.
    + destruct Hc as [H1 H2].
      assert (u ≠ cur) as Hne.
      { apply seek_elem in Hs. intros ->. set_solver. }
      split; [rewrite Hl; [done|set_solver|done]|].
      apply IH; [done|done|done|set_solver|done|done|].
      intros q Hq' Hqu. apply Hl; [set_solver|done].
    + apply IH; [|done|done|set_solver|done|done|].
      * apply NoDup_cons. apply NoDup_cons in Hnd as [Hp Hnd]. split; [set_solver|done].
      * intros q Hq' Hqu. apply Hl; [set_solver|done].
Qed.

(** *** Unlinking a node *)

Lemma chain_delete h h' i t cur c k l1 l2 u cu :
  NoDup (cur :: l1 ++ t :: l2) →
  chain h i cur c k (l1 ++ t :: l2) →
  seek h i cur c k l1 = (u, cu) →
  (∀ p, p ∈ l1 ++ l2 → hgt h' p = hgt h p) →
  link h' u i = (if decide (i < hgt h t)
                 then shift_link (k + length l1 - cu - 1)%Z <$> link h t i
                 else shift_link (-1)%Z <$> link h u i) →
  (∀ p, p ∈ cur :: l1 ++ l2 → p ≠ u → link h' p i = link h p i) →
  chain h' i cur c k (l1 ++ l2).
Proof.
  revert cur c k. induction l1 as [|p l1 IH]; intros cur c k Hnd Hc Hs Hh Hu Hl;
    simpl in *.
  - injection Hs as -> ->.
    apply NoDup_cons in Hnd as [Hcur Hnd]. apply NoDup_cons in Hnd as [Ht Hnd].
    destruct (decide (i < hgt h t)) as [Hq|Hq].
    + destruct Hc as [H1 H2].
      eapply (chain_rebase h h' i t k (k + 1)%Z u cu k); [|done| | |].
      * reflexivity.
      * rewrite Hu. feq.
      * done.
      * intros p Hp _. apply Hl; [set_solver|]. intros ->. set_solver.
    + eapply (chain_rebase h h' i u cu (k + 1)%Z u cu k); [|done| | |].
      * reflexivity.
      * rewrite Hu. feq.
      * done.
      * intros p Hp _. apply Hl; [set_solver|]. intros ->. set_solver.
  - apply NoDup_cons in Hnd as [Hcur Hnd].
    rewrite (Hh p) by set_solver. destruct (decide (i < hgt h p)) as [Hq|Hq].
    + destruct Hc as [H1 H2].
      assert (u ≠ cur) as Hne.
      { apply seek_elem in Hs. intros ->. set_solver. }
      split; [rewrite Hl; [done|set_solver|done]|].
      apply IH; [done|done|done|set_solver| |].
      * rewrite Hu. case_decide; feq.
      * intros q Hq' Hqu. apply Hl; [set_solver|done].
    + apply IH; [|done|done|set_solver| |].
      * apply NoDup_cons. apply NoDup_cons in Hnd as [Hp Hnd]. split; [set_solver|done].
      * rewrite Hu. case_decide; feq.
      * intros q Hq' Hqu. apply Hl; [set_solver|done].
Qed.

End proofs2.
Section proofs3.
Context {E : Type} `{RankInterface E}.
Implicit Types (h : list (ZSkipListNode E)) (p q x u cur : ptr) (i j : nat).
Implicit Types (s : zskipListLevel) (n : ZSkipListNode E) (l : list ptr) (c k : Z).
Implicit Types (cond : Z → zskipListLevel → ZSkipListNode E → result bool).

(** ** The inner search loop *)

Lemma splits_drop cond h pre l k m m' off :
  (∀ j : nat, j < m' ↔ length pre + j < m) →
  splits cond h (pre ++ l) k m off → splits cond h l (k + length pre)%Z m' off.
Proof.
  intros Hm Hs j q Hq.
  destruct (Hs (length pre + j) q) as (nq & Hnq & Hc).
  { by rewrite lookup_app_r, Nat.add_comm, Nat.add_sub by lia. }
  exists nq. split; [done|]. intros cc s Hcc.
  rewrite Hc by lia. f_equal. apply bool_decide_ext. by rewrite Hm.
Qed.

Lemma splits_tail cond h p l k m m' off :
  (∀ j : nat, j < m' ↔ S j < m) →
  splits cond h (p :: l) k m off → splits cond h l (k + 1)%Z m' off.
Proof.
  intros Hm Hs. apply (splits_drop cond h [p] l k m m' off); [|done].
  intros j. rewrite Hm. simpl. lia.
Qed.

Lemma advance_stop cond fuel h i cur c k l r0 :
  chain h i cur c k l → splits cond h l k 0 (r0 - c) → 0 < fuel →
  advance cond fuel h i cur r0 = Ok (cur, r0).
Proof.
  intros Hc Hs Hf. destruct fuel as [|fuel]; [lia|]. clear Hf.
  revert k Hc Hs. induction l as [|p l IH]; intros k Hc Hs; simpl in Hc.
  - apply link_None_inv in Hc as (s & Hs1 & Hs2). simpl.
    rewrite (load_level_Ok _ _ _ _ Hs1). simpl. by rewrite Hs2.
  - destruct (decide (i < hgt h p)) as [Hq|Hq].
    + destruct Hc as [Hc _]. apply link_Some_inv in Hc as (s & Hs1 & Hs2 & Hs3). simpl.
      rewrite (load_level_Ok _ _ _ _ Hs1). simpl. rewrite Hs2.
      destruct (Hs 0 p) as (np & Hnp & Hcond); [done|].
      rewrite (load_Ok _ _ _ Hnp). simpl.
      specialize (Hcond c s). replace (c + (r0 - c))%Z with r0 in Hcond by lia.
      rewrite Hcond by lia. done.
    + apply (IH (k + 1)%Z); [done|]. eapply splits_tail; [|done]. lia.
Qed.

Lemma advance_seek cond fuel h i cur c k la lb r0 :
  chain h i cur c k (la ++ lb) →
  splits cond h (la ++ lb) k (length la) (r0 - c) →
  length la < fuel →
  advance cond fuel h i cur r0 =
  Ok ((seek h i cur c k la).1, (r0 + ((seek h i cur c k la).2 - c))%Z).
Proof.
  revert fuel cur c k r0. induction la as [|p la IH]; intros fuel cur c k r0 Hc Hs Hf.
  - simpl in *. replace (r0 + (c - c))%Z with r0 by lia.
    eapply advance_stop; [done|done|done].
  - simpl in Hc |- *. destruct (decide (i < hgt h p)) as [Hq|Hq].
    + destruct Hc as [Hc1 Hc2]. destruct fuel as [|fuel]; [simpl in Hf; lia|].
      apply link_Some_inv in Hc1 as (s & Hs1 & Hs2 & Hs3). simpl.
      rewrite (load_level_Ok _ _ _ _ Hs1). simpl. rewrite Hs2.
      destruct (Hs 0 p) as (np & Hnp & Hcond); [done|].
      rewrite (load_Ok _ _ _ Hnp). simpl.
      specialize (Hcond c s). replace (c + (r0 - c))%Z with r0 in Hcond by lia.
      rewrite Hcond by lia. rewrite bool_decide_true by (simpl; lia). simpl.
      rewrite (IH fuel p k (k + 1)%Z (r0 + span s)%Z); [feq|done| |simpl in Hf; lia].
      eapply splits_tail; [|rewrite Hs3; replace (r0 + (k - c) - k)%Z with (r0 - c)%Z by lia; done].
      intros j. simpl. lia.
    + apply (IH fuel cur c (k + 1)%Z r0); [done| |simpl in Hf; lia].
      eapply splits_tail; [|done]. intros j. simpl. lia.
Qed.

(** One level of a top-down search, resumed from where level [j] ended. *)
Lemma advance_level cond fuel h i j hd la lb x c off :
  i ≤ j →
  chain h i hd 0 1 (la ++ lb) →
  splits cond h (la ++ lb) 1 (length la) off →
  length la < fuel →
  seek h j hd 0 1 la = (x, c) →
  advance cond fuel h i x (c + off)%Z =
  Ok ((seek h i hd 0 1 la).1, ((seek h i hd 0 1 la).2 + off)%Z).
Proof.
  intros Hij Hc Hs Hf Hx.
  destruct (seek_resume h i j hd 0 1 la x c Hij Hx) as (pre & post & -> & Hpre & Hpost).
  rewrite <- app_assoc in Hc, Hs.
  apply chain_app in Hc. rewrite Hpre in Hc. simpl in Hc.
  rewrite (advance_seek cond fuel h i x c (1 + length pre)%Z post lb).
  - rewrite seek_app, Hpre. simpl. feq.
  - done.
  - replace (c + off - c)%Z with off by lia.
    eapply splits_drop; [|done]. intros j'. rewrite length_app. lia.
  - rewrite length_app in Hf. lia.
Qed.

(** *** The key conditions on a sorted list *)

Lemma key_cond_lt score obj n e :
  Obj n = Some e →
  key_cond Z.ltb score obj n = Ok (bool_decide (key_lt (Score n, Uuid e) (score, Uuid obj))).
Proof.
  intros He. unfold key_cond, key_lt. rewrite He. simpl.
  destruct (Z.ltb_spec (Score n) score); [by rewrite bool_decide_true by lia|].
  destruct (Z.eqb_spec (Score n) score).
  - f_equal. destruct (Z.ltb_spec (Uuid e) (Uuid obj)).
    + by rewrite bool_decide_true by lia.
    + by rewrite bool_decide_false by lia.
  - by rewrite bool_decide_false by lia.
Qed.

Lemma key_cond_le score obj n e :
  Obj n = Some e →
  key_cond Z.leb score obj n = Ok (bool_decide (key_le (Score n, Uuid e) (score, Uuid obj))).
Proof.
  intros He. unfold key_cond, key_le. rewrite He. simpl.
  destruct (Z.ltb_spec (Score n) score); [by rewrite bool_decide_true by lia|].
  destruct (Z.eqb_spec (Score n) score).
  - f_equal. destruct (Z.leb_spec (Uuid e) (Uuid obj)).
    + by rewrite bool_decide_true by lia.
    + by rewrite bool_decide_false by lia.
  - by rewrite bool_decide_false by lia.
Qed.

Lemma entity_at_inv h p se :
  entity_at h p = Some se →
  ∃ n, h !! p = Some n ∧ Obj n = Some se.2 ∧ Score n = se.1.
Proof.
  unfold entity_at, shape_at. destruct (h !! p) as [n|]; simpl; [|done].
  destruct (Obj n) as [e|] eqn:He; simpl; [|done]. intros [= <-]. by exists n.
Qed.

Lemma key_lt_trans (a b c' : Z * Z) : key_lt a b → key_lt b c' → key_lt a c'.
Proof. unfold key_lt. lia. Qed.

Lemma key_lt_irrefl (a : Z * Z) : ¬ key_lt a a.
Proof. unfold key_lt. lia. Qed.

Lemma key_lt_le_trans (a b c' : Z * Z) : key_lt a b → key_le b c' → key_le a c'.
Proof. unfold key_lt, key_le. lia. Qed.

Lemma key_trichotomy (a b : Z * Z) : key_lt a b ∨ a = b ∨ key_lt b a.
Proof.
  destruct a as [a1 a2], b as [b1 b2]. unfold key_lt. simpl.
  destruct (Z.lt_trichotomy a1 b1) as [?|[->|?]]; [lia| |lia].
  destruct (Z.lt_trichotomy a2 b2) as [?|[->|?]]; [lia| |lia]. right. by left.
Qed.

Lemma key_le_iff (a b : Z * Z) : key_le a b ↔ key_lt a b ∨ a = b.
Proof.
  destruct a as [a1 a2], b as [b1 b2]. unfold key_lt, key_le. simpl. split.
  - intros [?|[-> Hle]]; [lia|].
    destruct (decide (a2 = b2)) as [->|]; [by right|left; lia].
  - intros [?|[= -> ->]]; lia.
Qed.

(** A sorted list splits at any downward-closed property of the keys. *)
Lemma sorted_split (P : Z * Z → Prop) `{!∀ a, Decision (P a)} (lp : list (ptr * (Z * E))) :
  (∀ a b, key_lt a b → P b → P a) →
  StronglySorted key_lt (key <$> lp.*2) →
  ∃ lp1 lp2, lp = lp1 ++ lp2 ∧ Forall (λ pe, P (key pe.2)) lp1 ∧
             Forall (λ pe, ¬ P (key pe.2)) lp2.
Proof.
  intros HP. induction lp as [|pe lp IH]; intros Hs.
  - exists [], []. by split_and!.
  - simpl in Hs. apply StronglySorted_inv in Hs as [Hs Hall].
    destruct (decide (P (key pe.2))) as [Hpe|Hpe].
    + destruct (IH Hs) as (lp1 & lp2 & -> & H1 & H2).
      exists (pe :: lp1), lp2. split_and!; [done|by constructor|done].
    + exists [], (pe :: lp). split_and!; [done|done|]. constructor; [done|].
      rewrite Forall_fmap, Forall_fmap in Hall.
      eapply Forall_impl; [exact Hall|]. simpl. intros pe' Hlt HP'. eauto.
Qed.

End proofs3.
Section proofs4.
Context {E : Type} `{RankInterface E}.
Implicit Types (h : list (ZSkipListNode E)) (p q x u cur hd : ptr) (i j : nat).
Implicit Types (s : zskipListLevel) (n : ZSkipListNode E) (l : list ptr) (c k : Z).
Implicit Types (cond : Z → zskipListLevel → ZSkipListNode E → result bool).
Implicit Types (lp : list (ptr * (Z * E))).

Lemma splits_keys cond (P : Z * Z → Prop) `{!∀ a, Decision (P a)} h lp1 lp2 off :
  (∀ n e r s, Obj n = Some e → cond r s n = Ok (bool_decide (P (Score n, Uuid e)))) →
  Forall (λ pe, entity_at h pe.1 = Some pe.2) (lp1 ++ lp2) →
  Forall (λ pe, P (key pe.2)) lp1 →
  Forall (λ pe, ¬ P (key pe.2)) lp2 →
  splits cond h (lp1 ++ lp2).*1 1 (length lp1) off.
Proof.
  intros Hcond Hent H1 H2 j q Hq.
  apply list_lookup_fmap_Some in Hq as (pe & -> & Hpe).
  rewrite Forall_lookup in Hent. pose proof (Hent _ _ Hpe) as He.
  apply entity_at_inv in He as (n & Hn & Ho & Hsc).
  exists n. split; [done|]. intros cc s _. rewrite (Hcond _ _ _ _ Ho). f_equal.
  apply bool_decide_ext. rewrite Hsc.
  change (pe.2.1, Uuid pe.2.2) with (key pe.2).
  destruct (decide (j < length lp1)) as [Hj|Hj].
  - rewrite lookup_app_l in Hpe by done.
    rewrite Forall_lookup in H1. split; [intros _; done|]. intros _. by eapply H1.
  - rewrite lookup_app_r in Hpe by lia.
    rewrite Forall_lookup in H2. split; [|lia]. intros HP. by eapply H2 in HP.
Qed.

Lemma splits_span r h l m :
  Forall (λ q, is_Some (h !! q)) l →
  (∀ j : nat, j < length l → j < m ↔ (1 + j ≤ r)%Z) →
  splits (cond_span r) h l 1 m 0.
Proof.
  intros Hl Hm j q Hq. rewrite Forall_lookup in Hl.
  destruct (Hl _ _ Hq) as [nq Hnq]. exists nq. split; [done|].
  intros cc s Hcc. unfold cond_span. f_equal.
  apply lookup_lt_Some in Hq. specialize (Hm j Hq).
  destruct (Z.leb_spec (cc + 0 + span s) r).
  - rewrite bool_decide_true; [done|]. apply Hm. lia.
  - rewrite bool_decide_false; [done|]. rewrite Hm. lia.
Qed.

Lemma seek_pos h i cur c k l :
  (c < k)%Z → (c ≤ (seek h i cur c k l).2 < k + length l)%Z.
Proof.
  revert cur c k. induction l as [|p l IH]; intros cur c k Hck; simpl; [lia|].
  case_decide.
  - specialize (IH p k (k + 1)%Z). lia.
  - specialize (IH cur c (k + 1)%Z). lia.
Qed.

Lemma aget_Ok {A} (a : list A) i v : a !! i = Some v → aget a i = Ok v.
Proof. unfold aget. by intros ->. Qed.

Lemma aset_Ok {A} (a : list A) i v : i < length a → aset a i v = Ok (<[i := v]> a).
Proof. unfold aset. intros ?. by rewrite decide_True. Qed.

(** ** The search of Delete *)

Lemma Delete_search_spec fuel h score obj hd la lb nl x update :
  (∀ i, i < nl → chain h i hd 0 1 (la ++ lb)) →
  (∀ off, splits (cond_lt score obj) h (la ++ lb) 1 (length la) off) →
  length la < fuel →
  nl ≤ length update →
  x = (seek h nl hd 0 1 la).1 →
  ∃ update',
    Delete_search fuel h score obj nl x update = Ok ((seek h 0 hd 0 1 la).1, update') ∧
    length update' = length update ∧
    (∀ i, i < nl → update' !! i = Some (Some (seek h i hd 0 1 la).1)) ∧
    (∀ i, nl ≤ i → update' !! i = update !! i).
Proof.
  revert x update. induction nl as [|i IH]; intros x update Hc Hs Hf Hlen ->.
  - exists update. split_and!; [done|done|lia|done].
  - simpl. destruct (seek h (S i) hd 0 1 la) as [x c] eqn:Hx. simpl.
    pose proof (advance_level _ fuel h i (S i) hd la lb x c (- c)%Z
                  ltac:(lia) (Hc i ltac:(lia)) (Hs _) Hf Hx) as Ha.
    replace (c + - c)%Z with 0%Z in Ha by lia. rewrite Ha. simpl.
    rewrite aset_Ok by lia. simpl.
    destruct (IH (seek h i hd 0 1 la).1 (<[i := Some (seek h i hd 0 1 la).1]> update))
      as (update' & Hd & Hl' & Hlo & Hhi).
    + intros i' Hi'. apply Hc. lia.
    + done.
    + done.
    + rewrite length_insert. lia.
    + done.
    + exists update'. split_and!.
      * done.
      * by rewrite Hl', length_insert.
      * intros i' Hi'. destruct (decide (i' = i)) as [->|Hne].
        -- rewrite Hhi by lia. by rewrite list_lookup_insert_eq by lia.
        -- apply Hlo. lia.
      * intros i' Hi'. rewrite Hhi by lia. by rewrite list_lookup_insert_ne by lia.
Qed.

(** ** The search of Insert *)

Lemma Insert_search_spec fuel h score obj hd la lb top nl x update rank :
  (∀ i, i < nl → chain h i hd 0 1 (la ++ lb)) →
  splits (cond_lt score obj) h (la ++ lb) 1 (length la) 0 →
  length la < fuel →
  nl ≤ top → top ≤ length update → top ≤ length rank →
  x = (seek h nl hd 0 1 la).1 →
  (if decide (nl = top)
   then rank !! (top - 1) = Some 0%Z ∧ (seek h nl hd 0 1 la).2 = 0%Z
   else rank !! nl = Some (seek h nl hd 0 1 la).2) →
  ∃ update' rank',
    Insert_search fuel h score obj top nl x update rank = Ok (update', rank') ∧
    length update' = length update ∧ length rank' = length rank ∧
    (∀ i, i < nl → update' !! i = Some (Some (seek h i hd 0 1 la).1) ∧
                   rank' !! i = Some (seek h i hd 0 1 la).2) ∧
    (∀ i, nl ≤ i → update' !! i = update !! i ∧ rank' !! i = rank !! i).
Proof.
  revert x update rank.
  induction nl as [|i IH]; intros x update rank Hc Hs Hf Hnt Hlu Hlr -> Hrk.
  - exists update, rank. split_and!; [done|done|done|lia|done].
  - simpl. destruct (seek h (S i) hd 0 1 la) as [x c] eqn:Hx. simpl in *.
    assert ((if decide (i ≠ top - 1)
             then r ← aget rank (i + 1); aset rank i r
             else Ok rank) = Ok (<[i := c]> rank)) as ->.
    { destruct (decide (S i = top)) as [Hi|Hi].
      - rewrite decide_False by lia. destruct Hrk as [Hrk ->]. f_equal.
        replace i with (top - 1) by lia. symmetry. by apply list_insert_id.
      - rewrite decide_True by lia.
        rewrite Nat.add_1_r, (aget_Ok _ _ _ Hrk). simpl. rewrite aset_Ok by lia. done. }
    simpl. assert ((<[i := c]> rank) !! i = Some c) as Hr1.
    { apply list_lookup_insert_eq. lia. }
    rewrite (aget_Ok _ _ _ Hr1). simpl.
    pose proof (advance_level _ fuel h i (S i) hd la lb x c 0%Z
                  ltac:(lia) (Hc i ltac:(lia)) Hs Hf Hx) as Ha.
    replace (c + 0)%Z with c in Ha by lia. rewrite Ha. simpl.
    destruct (seek h i hd 0 1 la) as [x' c'] eqn:Hx'. simpl.
    replace (c' + 0)%Z with c' by lia.
    rewrite aset_Ok by (rewrite ?length_insert; lia). simpl.
    rewrite aset_Ok by (rewrite ?length_insert; lia). simpl.
    destruct (IH x' (<[i := Some x']> update) (<[i := c']> (<[i := c]> rank)))
      as (update' & rank' & Hd & Hlu' & Hlr' & Hlo & Hhi).
    + intros i' Hi'. apply Hc. lia.
    + done.
    + done.
    + lia.
    + rewrite length_insert. lia.
    + rewrite !length_insert. lia.
    + by rewrite ?Hx'.
    + rewrite decide_False by lia. rewrite ?Hx'. simpl.
      apply list_lookup_insert_eq. rewrite length_insert. lia.
    + exists update', rank'. split_and!.
      * rewrite <- Hd. by rewrite ?Hx'.
      * by rewrite Hlu', length_insert.
      * by rewrite Hlr', !length_insert.
      * intros i' Hi'. destruct (decide (i' = i)) as [->|Hne].
        -- destruct (Hhi i ltac:(lia)) as [-> ->]. rewrite ?Hx'. simpl. split.
           ++ by rewrite list_lookup_insert_eq by lia.
           ++ apply list_lookup_insert_eq. rewrite length_insert. lia.
        -- rewrite ?Hx' in Hlo. apply Hlo. lia.
      * intros i' Hi'. destruct (Hhi i' ltac:(lia)) as [-> ->]. split.
        -- by rewrite list_lookup_insert_ne by lia.
        -- by rewrite !list_lookup_insert_ne by lia.
Qed.

End proofs4.
Section proofs5.
Context {E : Type} `{RankInterface E}.
Implicit Types (h : list (ZSkipListNode E)) (p q x u cur hd : ptr) (i j : nat).
Implicit Types (s : zskipListLevel) (n : ZSkipListNode E) (l : list ptr) (c k : Z).
Implicit Types (lp : list (ptr * (Z * E))).

Lemma slot_at_put_slot_eq h p i s :
  is_Some (slot_at h p i) → slot_at (put_slot h p i s) p i = Some s.
Proof. intros Hs. rewrite slot_at_put_slot by done. by rewrite decide_True. Qed.

Lemma slot_at_put_slot_ne h p i s q j :
  q ≠ p ∨ j ≠ i → slot_at (put_slot h p i s) q j = slot_at h q j.
Proof.
  intros Hne. unfold slot_at, put_slot. destruct (h !! p) as [n|] eqn:Hn; [|done].
  destruct (decide (q = p)) as [->|Hqp].
  - rewrite list_lookup_insert_eq by (by eapply lookup_lt_Some). rewrite Hn. simpl.
    destruct Hne as [?|Hji]; [done|].
    destruct (decide (i < length (level n))).
    + by rewrite list_lookup_insert_ne.
    + by rewrite list_insert_ge by lia.
  - by rewrite list_lookup_insert_ne.
Qed.

(** ** Loops over the levels *)

(** A loop whose round [i] rewrites slots of level [i] only. *)
Lemma for_up_levels (body : nat → list (ZSkipListNode E) → result (list (ZSkipListNode E)))
    (F : nat → ptr → option zskipListLevel) h m a :
  (∀ i hc, a ≤ i < a + m →
     length hc = length h →
     (∀ p, shape_at hc p = shape_at h p) →
     (∀ p, slot_at hc p i = slot_at h p i) →
     ∃ h', body i hc = Ok h' ∧ same_but_level i hc h' ∧ ∀ p, slot_at h' p i = F i p) →
  ∃ h', for_up m a body h = Ok h' ∧
        length h' = length h ∧
        (∀ p, shape_at h' p = shape_at h p) ∧
        (∀ p, back_at h' p = back_at h p) ∧
        (∀ p j, slot_at h' p j = if decide (a ≤ j < a + m) then F j p else slot_at h p j).
Proof.
  revert a h. induction m as [|m IH]; intros a h Hbody.
  - exists h. split_and!; try done. intros p j. by rewrite decide_False by lia.
  - simpl.
    destruct (Hbody a h) as (h1 & Hb & (L1 & S1 & B1 & T1) & F1); [lia|done|done|done|].
    rewrite Hb. simpl.
    destruct (IH (S a) h1) as (h' & Hfor & L' & S' & B' & T').
    { intros i hc Hi Hlen Hsh Hsl. apply Hbody.
      - lia.
      - congruence.
      - intros p. by rewrite Hsh.
      - intros p. rewrite Hsl. apply T1. lia. }
    exists h'. split_and!.
    + done.
    + congruence.
    + intros p. by rewrite S'.
    + intros p. by rewrite B'.
    + intros p j. rewrite T'. destruct (decide (j = a)) as [->|Hne].
      * rewrite decide_False by lia. rewrite decide_True by lia. apply F1.
      * destruct (decide (S a ≤ j < S a + m)).
        -- by rewrite decide_True by lia.
        -- rewrite decide_False by lia. apply T1. done.
Qed.

(** *** The rounds of Insert *)

Lemma Insert_raise_spec hd len h (update : list (option ptr)) (rank : list Z) m a :
  a + m ≤ length update → a + m ≤ length rank →
  (∀ i, a ≤ i < a + m → link h hd i = Some None) →
  ∃ h' update' rank',
    for_up m a (Insert_raise hd len) (h, update, rank) = Ok (h', update', rank') ∧
    length h' = length h ∧
    (∀ p, shape_at h' p = shape_at h p) ∧
    (∀ p, back_at h' p = back_at h p) ∧
    (∀ p j, link h' p j = link h p j) ∧
    length update' = length update ∧ length rank' = length rank ∧
    (∀ j, update' !! j = if decide (a ≤ j < a + m) then Some (Some hd) else update !! j) ∧
    (∀ j, rank' !! j = if decide (a ≤ j < a + m) then Some 0%Z else rank !! j).
Proof.
  revert a h update rank. induction m as [|m IH]; intros a h update rank Hlu Hlr Hnil.
  - exists h, update, rank. split_and!; try done.
    + intros j. by rewrite decide_False by lia.
    + intros j. by rewrite decide_False by lia.
  - simpl. rewrite aset_Ok by lia. simpl. rewrite aset_Ok by lia. simpl.
    rewrite (aget_Ok _ _ (Some hd)) by (apply list_lookup_insert_eq; lia). simpl.
    destruct (link_None_inv h hd a (Hnil a ltac:(lia))) as (s & Hs & Hfs).
    rewrite (set_span_Ok _ _ _ _ _ Hs). simpl.
    set (h1 := put_slot h hd a (mkLevel (forward s) len)).
    assert (∀ p j, link h1 p j = link h p j) as Hlink.
    { intros p j. unfold link, h1.
      destruct (decide (p = hd ∧ j = a)) as [[-> ->]|Hne].
      - rewrite slot_at_put_slot_eq by (by rewrite Hs). rewrite Hs. simpl. by rewrite Hfs.
      - rewrite slot_at_put_slot_ne; [done|]. destruct (decide (p = hd)); [right|left]; naive_solver. }
    destruct (IH (S a) h1 (<[a := Some hd]> update) (<[a := 0%Z]> rank))
      as (h' & update' & rank' & Hfor & L' & S' & B' & K' & Lu & Lr & U' & R').
    { rewrite length_insert. lia. }
    { rewrite length_insert. lia. }
    { intros i Hi. rewrite Hlink. apply Hnil. lia. }
    exists h', update', rank'. split_and!.
    + done.
    + rewrite L'. apply length_put_slot.
    + intros p. rewrite S'. apply shape_at_put_slot.
    + intros p. rewrite B'. apply back_at_put_slot.
    + intros p j. by rewrite K', Hlink.
    + by rewrite Lu, length_insert.
    + by rewrite Lr, length_insert.
    + intros j. rewrite U'. destruct (decide (j = a)) as [->|Hne].
      * rewrite decide_False by lia. rewrite decide_True by lia.
        apply list_lookup_insert_eq. lia.
      * rewrite list_lookup_insert_ne by done.
        destruct (decide (S a ≤ j < S a + m)).
        -- by rewrite decide_True by lia.
        -- by rewrite decide_False by lia.
    + intros j. rewrite R'. destruct (decide (j = a)) as [->|Hne].
      * rewrite decide_False by lia. rewrite decide_True by lia.
        apply list_lookup_insert_eq. lia.
      * rewrite list_lookup_insert_ne by done.
        destruct (decide (S a ≤ j < S a + m)).
        -- by rewrite decide_True by lia.
        -- by rewrite decide_False by lia.
Qed.

Lemma Insert_splice_spec x (update : list (option ptr)) (rank : list Z) i hc u c0 ci su sx :
  update !! i = Some (Some u) → rank !! 0 = Some c0 → rank !! i = Some ci →
  slot_at hc u i = Some su → slot_at hc x i = Some sx → u ≠ x →
  ∃ h', Insert_splice x update rank i hc = Ok h' ∧ same_but_level i hc h' ∧
        ∀ p, slot_at h' p i =
             if decide (p = u) then Some (mkLevel (Some x) (c0 - ci + 1)%Z)
             else if decide (p = x) then Some (mkLevel (forward su) (span su - (c0 - ci))%Z)
             else slot_at hc p i.
Proof.
  intros Hu H0 Hi Hsu Hsx Hne. unfold Insert_splice.
  rewrite (aget_Ok _ _ _ Hu). simpl.
  rewrite (load_level_Ok _ _ _ _ Hsu). simpl.
  rewrite (set_forward_Ok _ _ _ _ _ Hsx). simpl.
  set (h1 := put_slot hc x i (mkLevel (forward su) (span sx))).
  assert (slot_at h1 u i = Some su) as Hsu1.
  { unfold h1. rewrite slot_at_put_slot_ne by (by left). done. }
  assert (slot_at h1 x i = Some (mkLevel (forward su) (span sx))) as Hsx1.
  { unfold h1. apply slot_at_put_slot_eq. by rewrite Hsx. }
  rewrite (set_forward_Ok _ _ _ _ _ Hsu1). simpl.
  set (h2 := put_slot h1 u i (mkLevel (Some x) (span su))).
  assert (slot_at h2 u i = Some (mkLevel (Some x) (span su))) as Hsu2.
  { unfold h2. apply slot_at_put_slot_eq. by rewrite Hsu1. }
  assert (slot_at h2 x i = Some (mkLevel (forward su) (span sx))) as Hsx2.
  { unfold h2. rewrite slot_at_put_slot_ne by (left; done). done. }
  rewrite (load_level_Ok _ _ _ _ Hsu2). simpl.
  rewrite (aget_Ok _ _ _ H0), (aget_Ok _ _ _ Hi). simpl.
  rewrite (set_span_Ok _ _ _ _ _ Hsx2). simpl.
  set (h3 := put_slot h2 x i (mkLevel (forward su) (span su - (c0 - ci))%Z)).
  assert (slot_at h3 u i = Some (mkLevel (Some x) (span su))) as Hsu3.
  { unfold h3. rewrite slot_at_put_slot_ne by (by left). done. }
  assert (slot_at h3 x i = Some (mkLevel (forward su) (span su - (c0 - ci))%Z)) as Hsx3.
  { unfold h3. apply slot_at_put_slot_eq. by rewrite Hsx2. }
  rewrite (set_span_Ok _ _ _ _ _ Hsu3). simpl.
  eexists. split; [done|]. split.
  - eapply same_but_level_trans; [|apply same_but_level_put_slot; by rewrite Hsu3].
    eapply same_but_level_trans; [|apply same_but_level_put_slot; by rewrite Hsx2].
    eapply same_but_level_trans; [|apply same_but_level_put_slot; by rewrite Hsu1].
    apply same_but_level_put_slot. by rewrite Hsx.
  - intros p. destruct (decide (p = u)) as [->|Hpu].
    + apply slot_at_put_slot_eq. by rewrite Hsu3.
    + rewrite slot_at_put_slot_ne by (by left).
      destruct (decide (p = x)) as [->|Hpx]; [done|].
      unfold h3, h2, h1. by rewrite !slot_at_put_slot_ne by (by left).
Qed.

Lemma Insert_bump_spec (update : list (option ptr)) i hc u su :
  update !! i = Some (Some u) → slot_at hc u i = Some su →
  ∃ h', Insert_bump update i hc = Ok h' ∧ same_but_level i hc h' ∧
        ∀ p, slot_at h' p i =
             if decide (p = u) then Some (mkLevel (forward su) (span su + 1)%Z)
             else slot_at hc p i.
Proof.
  intros Hu Hsu. unfold Insert_bump.
  rewrite (aget_Ok _ _ _ Hu). simpl.
  rewrite (load_level_Ok _ _ _ _ Hsu). simpl.
  rewrite (set_span_Ok _ _ _ _ _ Hsu). simpl.
  eexists. split; [done|]. split.
  - apply same_but_level_put_slot. by rewrite Hsu.
  - intros p. destruct (decide (p = u)) as [->|Hpu].
    + apply slot_at_put_slot_eq. by rewrite Hsu.
    + by rewrite slot_at_put_slot_ne by (by left).
Qed.

(** *** The round of deleteNode *)

Lemma deleteNode_unlink_spec t (update : list (option ptr)) i hc u su :
  update !! i = Some (Some u) → slot_at hc u i = Some su → u ≠ t →
  (forward su = Some t → is_Some (slot_at hc t i)) →
  ∃ h', deleteNode_unlink t update i hc = Ok h' ∧ same_but_level i hc h' ∧
        ∀ p, slot_at h' p i =
             if decide (p = u) then
               if decide (forward su = Some t)
               then (λ st, mkLevel (forward st) (span su + (span st - 1))%Z) <$> slot_at hc t i
               else Some (mkLevel (forward su) (span su - 1)%Z)
             else slot_at hc p i.
Proof.
  intros Hu Hsu Hne Ht. unfold deleteNode_unlink.
  rewrite (aget_Ok _ _ _ Hu). simpl.
  rewrite (load_level_Ok _ _ _ _ Hsu). simpl.
  destruct (decide (forward su = Some t)) as [Hf|Hf].
  - destruct (Ht Hf) as [st Hst].
    rewrite (load_level_Ok _ _ _ _ Hst). simpl.
    rewrite (set_span_Ok _ _ _ _ _ Hsu). simpl.
    set (h1 := put_slot hc u i (mkLevel (forward su) (span su + (span st - 1))%Z)).
    assert (slot_at h1 t i = Some st) as Hst1.
    { unfold h1. rewrite slot_at_put_slot_ne by (left; done). done. }
    assert (slot_at h1 u i = Some (mkLevel (forward su) (span su + (span st - 1))%Z)) as Hsu1.
    { unfold h1. apply slot_at_put_slot_eq. by rewrite Hsu. }
    rewrite (load_level_Ok _ _ _ _ Hst1). simpl.
    rewrite (set_forward_Ok _ _ _ _ _ Hsu1). simpl.
    eexists. split; [done|]. split.
    + eapply same_but_level_trans; [|apply same_but_level_put_slot; by rewrite Hsu1].
      apply same_but_level_put_slot. by rewrite Hsu.
    + intros p. destruct (decide (p = u)) as [->|Hpu].
      * rewrite slot_at_put_slot_eq by (by rewrite Hsu1). by rewrite Hst.
      * unfold h1. by rewrite !slot_at_put_slot_ne by (by left).
  - rewrite (set_span_Ok _ _ _ _ _ Hsu). simpl.
    eexists. split; [done|]. split.
    + apply same_but_level_put_slot. by rewrite Hsu.
    + intros p. destruct (decide (p = u)) as [->|Hpu].
      * apply slot_at_put_slot_eq. by rewrite Hsu.
      * by rewrite slot_at_put_slot_ne by (by left).
Qed.

End proofs5.
Section proofs6.
Context {E : Type} `{RankInterface E}.
Implicit Types (h : list (ZSkipListNode E)) (p q x u cur hd : ptr) (i j : nat).
Implicit Types (s : zskipListLevel) (n : ZSkipListNode E) (l : list ptr) (c k : Z).
Implicit Types (lp : list (ptr * (Z * E))).

Lemma seek_ext h h' i cur c k l :
  (∀ p, p ∈ l → hgt h' p = hgt h p) → seek h' i cur c k l = seek h i cur c k l.
Proof.
  revert cur c k. induction l as [|p l IH]; intros cur c k Hh; simpl; [done|].
  rewrite (Hh p) by set_solver. case_decide; apply IH; set_solver.
Qed.

Lemma chain_link_is_Some h i cur c k l : chain h i cur c k l → is_Some (link h cur i).
Proof.
  revert k. induction l as [|p l IH]; intros k; simpl.
  - intros ->. eauto.
  - case_decide; [intros [-> _]; eauto|apply IH].
Qed.

Lemma seek0 h cur c k l :
  Forall (λ p, 0 < hgt h p) l →
  seek h 0 cur c k l = (default cur (last l), if l is [] then c else (k + length l - 1)%Z).
Proof.
  revert cur c k. induction l as [|p l IH]; intros cur c k Hl; simpl; [done|].
  inversion_clear Hl. rewrite decide_True by done. rewrite IH by done.
  destruct l as [|p' l]; [simpl; feq|].
  rewrite (last_cons p (p' :: l)).
  destruct (last (p' :: l)) as [y|] eqn:Hlast; [|by apply last_None in Hlast].
  simpl. f_equal. lia.
Qed.

Lemma randLevel_loop_ge rnd lvl lv rnd' :
  randLevel_loop rnd lvl = Ok (lv, rnd') → lvl ≤ lv.
Proof.
  revert lvl. induction rnd as [|d rnd IH]; intros lvl; simpl; [done|].
  destruct (coin d).
  - intros Hr. apply IH in Hr. lia.
  - intros [= -> _]. done.
Qed.

Lemma randLevel_range rnd lv rnd' :
  randLevel rnd = Ok (lv, rnd') → 1 ≤ lv ≤ ZSKIPLIST_MAXLEVEL.
Proof.
  unfold randLevel. destruct (randLevel_loop rnd 1) as [[lvl r]| |] eqn:Hl; simpl; [|done|done].
  apply randLevel_loop_ge in Hl. case_decide; intros [= <- _]; unfold ZSKIPLIST_MAXLEVEL in *; lia.
Qed.

Lemma link_fmap h p i (f : zskipListLevel → zskipListLevel)
    (g : option (ptr * Z) → option (ptr * Z)) h' p' i' :
  (∀ s, (q ← forward (f s); Some (q, span (f s))) = g (q ← forward s; Some (q, span s))) →
  slot_at h' p' i' = f <$> slot_at h p i →
  link h' p' i' = g <$> link h p i.
Proof.
  intros Hfg Hs. unfold link. rewrite Hs.
  destruct (slot_at h p i) as [s|]; simpl; [|done]. by rewrite Hfg.
Qed.

Lemma Inv_ptr_lt zsl lp p : Inv zsl lp → p ∈ zsl_head zsl :: lp.*1 → p < length (zsl_heap zsl).
Proof.
  intros HI. rewrite elem_of_cons. intros [->|Hp].
  - destruct (inv_head _ _ HI) as [sc Hsc]. by eapply shape_at_lt.
  - apply list_elem_of_fmap in Hp as (pe & -> & Hpe).
    pose proof (inv_nodes _ _ HI) as Hn. rewrite Forall_forall in Hn.
    destruct (Hn _ Hpe) as [He _]. unfold entity_at in He.
    destruct (shape_at (zsl_heap zsl) pe.1) eqn:Hs; [|done]. by eapply shape_at_lt.
Qed.

Lemma Inv_hgt_le zsl lp : Inv zsl lp → Forall (λ p, hgt (zsl_heap zsl) p ≤ zsl_level zsl) lp.*1.
Proof.
  intros HI. rewrite Forall_fmap. eapply Forall_impl; [apply (inv_nodes _ _ HI)|].
  simpl. intros pe [_ ?]. lia.
Qed.

Lemma Inv_hgt_pos zsl lp : Inv zsl lp → Forall (λ p, 0 < hgt (zsl_heap zsl) p) lp.*1.
Proof.
  intros HI. rewrite Forall_fmap. eapply Forall_impl; [apply (inv_nodes _ _ HI)|].
  simpl. intros pe [_ ?]. lia.
Qed.

Lemma Inv_hgt_head zsl lp : Inv zsl lp → hgt (zsl_heap zsl) (zsl_head zsl) = ZSKIPLIST_MAXLEVEL.
Proof. intros HI. destruct (inv_head _ _ HI) as [sc Hsc]. unfold hgt. by rewrite Hsc. Qed.

Lemma Inv_entities zsl lp :
  Inv zsl lp → Forall (λ pe, entity_at (zsl_heap zsl) pe.1 = Some pe.2) lp.
Proof.
  intros HI. eapply Forall_impl; [apply (inv_nodes _ _ HI)|]. by intros pe [? _].
Qed.

(** The start of the search is where a walk of the top level ends. *)
Lemma Inv_seek_top zsl lp la i :
  Inv zsl lp → la `prefix_of` lp.*1 → zsl_level zsl ≤ i →
  seek (zsl_heap zsl) i (zsl_head zsl) 0 1 la = (zsl_head zsl, 0%Z).
Proof.
  intros HI [lb Hla] Hi. apply seek_none.
  pose proof (Inv_hgt_le _ _ HI) as Hh. rewrite Hla in Hh.
  apply Forall_app in Hh as [Hh _]. eapply Forall_impl; [exact Hh|]. simpl. lia.
Qed.

(** The node a search stops at has a slot at the level searched. *)
Lemma Inv_seek_link zsl lp la lb i :
  Inv zsl lp → lp.*1 = la ++ lb → i < ZSKIPLIST_MAXLEVEL →
  chain (zsl_heap zsl) i (seek (zsl_heap zsl) i (zsl_head zsl) 0 1 la).1
    (seek (zsl_heap zsl) i (zsl_head zsl) 0 1 la).2 (1 + length la)%Z lb.
Proof.
  intros HI Hl Hi. pose proof (inv_chain _ _ HI i Hi) as Hc. rewrite Hl in Hc.
  by apply chain_app in Hc.
Qed.

Lemma seek_Inv_elem zsl lp la lb i :
  Inv zsl lp → lp.*1 = la ++ lb →
  (seek (zsl_heap zsl) i (zsl_head zsl) 0 1 la).1 ∈ zsl_head zsl :: la.
Proof.
  intros HI Hl. destruct (seek _ i _ 0 1 la) as [u cu] eqn:Hs.
  apply seek_elem in Hs. simpl. set_solver.
Qed.

End proofs6.
Section proofs7.
Context {E : Type} `{RankInterface E}.
Implicit Types (h : list (ZSkipListNode E)) (p q x u cur hd : ptr) (i j : nat).
Implicit Types (s : zskipListLevel) (n : ZSkipListNode E) (l : list ptr) (c k : Z).
Implicit Types (lp : list (ptr * (Z * E))).

Lemma cond_lt_spec score obj n e r s :
  Obj n = Some e →
  cond_lt score obj r s n =
  Ok (bool_decide (key_lt (Score n, Uuid e) (key (score, obj)))).
Proof. intros He. unfold cond_lt. by apply key_cond_lt. Qed.

Lemma cond_le_spec score obj n e r s :
  Obj n = Some e →
  cond_le score obj r s n =
  Ok (bool_decide (key_le (Score n, Uuid e) (key (score, obj)))).
Proof. intros He. unfold cond_le. by apply key_cond_le. Qed.

(** ** Insert: what a run does to the heap *)

Lemma Insert_run fuel rnd score obj h hd tl len zl lp lp1 lp2 lv rnd' :
  Inv (mkZSkipList h hd tl len zl) lp → lp = lp1 ++ lp2 →
  Forall (λ pe, key_lt (key pe.2) (key (score, obj))) lp1 →
  Forall (λ pe, ¬ key_lt (key pe.2) (key (score, obj))) lp2 →
  length lp1 < fuel →
  randLevel rnd = Ok (lv, rnd') →
  let x := length h in
  let la := lp1.*1 in
  let lb := lp2.*1 in
  let zl' := zl `max` lv in
  let u := λ i, (seek h i hd 0 1 la).1 in
  let cu := λ i, (seek h i hd 0 1 la).2 in
  ∃ h' tl',
    Insert fuel rnd score obj (mkZSkipList h hd tl len zl) =
      Ok (mkZSkipList h' hd tl' (len + 1)%Z zl', x, rnd') ∧
    length h' = S (length h) ∧
    (∀ p, p < length h → shape_at h' p = shape_at h p) ∧
    shape_at h' x = Some (Some obj, score, lv) ∧
    (∀ i, i < lv →
       link h' (u i) i = Some (Some (x, (1 + length la - cu i)%Z)) ∧
       link h' x i = shift_link (cu i - length la)%Z <$> link h (u i) i) ∧
    (∀ i, lv ≤ i < zl' → link h' (u i) i = shift_link 1 <$> link h (u i) i) ∧
    (∀ i p, p < length h → (i < zl' → p ≠ u i) → link h' p i = link h p i) ∧
    back_at h' x = Some (last la) ∧
    (∀ p, p < length h → head lb ≠ Some p → back_at h' p = back_at h p) ∧
    (∀ y, head lb = Some y → back_at h' y = Some (Some x)) ∧
    tl' = (if head lb is Some _ then tl else Some x).
Proof.
  intros HI Hlp H1 H2 Hfuel Hrl x la lb zl' u cu.
  set (zsl := mkZSkipList h hd tl len zl) in HI.
  assert (x = length h) as Hx by done.
  assert (zl' = zl `max` lv) as Hzl' by done.
  clearbody x zl'.
  pose proof (randLevel_range _ _ _ Hrl) as Hlv.
  pose proof (inv_level _ _ HI) as Hzl. simpl in Hzl.
  assert (lp.*1 = la ++ lb) as Hl by (by rewrite Hlp, fmap_app).
  assert (∀ p, p ∈ hd :: la ++ lb → p < length h) as Hlt.
  { intros p Hp. apply (Inv_ptr_lt zsl lp p HI). by rewrite Hl. }
  assert (∀ i, u i ∈ hd :: la) as Hu_in.
  { intros i. by apply (seek_Inv_elem zsl lp la lb i HI). }
  assert (∀ i, u i < length h) as Hu_lt.
  { intros i. apply Hlt. specialize (Hu_in i). set_solver. }
  assert (∀ i, i < ZSKIPLIST_MAXLEVEL → chain h i (u i) (cu i) (1 + length la)%Z lb) as Hcu.
  { intros i Hi. by apply (Inv_seek_link zsl lp la lb i HI). }
  assert (∀ i, zl ≤ i → u i = hd ∧ cu i = 0%Z) as Htop.
  { intros i Hi. unfold u, cu.
    pose proof (Inv_seek_top zsl lp la i HI) as Ht. simpl in Ht. rewrite Ht; [done| |done].
    exists lb. done. }
  assert (cu 0 = length la) as Hc0.
  { unfold cu. rewrite seek0.
    - simpl. destruct la; simpl; lia.
    - pose proof (Inv_hgt_pos _ _ HI) as Hp. simpl in Hp. rewrite Hl in Hp.
      by apply Forall_app in Hp as [Hp _]. }
  (* the search *)
  destruct (Insert_search_spec fuel h score obj hd la lb (zl) (zl) hd
              (replicate ZSKIPLIST_MAXLEVEL None) (replicate ZSKIPLIST_MAXLEVEL 0%Z))
    as (update & rank & Hsearch & Lu & Lr & Hlo & Hhi).
  { intros i Hi. rewrite <- Hl. apply (inv_chain _ _ HI). lia. }
  { unfold la, lb. rewrite length_fmap, <- fmap_app.
    apply (splits_keys _ (λ a, key_lt a (key (score, obj)))); [|rewrite <- Hlp; apply (Inv_entities _ _ HI)|done|done].
    intros n e r s He. by apply cond_lt_spec. }
  { unfold la. by rewrite length_fmap. }
  { done. }
  { rewrite length_replicate. lia. }
  { rewrite length_replicate. lia. }
  { destruct (Htop (zl) ltac:(lia)) as [Ht _]. symmetry. exact Ht. }
  { rewrite decide_True by done. split.
    - apply lookup_replicate_2. lia.
    - destruct (Htop (zl) ltac:(lia)) as [_ Ht]. exact Ht. }
  rewrite length_replicate in Lu. rewrite length_replicate in Lr.
  (* raising the level of the list *)
  assert (∃ h1 update1 rank1,
    (if decide (zl < lv)
     then for_up (lv - zl) (zl)
            (Insert_raise hd (len)) (h, update, rank)
     else Ok (h, update, rank)) = Ok (h1, update1, rank1) ∧
    length h1 = length h ∧
    (∀ p, shape_at h1 p = shape_at h p) ∧
    (∀ p, back_at h1 p = back_at h p) ∧
    (∀ p j, link h1 p j = link h p j) ∧
    (∀ i, i < zl' → update1 !! i = Some (Some (u i)) ∧ rank1 !! i = Some (cu i)))
    as (h1 & update1 & rank1 & Hraise & L1 & S1 & B1 & K1 & Hur).
  { case_decide as Hcase.
    - destruct (Insert_raise_spec hd (len) h update rank
                  (lv - zl) (zl))
        as (h1 & update1 & rank1 & Hfor & L1 & S1 & B1 & K1 & _ & _ & U1 & R1).
      + lia.
      + lia.
      + intros i Hi. destruct (Htop i ltac:(lia)) as [Hui Hci].
        pose proof (Hcu i ltac:(lia)) as Hc. rewrite Hui in Hc.
        eapply chain_nil_iff; [|exact Hc].
        pose proof (Inv_hgt_le _ _ HI) as Hh. simpl in Hh. rewrite Hl in Hh.
        apply Forall_app in Hh as [_ Hh]. eapply Forall_impl; [exact Hh|]. simpl. lia.
      + exists h1, update1, rank1. split_and!; try done.
        intros i Hi. rewrite U1, R1.
        destruct (decide (zl ≤ i)) as [Hge|Hlt'].
        * rewrite !decide_True by lia. by destruct (Htop i Hge) as [-> ->].
        * rewrite !decide_False by lia. apply Hlo. lia.
    - exists h, update, rank. split_and!; try done.
      intros i Hi. apply Hlo. lia. }
  unfold Insert. cbn [zsl_heap zsl_head zsl_level zsl_length zsl_tail]. rewrite Hsearch. simpl. rewrite Hrl. simpl.
  rewrite Hraise. simpl. rewrite L1, <- Hx.
  assert ((if decide (zl < lv) then lv else zl) = zl') as ->.
  { case_decide; lia. }
  set (h2 := h1 ++ [newZSkipListNode lv score (Some obj)]).
  assert (∀ p j, p < length h → slot_at h2 p j = slot_at h1 p j) as Hs2.
  { intros p j Hp. apply slot_at_alloc_old. lia. }
  assert (∀ j, j < lv → slot_at h2 x j = Some (mkLevel None 0)) as Hx2.
  { intros j Hj. unfold slot_at, h2. rewrite Hx, <- L1, lookup_alloc_new. simpl.
    by apply lookup_replicate_2. }
  assert (∀ i, i < ZSKIPLIST_MAXLEVEL → is_Some (slot_at h2 (u i) i)) as Hsu2.
  { intros i Hi. rewrite Hs2 by done.
    destruct (chain_link_is_Some _ _ _ _ _ _ (Hcu i Hi)) as [o Ho].
    rewrite <- K1 in Ho. unfold link in Ho.
    destruct (slot_at h1 (u i) i); [eauto|done]. }
  (* linking the node in *)
  destruct (for_up_levels (Insert_splice x update1 rank1)
    (λ i p, if decide (p = u i) then Some (mkLevel (Some x) (cu 0%nat - cu i + 1)%Z)
            else if decide (p = x)
                 then (λ su, mkLevel (forward su) (span su - (cu 0%nat - cu i))%Z)
                        <$> slot_at h2 (u i) i
                 else slot_at h2 p i) h2 lv 0)
    as (h3 & Hsplice & L3 & S3 & B3 & T3).
  { intros i hc Hi Hlen Hsh Hsl.
    destruct (Hsu2 i ltac:(lia)) as [su Hsu].
    destruct (Insert_splice_spec x update1 rank1 i hc (u i) (cu 0) (cu i) su (mkLevel None 0))
      as (h' & Hb & Hsame & Hslots).
    - apply Hur. lia.
    - apply Hur. lia.
    - apply Hur. lia.
    - by rewrite Hsl.
    - rewrite Hsl. apply Hx2. lia.
    - specialize (Hu_lt i). lia.
    - exists h'. split_and!; [done|done|].
      intros p. rewrite Hslots, Hsu, !Hsl. done. }
  rewrite Hsplice. simpl.
  (* the spans of the levels above *)
  destruct (for_up_levels (Insert_bump update1)
    (λ i p, if decide (p = u i)
            then (λ su, mkLevel (forward su) (span su + 1)%Z) <$> slot_at h3 (u i) i
            else slot_at h3 p i) h3 (zl' - lv) lv)
    as (h4 & Hbump & L4 & S4 & B4 & T4).
  { intros i hc Hi Hlen Hsh Hsl.
    assert (is_Some (slot_at h3 (u i) i)) as [su Hsu].
    { rewrite T3. rewrite decide_False by lia. apply Hsu2. lia. }
    destruct (Insert_bump_spec update1 i hc (u i) su) as (h' & Hb & Hsame & Hslots).
    - apply Hur. lia.
    - by rewrite Hsl.
    - exists h'. split_and!; [done|done|].
      intros p. rewrite Hslots, Hsu, !Hsl. done. }
  rewrite Hbump. simpl.
  assert (length h2 = S (length h)) as L2.
  { unfold h2. rewrite length_app, L1. simpl. lia. }
  assert (∀ p i, slot_at h4 p i =
            if decide (i < lv) then
              if decide (p = u i) then Some (mkLevel (Some x) (cu 0%nat - cu i + 1)%Z)
              else if decide (p = x)
                   then (λ su, mkLevel (forward su) (span su - (cu 0%nat - cu i))%Z)
                          <$> slot_at h2 (u i) i
                   else slot_at h2 p i
            else if decide (i < zl') then
              if decide (p = u i)
              then (λ su, mkLevel (forward su) (span su + 1)%Z) <$> slot_at h2 (u i) i
              else slot_at h2 p i
            else slot_at h2 p i) as T4'.
  { intros p i. rewrite T4, !T3. goal_decide; done. }
  clear T4 T3.
  (* the backward links *)
  assert (update1 !! 0 = Some (Some (u 0))) as Hu0 by (apply Hur; lia).
  rewrite (aget_Ok _ _ _ Hu0). simpl.
  assert (x < length h4) as Hx4 by lia.
  assert (is_Some (h4 !! x)) as Hx4' by (by apply lookup_lt_is_Some).
  set (h5 := if decide (u 0 = hd) then h4 else put_back h4 x (Some (u 0))).
  assert ((if decide (Some (u 0) ≠ Some hd) then set_backward h4 x (Some (u 0)) else Ok h4)
          = Ok h5) as ->.
  { unfold h5. destruct (decide (u 0 = hd)) as [->|Hne].
    - by rewrite decide_False by naive_solver.
    - rewrite decide_True by naive_solver. by apply set_backward_Ok. }
  simpl.
  assert (∀ p j, slot_at h5 p j = slot_at h4 p j) as T5.
  { intros p j. unfold h5. destruct (decide (u 0 = hd)); [done|]. apply slot_at_put_back. }
  assert (∀ p, shape_at h5 p = shape_at h4 p) as S5.
  { intros p. unfold h5. destruct (decide (u 0 = hd)); [done|]. apply shape_at_put_back. }
  assert (back_at h2 x = Some None) as Bx2.
  { unfold back_at, h2. by rewrite Hx, <- L1, lookup_alloc_new. }
  assert (last la = if decide (u 0 = hd) then None else Some (u 0)) as Hlast.
  { unfold u. rewrite seek0.
    2:{ pose proof (Inv_hgt_pos _ _ HI) as Hp. simpl in Hp. rewrite Hl in Hp.
        by apply Forall_app in Hp as [Hp _]. }
    simpl. destruct (last la) as [y|] eqn:Hy; simpl.
    - rewrite decide_False; [done|]. intros ->.
      apply last_Some_elem_of in Hy.
      pose proof (inv_nodup _ _ HI) as Hnd. simpl in Hnd. rewrite Hl in Hnd.
      apply NoDup_cons in Hnd as [Hnd _]. set_solver.
    - by rewrite decide_True. }
  assert (back_at h5 x = Some (last la)) as Bx5.
  { rewrite Hlast. unfold h5. destruct (decide (u 0 = hd)).
    - by rewrite B4, B3.
    - rewrite back_at_put_back by done. by rewrite decide_True. }
  assert (∀ p, p ≠ x → back_at h5 p = back_at h2 p) as B5.
  { intros p Hp. unfold h5. destruct (decide (u 0 = hd)).
    - by rewrite B4, B3.
    - rewrite back_at_put_back by done. rewrite decide_False by done. by rewrite B4, B3. }
  assert (length h5 = S (length h)) as L5.
  { unfold h5. destruct (decide (u 0 = hd)); [|rewrite length_put_back]; lia. }
  (* the link of the new node at level 0 *)
  assert (link h (u 0) 0 = Some (p ← head lb; Some (p, 1%Z))) as Hlk0.
  { pose proof (Hcu 0 ltac:(unfold ZSKIPLIST_MAXLEVEL; lia)) as Hc.
    destruct lb as [|y lb'] eqn:Hlb; simpl in *; [done|].
    rewrite decide_True in Hc.
    - destruct Hc as [-> _]. do 3 f_equal. lia.
    - pose proof (Inv_hgt_pos _ _ HI) as Hp. simpl in Hp. rewrite Hl in Hp.
      apply Forall_app in Hp as [_ Hp]. by inversion Hp. }
  assert (∃ sx, slot_at h5 x 0 = Some sx ∧ forward sx = head lb) as (sx & Hsx & Hfx).
  { rewrite T5, T4'. specialize (Hu_lt 0).
    goal_decide. rewrite Hs2 by done.
    rewrite <- K1 in Hlk0. unfold link in Hlk0.
    destruct (slot_at h1 (u 0) 0) as [su|]; simpl in *; [|done].
    eexists. split; [done|]. simpl. injection Hlk0 as Hlk0.
    destruct (forward su), (head lb); simpl in *; congruence. }
  rewrite (load_level_Ok _ _ _ _ Hsx). simpl. rewrite Hfx.
  set (h6 := if head lb is Some y then put_back h5 y (Some x) else h5).
  set (tl' := if head lb is Some _ then tl else Some x).
  assert (∀ y, head lb = Some y → y < length h) as Hy_lt.
  { intros y Hy. apply Hlt. destruct lb; simplify_eq/=. set_solver. }
  exists h6, tl'.
  assert (∀ p j, slot_at h6 p j = slot_at h4 p j) as T6.
  { intros p j. unfold h6. destruct (head lb); [rewrite slot_at_put_back|]; apply T5. }
  assert (∀ p j, link h6 p j = link h4 p j) as K6.
  { intros p j. unfold link. by rewrite T6. }
  assert (∀ p j, p < length h → link h2 p j = link h p j) as K2.
  { intros p j Hp. rewrite <- K1. unfold link. by rewrite Hs2. }
  assert (∀ p, shape_at h6 p = shape_at h2 p) as S6.
  { intros p. unfold h6. destruct (head lb); [rewrite shape_at_put_back|];
      by rewrite S5, S4, S3. }
  split_and!.
  - unfold h6, tl'. destruct (head lb) as [y|] eqn:Hy; [|done].
    rewrite set_backward_Ok; [done|]. apply lookup_lt_is_Some.
    specialize (Hy_lt y eq_refl). lia.
  - unfold h6. destruct (head lb); [rewrite length_put_back|]; lia.
  - intros p Hp. rewrite S6. unfold h2. rewrite shape_at_alloc_old by lia. apply S1.
  - rewrite S6. unfold shape_at, h2. rewrite Hx, <- L1, lookup_alloc_new. simpl.
    by rewrite length_replicate.
  - intros i Hi. split.
    + rewrite K6. unfold link. rewrite T4'.
      goal_decide. simpl. do 3 f_equal. lia.
    + rewrite K6. rewrite <- K2 by done.
      eapply link_fmap; [|rewrite T4'; specialize (Hu_lt i);
        goal_decide; reflexivity].
      intros s. simpl. destruct (forward s); simpl; [|done]. do 2 f_equal. lia.
  - intros i Hi. rewrite K6. rewrite <- K2 by done.
    eapply link_fmap; [|rewrite T4';
      goal_decide; reflexivity].
    intros s. simpl. destruct (forward s); simpl; done.
  - intros i p Hp Hne. rewrite K6. rewrite <- K2 by lia. unfold link. rewrite T4'.
    goal_decide.
    all: exfalso; (lia || (apply Hne; [lia|done])).
  - unfold h6. destruct (head lb) as [y|] eqn:Hy; [|done].
    rewrite back_at_put_back.
    + rewrite decide_False; [done|].
      specialize (Hy_lt y eq_refl). lia.
    + apply lookup_lt_is_Some.
      specialize (Hy_lt y eq_refl). lia.
  - intros p Hp Hne. unfold h6. destruct (head lb) as [y|] eqn:Hy.
    + rewrite back_at_put_back.
      * rewrite decide_False by naive_solver. rewrite B5 by lia.
        unfold h2. rewrite back_at_alloc_old by lia. apply B1.
      * apply lookup_lt_is_Some.
        specialize (Hy_lt y eq_refl). lia.
    + rewrite B5 by lia. unfold h2. rewrite back_at_alloc_old by lia. apply B1.
  - intros y Hy. specialize (Hy_lt y Hy). unfold h6. rewrite Hy. rewrite back_at_put_back.
    + by rewrite decide_True.
    + apply lookup_lt_is_Some. lia.
  - done.
Qed.

End proofs7.
Section proofs8.
Context {E : Type} `{RankInterface E}.
Implicit Types (h : list (ZSkipListNode E)) (p q x u cur hd : ptr) (i j : nat).
Implicit Types (s : zskipListLevel) (n : ZSkipListNode E) (l : list ptr) (c k : Z).
Implicit Types (lp : list (ptr * (Z * E))).

(** ** Backward links *)

Lemma bchain_ext h h' prev l :
  (∀ p, p ∈ l → back_at h' p = back_at h p) → bchain h prev l → bchain h' prev l.
Proof.
  revert prev. induction l as [|p l IH]; intros prev Hb; simpl; [done|].
  intros [H1 H2]. split.
  - rewrite Hb; [done|set_solver].
  - apply IH; [|done]. intros q Hq. apply Hb. set_solver.
Qed.

Lemma bchain_insert h h' prev la lb x :
  NoDup (la ++ lb) →
  bchain h prev (la ++ lb) →
  back_at h' x = Some (if last la is Some p then Some p else prev) →
  (∀ y, head lb = Some y → back_at h' y = Some (Some x)) →
  (∀ p, p ∈ la ++ lb → head lb ≠ Some p → back_at h' p = back_at h p) →
  bchain h' prev (la ++ x :: lb).
Proof.
  revert prev. induction la as [|p la IH]; intros prev Hnd Hb Hx Hy Hrest; simpl in *.
  - split; [done|]. destruct lb as [|y lb]; simpl in *; [done|].
    destruct Hb as [_ Hb]. split; [by apply Hy|].
    apply NoDup_cons in Hnd as [Hy' _].
    eapply bchain_ext; [|done]. intros q Hq. apply Hrest; [set_solver|].
    intros [= ->]. done.
  - destruct Hb as [Hb1 Hb2]. apply NoDup_cons in Hnd as [Hp Hnd]. split.
    + rewrite Hrest; [done|set_solver|]. intros Hh.
      destruct lb as [|y lb]; simplify_eq/=. set_solver.
    + apply IH; [done|done| |done|].
      * rewrite Hx. rewrite last_cons. by destruct (last la).
      * intros q Hq. apply Hrest. set_solver.
Qed.

Lemma bchain_delete h h' prev la lb t :
  NoDup (la ++ t :: lb) →
  bchain h prev (la ++ t :: lb) →
  (∀ y, head lb = Some y → back_at h' y = back_at h t) →
  (∀ p, p ∈ la ++ lb → head lb ≠ Some p → back_at h' p = back_at h p) →
  bchain h' prev (la ++ lb).
Proof.
  revert prev. induction la as [|p la IH]; intros prev Hnd Hb Hy Hrest; simpl in *.
  - destruct Hb as [Hb1 Hb2]. destruct lb as [|y lb]; simpl in *; [done|].
    destruct Hb2 as [Hb2 Hb3]. split; [rewrite (Hy y); done|].
    apply NoDup_cons in Hnd as [_ Hnd]. apply NoDup_cons in Hnd as [Hy' _].
    eapply bchain_ext; [|done]. intros q Hq. apply Hrest; [set_solver|].
    intros [= ->]. done.
  - destruct Hb as [Hb1 Hb2]. apply NoDup_cons in Hnd as [Hp Hnd]. split.
    + rewrite Hrest; [done|set_solver|]. intros Hh.
      destruct lb as [|y lb]; simplify_eq/=. set_solver.
    + apply IH; [done|done|done|]. intros q Hq. apply Hrest. set_solver.
Qed.

(** The backward link of the node after position [length la]. *)
Lemma bchain_lookup h prev la t lb :
  bchain h prev (la ++ t :: lb) →
  back_at h t = Some (if last la is Some p then Some p else prev).
Proof.
  revert prev. induction la as [|p la IH]; intros prev; simpl.
  - by intros [? _].
  - intros [_ Hb]. rewrite (IH _ Hb). rewrite last_cons. by destruct (last la).
Qed.

Lemma sorted_insert (la lb : list (Z * Z)) (a : Z * Z) :
  StronglySorted key_lt (la ++ lb) →
  Forall (λ b, key_lt b a) la → Forall (λ b, key_lt a b) lb →
  StronglySorted key_lt (la ++ a :: lb).
Proof.
  rewrite !StronglySorted_app, StronglySorted_cons. intros (H1 & H2 & H3) Ha Hb.
  rewrite Forall_forall in Ha. split_and!; [|done|done|done].
  intros x1 x2 Hx1 Hx2. apply elem_of_cons in Hx2 as [->|Hx2]; [by apply Ha|by apply H1].
Qed.

Lemma sorted_delete (la lb : list (Z * Z)) (a : Z * Z) :
  StronglySorted key_lt (la ++ a :: lb) → StronglySorted key_lt (la ++ lb).
Proof.
  rewrite !StronglySorted_app, StronglySorted_cons. intros (H1 & H2 & H3 & H4).
  split_and!; [|done|done]. intros x1 x2 Hx1 Hx2. apply H1; [done|set_solver].
Qed.

Lemma hgt_shape h h' p : shape_at h' p = shape_at h p → hgt h' p = hgt h p.
Proof. unfold hgt. by intros ->. Qed.

Lemma entity_shape h h' p : shape_at h' p = shape_at h p → entity_at h' p = entity_at h p.
Proof. unfold entity_at. by intros ->. Qed.

(** ** Insert keeps the invariant *)

Lemma Insert_Inv fuel rnd score obj zsl lp lv rnd' :
  Inv zsl lp →
  key (score, obj) ∉ key <$> lp.*2 →
  length lp < fuel →
  randLevel rnd = Ok (lv, rnd') →
  ∃ zsl' lp1 lp2,
    Insert fuel rnd score obj zsl = Ok (zsl', length (zsl_heap zsl), rnd') ∧
    lp = lp1 ++ lp2 ∧
    Inv zsl' (lp1 ++ (length (zsl_heap zsl), (score, obj)) :: lp2).
Proof.
  intros HI Hfresh Hfuel Hrl. destruct zsl as [h hd tl len zl].
  destruct (sorted_split (λ a, key_lt a (key (score, obj))) lp) as (lp1 & lp2 & Hlp & H1 & H2).
  { intros a b Hab Hb. by eapply key_lt_trans. }
  { apply (inv_sorted _ _ HI). }
  destruct (Insert_run fuel rnd score obj h hd tl len zl lp lp1 lp2 lv rnd' HI Hlp H1 H2)
    as (h' & tl' & Hrun & L' & S' & Sx & Klo & Khi & Kother & Bx & Bother & By & Htl).
  { rewrite Hlp, length_app in Hfuel. lia. }
  { done. }
  pose proof (randLevel_range _ _ _ Hrl) as Hlv.
  pose proof (inv_level _ _ HI) as Hzl.
  pose proof (inv_nodup _ _ HI) as Hnd.
  pose proof (inv_chain _ _ HI) as Hchain.
  pose proof (Inv_hgt_le _ _ HI) as Hhle.
  simpl in Hzl, Hnd, Hchain, Hhle |- *.
  set (x := length h) in *. set (la := lp1.*1) in *. set (lb := lp2.*1) in *.
  assert (lp.*1 = la ++ lb) as Hl by (by rewrite Hlp, fmap_app).
  rewrite Hl in Hnd, Hhle.
  assert (∀ p, p ∈ hd :: la ++ lb → p < x) as Hlt.
  { intros p Hp. apply (Inv_ptr_lt _ _ p HI). simpl. by rewrite Hl. }
  assert (x ∉ hd :: la ++ lb) as Hxnot.
  { intros Hx. apply Hlt in Hx. lia. }
  assert (∀ p, p ∈ hd :: la ++ lb → hgt h' p = hgt h p) as Hhgt.
  { intros p Hp. apply hgt_shape, S'. by apply Hlt. }
  assert (hgt h' x = lv) as Hhx by (unfold hgt; by rewrite Sx).
  assert (Forall (λ pe, key_lt (key (score, obj)) (key pe.2)) lp2) as H2'.
  { rewrite Forall_forall. intros pe Hpe. rewrite Forall_forall in H2.
    destruct (key_trichotomy (key pe.2) (key (score, obj))) as [Hlt'|[Heq|Hgt]].
    - by apply H2 in Hlt'.
    - exfalso. apply Hfresh. rewrite <- Heq, Hlp.
      apply list_elem_of_fmap. exists pe.2. split; [done|].
      apply list_elem_of_fmap. exists pe. split; [done|]. set_solver.
    - done. }
  exists (mkZSkipList h' hd tl' (len + 1)%Z (zl `max` lv)), lp1, lp2.
  split; [done|]. split; [done|].
  assert ((lp1 ++ (x, (score, obj)) :: lp2).*1 = la ++ x :: lb) as Hl'.
  { by rewrite fmap_app, fmap_cons. }
  constructor; simpl; rewrite ?Hl'.
  - destruct (inv_head _ _ HI) as [sc Hsc]. simpl in Hsc. exists sc.
    rewrite S'; [done|]. apply Hlt. set_solver.
  - apply NoDup_cons in Hnd as [Hhd Hnd]. apply NoDup_app in Hnd as (Hn1 & Hn2 & Hn3).
    apply NoDup_cons. split; [set_solver|].
    apply NoDup_app. split_and!; [done| |].
    + intros p Hp. rewrite not_elem_of_cons. split; [|by apply Hn2].
      intros ->. set_solver.
    + apply NoDup_cons. split; [set_solver|done].
  - pose proof (inv_nodes _ _ HI) as Hnodes. simpl in Hnodes. rewrite Hlp in Hnodes.
    apply Forall_app in Hnodes as [Hn1 Hn2].
    assert (∀ pe, pe ∈ lp1 ++ lp2 → pe.1 < x) as Hpe.
    { intros pe Hpe. apply Hlt. right. rewrite <- Hl, Hlp.
      apply list_elem_of_fmap. by exists pe. }
    apply Forall_app. split; [|apply Forall_cons; split].
    + rewrite Forall_forall in Hn1. apply Forall_forall. intros pe Hin.
      destruct (Hn1 _ Hin) as [He Hh].
      rewrite (entity_shape h h'), (hgt_shape h h') by (apply S', Hpe; set_solver).
      split; [done|lia].
    + simpl. split; [|lia]. unfold entity_at. by rewrite Sx.
    + rewrite Forall_forall in Hn2. apply Forall_forall. intros pe Hin.
      destruct (Hn2 _ Hin) as [He Hh].
      rewrite (entity_shape h h'), (hgt_shape h h') by (apply S', Hpe; set_solver).
      split; [done|lia].
  - unfold ZSKIPLIST_MAXLEVEL in *. lia.
  - intros Htight. destruct (decide (zl ≤ lv)) as [Hcase|Hcase].
    + apply Exists_app. right. apply Exists_cons. left. simpl. lia.
    + pose proof (inv_tight _ _ HI ltac:(simpl; lia)) as Hex. simpl in Hex.
      rewrite Hlp in Hex. apply Exists_app in Hex.
      assert (∀ pe, pe ∈ lp1 ++ lp2 → hgt h' pe.1 = hgt h pe.1) as Hpe.
      { intros pe Hpe. apply Hhgt. right. rewrite <- Hl, Hlp.
        apply list_elem_of_fmap. by exists pe. }
      apply Exists_app. destruct Hex as [Hex|Hex]; [left|right; apply Exists_cons; right].
      * rewrite Exists_exists in Hex |- *. destruct Hex as (pe & Hin & Hh).
        exists pe. split; [done|]. rewrite Hpe by set_solver. lia.
      * rewrite Exists_exists in Hex |- *. destruct Hex as (pe & Hin & Hh).
        exists pe. split; [done|]. rewrite Hpe by set_solver. lia.
  - pose proof (inv_length _ _ HI) as Hlen. simpl in Hlen.
    rewrite Hlen, Hlp, !length_app. simpl. lia.
  - pose proof (inv_sorted _ _ HI) as Hs. rewrite Hlp in Hs.
    rewrite !fmap_app in Hs. rewrite !fmap_app, !fmap_cons.
    apply sorted_insert; [done| |].
    + by rewrite !Forall_fmap.
    + by rewrite !Forall_fmap.
  - intros i Hi. specialize (Hchain i Hi). rewrite Hl in Hchain.
    destruct (decide (i < lv)) as [Hlo|Hlo]; [|destruct (decide (i < zl `max` lv)) as [Hmid|Hmid]].
    + destruct (Klo i Hlo) as [Ku Kx].
      eapply (chain_insert h h' i x hd 0 1 la lb); [done|done|apply surjective_pairing| | | | |].
      * intros p Hp. apply Hhgt. set_solver.
      * lia.
      * exact Ku.
      * rewrite Kx. f_equal. f_equal. lia.
      * intros p Hp Hne. apply Kother; [by apply Hlt|done].
    + eapply (chain_insert_above h h' i x hd 0 1 la lb); [done|done|apply surjective_pairing| | | |].
      * intros p Hp. apply Hhgt. set_solver.
      * lia.
      * apply Khi. lia.
      * intros p Hp Hne. apply Kother; [by apply Hlt|done].
    + assert (Forall (λ p, hgt h p ≤ i) (la ++ lb)) as Hall.
      { eapply Forall_impl; [exact Hhle|]. simpl. lia. }
      apply chain_nil_iff in Hchain; [|done].
      apply chain_nil_iff.
      * apply Forall_app in Hall as [Ha Hb]. apply Forall_app. split; [|apply Forall_cons; split].
        -- rewrite Forall_forall in Ha |- *. intros p Hp. rewrite Hhgt by set_solver. eauto.
        -- lia.
        -- rewrite Forall_forall in Hb |- *. intros p Hp. rewrite Hhgt by set_solver. eauto.
      * rewrite Kother; [done|apply Hlt; set_solver|lia].
  - apply NoDup_cons in Hnd as [_ Hnd].
    pose proof (inv_back _ _ HI) as Hb. simpl in Hb. rewrite Hl in Hb.
    apply (bchain_insert h h' None la lb x); [done|done| |done|].
    + rewrite Bx. by destruct (last la).
    + intros p Hp Hne. apply Bother; [|done]. apply Hlt. set_solver.
  - rewrite Htl. rewrite last_app_cons. fold lb.
    pose proof (inv_tail _ _ HI) as Ht. simpl in Ht. rewrite Hl, last_app in Ht.
    destruct lb as [|y lb']; simpl; [done|].
    rewrite Ht. rewrite last_cons. by destruct (last lb').
Qed.

End proofs8.
Section proofs9.
Context {E : Type} `{RankInterface E}.
Implicit Types (h : list (ZSkipListNode E)) (p q x u cur hd : ptr) (i j : nat).
Implicit Types (s : zskipListLevel) (n : ZSkipListNode E) (l : list ptr) (c k : Z).
Implicit Types (lp : list (ptr * (Z * E))).

Lemma chain_nil_all h i cur c k l :
  chain h i cur c k l → link h cur i = Some None → Forall (λ p, hgt h p ≤ i) l.
Proof.
  revert k. induction l as [|p l IH]; intros k; simpl; [by constructor|].
  case_decide.
  - intros [-> _]. done.
  - intros Hc Hl. constructor; [lia|]. by eapply IH.
Qed.

(** ** The level of the list after a deletion *)

Lemma deleteNode_shrink_spec h hd lvl l :
  (∀ i, i < lvl → chain h i hd 0 1 l) →
  Forall (λ p, hgt h p ≤ lvl) l →
  1 ≤ lvl →
  ∃ lvl', deleteNode_shrink h hd lvl = Ok lvl' ∧ 1 ≤ lvl' ≤ lvl ∧
          Forall (λ p, hgt h p ≤ lvl') l ∧
          (1 < lvl' → Exists (λ p, hgt h p = lvl') l).
Proof.
  induction lvl as [|lvl IH]; intros Hc Hh Hl; [lia|].
  destruct lvl as [|lvl].
  - exists 1. simpl. split_and!; [done|lia|lia|done|lia].
  - simpl. pose proof (Hc (S lvl) ltac:(lia)) as Hc1.
    destruct (chain_link_is_Some _ _ _ _ _ _ Hc1) as [[[q d]|] Hlk].
    + apply link_Some_inv in Hlk as Hs. destruct Hs as (s & Hs1 & Hs2 & Hs3).
      rewrite (load_level_Ok _ _ _ _ Hs1). simpl. rewrite Hs2.
      exists (S (S lvl)). split_and!; [done|lia|lia|done|].
      intros _. destruct (chain_link_in _ _ _ _ _ _ _ _ Hc1 Hlk) as [Hq1 Hq2].
      apply Exists_exists. exists q. split; [done|].
      rewrite Forall_forall in Hh. specialize (Hh _ Hq1). lia.
    + apply link_None_inv in Hlk as Hs. destruct Hs as (s & Hs1 & Hs2).
      rewrite (load_level_Ok _ _ _ _ Hs1). simpl. rewrite Hs2.
      destruct IH as (lvl' & Hr & Hb & Hf & He).
      * intros i Hi. apply Hc. lia.
      * by eapply chain_nil_all.
      * lia.
      * exists lvl'. split_and!; [done|lia|lia|done|done].
Qed.

Lemma deleteNode_shrink_total h hd lvl :
  (∀ i, i < lvl → is_Some (slot_at h hd i)) →
  ∃ lvl', deleteNode_shrink h hd lvl = Ok lvl'.
Proof.
  induction lvl as [|lvl IH]; intros Hs; [by eexists|].
  destruct lvl as [|lvl]; [by eexists|]. simpl.
  destruct (Hs (S lvl) ltac:(lia)) as [s Hs1].
  rewrite (load_level_Ok _ _ _ _ Hs1). simpl.
  destruct (forward s); [by eexists|]. apply IH. intros i Hi. apply Hs. lia.
Qed.

(** ** deleteNode: what a run does to the heap *)

Lemma deleteNode_run h hd tl len zl lp lp1 t se lp2 (update : list (option ptr)) :
  Inv (mkZSkipList h hd tl len zl) lp → lp = lp1 ++ (t, se) :: lp2 →
  let la := lp1.*1 in
  let lb := lp2.*1 in
  let u := λ i, (seek h i hd 0 1 la).1 in
  let cu := λ i, (seek h i hd 0 1 la).2 in
  (∀ i, i < zl → update !! i = Some (Some (u i))) →
  ∃ h' tl' zl',
    deleteNode (mkZSkipList h hd tl len zl) t update =
      Ok (mkZSkipList h' hd tl' (len - 1)%Z zl') ∧
    length h' = length h ∧
    (∀ p, shape_at h' p = shape_at h p) ∧
    (∀ i, i < zl →
       link h' (u i) i =
       if decide (i < hgt h t)
       then shift_link (1 + length la - cu i - 1)%Z <$> link h t i
       else shift_link (-1)%Z <$> link h (u i) i) ∧
    (∀ i p, (i < zl → p ≠ u i) → link h' p i = link h p i) ∧
    (∀ y, head lb = Some y → back_at h' y = back_at h t) ∧
    (∀ p, head lb ≠ Some p → back_at h' p = back_at h p) ∧
    tl' = (if head lb is Some _ then tl else last la) ∧
    deleteNode_shrink h' hd zl = Ok zl'.
Proof.
  intros HI Hlp la lb u cu Hupd.
  set (zsl := mkZSkipList h hd tl len zl) in HI.
  pose proof (inv_level _ _ HI) as Hzl. simpl in Hzl.
  pose proof (inv_nodup _ _ HI) as Hnd. simpl in Hnd.
  assert (lp.*1 = la ++ t :: lb) as Hl by (by rewrite Hlp, fmap_app, fmap_cons).
  rewrite Hl in Hnd.
  assert (∀ p, p ∈ hd :: la ++ t :: lb → p < length h) as Hlt.
  { intros p Hp. apply (Inv_ptr_lt zsl lp p HI). simpl. by rewrite Hl. }
  assert (∀ i, u i ∈ hd :: la) as Hu_in.
  { intros i. by apply (seek_Inv_elem zsl lp la (t :: lb) i HI). }
  assert (∀ i, u i ≠ t) as Hut.
  { intros i Heq. specialize (Hu_in i). rewrite Heq in Hu_in.
    apply NoDup_cons in Hnd as [Hhd Hnd]. apply NoDup_app in Hnd as (_ & Hn2 & _).
    apply elem_of_cons in Hu_in as [->|Hin]; [set_solver|].
    apply (Hn2 _ Hin). set_solver. }
  assert (∀ i, i < ZSKIPLIST_MAXLEVEL →
            chain h i (u i) (cu i) (1 + length la)%Z (t :: lb)) as Hcu.
  { intros i Hi. by apply (Inv_seek_link zsl lp la (t :: lb) i HI). }
  assert (∀ i, i < ZSKIPLIST_MAXLEVEL → ∃ su, slot_at h (u i) i = Some su ∧
            (forward su = Some t ↔ i < hgt h t) ∧
            (i < hgt h t → span su = (1 + length la - cu i)%Z)) as Hsu.
  { intros i Hi. pose proof (Hcu i Hi) as Hc.
    destruct (chain_link_is_Some _ _ _ _ _ _ Hc) as [o Ho].
    pose proof Hc as Hc'. simpl in Hc'. destruct (decide (i < hgt h t)) as [Hq|Hq].
    - destruct Hc' as [Hlk _]. apply link_Some_inv in Hlk as (su & Hs1 & Hs2 & Hs3).
      exists su. split_and!; [done|done|done].
    - destruct o as [[q d]|].
      + apply link_Some_inv in Ho as Hs. destruct Hs as (su & Hs1 & Hs2 & Hs3).
        exists su. split_and!; [done| |lia]. split; [|done]. intros Hf.
        destruct (chain_link_in _ _ _ _ _ _ _ _ Hc' Ho) as [Hq1 Hq2].
        assert (q = t) as -> by congruence.
        apply NoDup_cons in Hnd as [_ Hnd]. apply NoDup_app in Hnd as (_ & _ & Hn3).
        apply NoDup_cons in Hn3 as [Hn3 _]. done.
      + apply link_None_inv in Ho as (su & Hs1 & Hs2).
        exists su. split_and!; [done| |lia]. split; [congruence|done]. }
  (* unlinking the node at every level *)
  destruct (for_up_levels (deleteNode_unlink t update)
    (λ i p, if decide (p = u i) then
              su ← slot_at h (u i) i;
              if decide (forward su = Some t)
              then (λ st, mkLevel (forward st) (span su + (span st - 1))%Z) <$> slot_at h t i
              else Some (mkLevel (forward su) (span su - 1)%Z)
            else slot_at h p i) h zl 0)
    as (h1 & Hunlink & L1 & S1 & B1 & T1).
  { intros i hc Hi Hlen Hsh Hsl.
    destruct (Hsu i ltac:(lia)) as (su & Hsu1 & Hsu2 & Hsu3).
    destruct (deleteNode_unlink_spec t update i hc (u i) su) as (h' & Hb & Hsame & Hslots).
    - apply Hupd. lia.
    - by rewrite Hsl.
    - apply Hut.
    - intros Hf. rewrite Hsl. apply hgt_slot_at. by apply Hsu2.
    - exists h'. split_and!; [done|done|].
      intros p. rewrite Hslots, !Hsl, Hsu1. done. }
  unfold deleteNode. cbn [zsl_heap zsl_head zsl_level zsl_length zsl_tail].
  rewrite Hunlink. simpl.
  (* the backward link of the next node *)
  assert (0 < hgt h t) as Hht.
  { pose proof (Inv_hgt_pos _ _ HI) as Hp. simpl in Hp. rewrite Hl in Hp.
    apply Forall_app in Hp as [_ Hp]. by inversion Hp. }
  assert (link h t 0 = Some (p ← head lb; Some (p, 1%Z))) as Hlk0.
  { pose proof (inv_chain _ _ HI 0 ltac:(unfold ZSKIPLIST_MAXLEVEL; lia)) as Hc.
    simpl in Hc. rewrite Hl in Hc. apply chain_app in Hc. simpl in Hc.
    rewrite decide_True in Hc by done. destruct Hc as [_ Hc].
    destruct lb as [|y lb'] eqn:Hlb; simpl in *; [done|].
    rewrite decide_True in Hc.
    - destruct Hc as [-> _]. do 3 f_equal. lia.
    - pose proof (Inv_hgt_pos _ _ HI) as Hp. simpl in Hp. rewrite Hl in Hp.
      apply Forall_app in Hp as [_ Hp]. inversion Hp as [|?? _ Hp']. by inversion Hp'. }
  assert (∃ sx, slot_at h1 t 0 = Some sx ∧ forward sx = head lb) as (sx & Hsx & Hfx).
  { rewrite T1. rewrite decide_True by lia.
    rewrite decide_False by (intros Heq; by apply (Hut 0)).
    unfold link in Hlk0. destruct (slot_at h t 0) as [st|]; simpl in *; [|done].
    eexists. split; [done|]. injection Hlk0 as Hlk0.
    destruct (forward st), (head lb); simpl in *; congruence. }
  rewrite (load_level_Ok _ _ _ _ Hsx). simpl.
  assert (t < length h) as Htlt by (apply Hlt; set_solver).
  destruct (lookup_lt_is_Some_2 h1 t ltac:(lia)) as [nt Hnt].
  rewrite (load_Ok _ _ _ Hnt). simpl. rewrite Hfx.
  assert (back_at h t = Some (backward nt)) as Hbt.
  { rewrite <- B1. unfold back_at. by rewrite Hnt. }
  assert (backward nt = last la) as Hbnt.
  { pose proof (inv_back _ _ HI) as Hb. simpl in Hb. rewrite Hl in Hb.
    apply bchain_lookup in Hb. rewrite Hb in Hbt. injection Hbt as <-.
    by destruct (last la). }
  assert (∀ y, head lb = Some y → y < length h) as Hy_lt.
  { intros y Hy. apply Hlt. destruct lb; simplify_eq/=. set_solver. }
  set (h2 := if head lb is Some y then put_back h1 y (backward nt) else h1).
  set (tl' := if head lb is Some _ then tl else last la).
  assert (∀ p j, slot_at h2 p j = slot_at h1 p j) as T2.
  { intros p j. unfold h2. destruct (head lb); [apply slot_at_put_back|done]. }
  assert (∀ p, shape_at h2 p = shape_at h p) as S2.
  { intros p. unfold h2. destruct (head lb); [rewrite shape_at_put_back|]; apply S1. }
  assert (length h2 = length h) as L2.
  { unfold h2. destruct (head lb); [rewrite length_put_back|]; done. }
  (* the level *)
  destruct (deleteNode_shrink_total h2 hd zl) as [zl' Hshrink].
  { intros i Hi. apply hgt_slot_at. unfold hgt. rewrite S2.
    destruct (inv_head _ _ HI) as [sc Hsc]. simpl in Hsc. rewrite Hsc. simpl. lia. }
  exists h2, tl', zl'. split_and!.
  - unfold h2, tl'. destruct (head lb) as [y|] eqn:Hy; simpl.
    + rewrite set_backward_Ok by (apply lookup_lt_is_Some; specialize (Hy_lt y eq_refl); lia).
      simpl. unfold h2 in Hshrink. rewrite Hshrink. done.
    + unfold h2 in Hshrink. rewrite Hshrink. simpl. by rewrite Hbnt.
  - done.
  - done.
  - intros i Hi. destruct (Hsu i ltac:(lia)) as (su & Hsu1 & Hsu2 & Hsu3).
    assert (slot_at h2 (u i) i =
            if decide (forward su = Some t)
            then (λ st, mkLevel (forward st) (span su + (span st - 1))%Z) <$> slot_at h t i
            else Some (mkLevel (forward su) (span su - 1)%Z)) as Hslot.
    { rewrite T2, T1. rewrite decide_True by lia. rewrite decide_True by done.
      rewrite Hsu1. done. }
    destruct (decide (i < hgt h t)) as [Hq|Hq].
    + rewrite decide_True in Hslot by (by apply Hsu2).
      eapply link_fmap; [|exact Hslot].
      intros s. simpl. destruct (forward s); simpl; [|done]. do 2 f_equal.
      rewrite Hsu3 by done. lia.
    + rewrite decide_False in Hslot by (by rewrite Hsu2).
      unfold link. rewrite Hslot, Hsu1. simpl. destruct (forward su); simpl; done.
  - intros i p Hne. unfold link. rewrite T2, T1.
    destruct (decide (0 ≤ i < 0 + zl)) as [Hi|Hi]; [|done].
    rewrite decide_False; [done|]. apply Hne. lia.
  - intros y Hy. unfold h2. rewrite Hy. rewrite back_at_put_back.
    + by rewrite decide_True.
    + apply lookup_lt_is_Some. specialize (Hy_lt y Hy). lia.
  - intros p Hne. unfold h2. destruct (head lb) as [y|] eqn:Hy; [|apply B1].
    rewrite back_at_put_back.
    + rewrite decide_False by naive_solver. apply B1.
    + apply lookup_lt_is_Some. specialize (Hy_lt y eq_refl). lia.
  - done.
  - done.
Qed.

End proofs9.
Section proofs10.
Context {E : Type} `{RankInterface E}.
Implicit Types (h : list (ZSkipListNode E)) (p q x u cur hd : ptr) (i j : nat).
Implicit Types (s : zskipListLevel) (n : ZSkipListNode E) (l : list ptr) (c k : Z).
Implicit Types (lp : list (ptr * (Z * E))).

Lemma absent_split lp1 lp2 (K : Z * Z) :
  StronglySorted key_lt (key <$> (lp1 ++ lp2).*2) →
  Forall (λ pe, key_lt (key pe.2) K) lp1 →
  (∀ pe, head lp2 = Some pe → key_lt K (key pe.2)) →
  K ∉ key <$> (lp1 ++ lp2).*2.
Proof.
  intros Hs H1 H2 Hin.
  apply list_elem_of_fmap in Hin as (se & -> & Hin).
  apply list_elem_of_fmap in Hin as (pe & -> & Hin).
  apply elem_of_app in Hin as [Hin|Hin].
  - rewrite Forall_forall in H1. apply H1 in Hin. by apply key_lt_irrefl in Hin.
  - destruct lp2 as [|pe0 lp2]; [set_solver|].
    specialize (H2 pe0 eq_refl).
    rewrite !fmap_app in Hs. apply StronglySorted_app_1_r in Hs.
    rewrite !fmap_cons in Hs. apply StronglySorted_cons in Hs as [Hall _].
    apply elem_of_cons in Hin as [->|Hin]; [by apply key_lt_irrefl in H2|].
    rewrite !Forall_fmap, Forall_forall in Hall. specialize (Hall _ Hin). simpl in Hall.
    eapply key_lt_irrefl, key_lt_trans; [exact H2|exact Hall].
Qed.

(** ** Delete: not found, or found and the invariant kept *)

Lemma Delete_spec fuel score obj zsl lp :
  Inv zsl lp → length lp < fuel →
  ((key (score, obj) ∉ key <$> lp.*2) ∧ Delete fuel score obj zsl = Ok (zsl, None)) ∨
  (∃ lp1 t e lp2 zsl',
     lp = lp1 ++ (t, (score, e)) :: lp2 ∧ Uuid e = Uuid obj ∧
     Delete fuel score obj zsl = Ok (zsl', Some t) ∧ Inv zsl' (lp1 ++ lp2)).
Proof.
  intros HI Hfuel. destruct zsl as [h hd tl len zl].
  set (zsl := mkZSkipList h hd tl len zl) in *.
  destruct (sorted_split (λ a, key_lt a (key (score, obj))) lp) as (lp1 & lp2 & Hlp & H1 & H2).
  { intros a b Hab Hb. by eapply key_lt_trans. }
  { apply (inv_sorted _ _ HI). }
  pose proof (inv_level _ _ HI) as Hzl. simpl in Hzl.
  pose proof (inv_sorted _ _ HI) as Hsorted. rewrite Hlp in Hsorted.
  set (la := lp1.*1). set (lb := lp2.*1).
  set (u := λ i, (seek h i hd 0 1 la).1). set (cu := λ i, (seek h i hd 0 1 la).2).
  assert (lp.*1 = la ++ lb) as Hl by (by rewrite Hlp, fmap_app).
  assert (∀ i, i < ZSKIPLIST_MAXLEVEL → chain h i (u i) (cu i) (1 + length la)%Z lb) as Hcu.
  { intros i Hi. by apply (Inv_seek_link zsl lp la lb i HI). }
  destruct (Delete_search_spec fuel h score obj hd la lb zl hd (replicate ZSKIPLIST_MAXLEVEL None))
    as (update & Hsearch & Lu & Hlo & Hhi).
  { intros i Hi. rewrite <- Hl. apply (inv_chain _ _ HI). lia. }
  { intros off. unfold la, lb. rewrite length_fmap, <- fmap_app.
    apply (splits_keys _ (λ a, key_lt a (key (score, obj))));
      [|rewrite <- Hlp; apply (Inv_entities _ _ HI)|done|done].
    intros n e r s He. by apply cond_lt_spec. }
  { unfold la. rewrite length_fmap. rewrite Hlp, length_app in Hfuel. lia. }
  { rewrite length_replicate. lia. }
  { pose proof (Inv_seek_top zsl lp la zl HI) as Ht. simpl in Ht. rewrite Ht; [done| |done].
    by exists lb. }
  unfold Delete. subst zsl. cbn [zsl_heap zsl_head zsl_level zsl_length zsl_tail] in *.
  rewrite Hsearch. simpl.
  fold (u 0).
  assert (link h (u 0) 0 = Some (p ← head lb; Some (p, 1%Z))) as Hlk0.
  { pose proof (Hcu 0 ltac:(unfold ZSKIPLIST_MAXLEVEL; lia)) as Hc.
    assert (cu 0 = length la) as Hc0.
    { unfold cu. rewrite seek0.
      - simpl. destruct la; simpl; lia.
      - pose proof (Inv_hgt_pos _ _ HI) as Hp. simpl in Hp. rewrite Hl in Hp.
        by apply Forall_app in Hp as [Hp _]. }
    destruct lb as [|y lb'] eqn:Hlb; simpl in *; [done|].
    rewrite decide_True in Hc.
    - destruct Hc as [-> _]. do 3 f_equal. lia.
    - pose proof (Inv_hgt_pos _ _ HI) as Hp. simpl in Hp. rewrite Hl in Hp.
      apply Forall_app in Hp as [_ Hp]. by inversion Hp. }
  assert (∃ sx, slot_at h (u 0) 0 = Some sx ∧ forward sx = head lb) as (sx & Hsx & Hfx).
  { unfold link in Hlk0. destruct (slot_at h (u 0) 0) as [su|]; simpl in *; [|done].
    eexists. split; [done|]. injection Hlk0 as Hlk0.
    destruct (forward su), (head lb); simpl in *; congruence. }
  rewrite (load_level_Ok _ _ _ _ Hsx). simpl. rewrite Hfx.
  destruct lp2 as [|[t se] lp2'] eqn:Hlp2; simpl.
  { left. split; [|done]. rewrite Hlp. apply absent_split; [done|done|done]. }
  pose proof (Inv_entities _ _ HI) as Hents. rewrite Hlp in Hents.
  apply Forall_app in Hents as [_ Hents]. apply Forall_cons in Hents as [Hent _].
  simpl in Hent. apply entity_at_inv in Hent as (nt & Hnt & Hobj & Hsc).
  rewrite (load_Ok _ _ _ Hnt). simpl. rewrite Hobj.
  apply Forall_cons in H2 as [H2 H2'].
  assert (key se ≠ key (score, obj) → key_lt (key (score, obj)) (key se)) as Hgt.
  { intros Hne. destruct (key_trichotomy (key se) (key (score, obj))) as [?|[?|?]]; done. }
  destruct (Z.eqb_spec score (Score nt)) as [Hscore|Hscore]; cycle 1.
  { left. split; [|done]. rewrite Hlp. apply absent_split; [done|done|].
    intros pe [= <-]. apply Hgt. unfold key. simpl. intros [= ? _]. congruence. }
  destruct (Z.eqb_spec (Uuid se.2) (Uuid obj)) as [Huuid|Huuid]; cycle 1.
  { left. split; [|done]. rewrite Hlp. apply absent_split; [done|done|].
    intros pe [= <-]. apply Hgt. unfold key. simpl. intros [= _ ?]. congruence. }
  right. destruct se as [sc e]. simpl in *. subst sc.
  destruct (deleteNode_run h hd tl len zl lp lp1 t (Score nt, e) lp2' update HI)
    as (h' & tl' & zl' & Hrun & L' & S' & Ku & Kother & By & Bother & Htl & Hshrink).
  { by rewrite Hlp. }
  { intros i Hi. apply Hlo. done. }
  rewrite Hrun. simpl.
  exists lp1, t, e, lp2', (mkZSkipList h' hd tl' (len - 1)%Z zl').
  rewrite Hscore. split; [done|]. split; [done|]. split; [done|].
  fold la in Ku, Htl. set (lb' := lp2'.*1) in *.
  pose proof (inv_nodup _ _ HI) as Hnd. simpl in Hnd. rewrite Hl in Hnd. simpl in Hnd.
  pose proof (Inv_hgt_le _ _ HI) as Hhle. simpl in Hhle. rewrite Hl in Hhle.
  assert (∀ p, hgt h' p = hgt h p) as Hhgt by (intros p; apply hgt_shape, S').
  assert ((lp1 ++ lp2').*1 = la ++ lb') as Hl' by (by rewrite fmap_app).
  assert (NoDup (hd :: la ++ lb')) as Hnd'.
  { apply NoDup_cons in Hnd as [Hhd Hnd]. apply NoDup_app in Hnd as (Hn1 & Hn2 & Hn3).
    apply NoDup_cons in Hn3 as [Hn3 Hn4].
    apply NoDup_cons. split; [set_solver|]. apply NoDup_app. split_and!; [done| |done].
    intros p Hp Hp'. apply (Hn2 p Hp). set_solver. }
  assert (∀ i, i < ZSKIPLIST_MAXLEVEL → chain h' i hd 0 1 (la ++ lb')) as Hchain'.
  { intros i Hi. pose proof (inv_chain _ _ HI i Hi) as Hc. simpl in Hc. rewrite Hl in Hc.
    destruct (decide (i < zl)) as [Hlo'|Hhi'].
    - eapply (chain_delete h h' i t hd 0 1 la lb'); [done|done|apply surjective_pairing| | |].
      + intros p _. apply Hhgt.
      + rewrite (Ku i Hlo'). destruct (decide (i < hgt h t)); done.
      + intros p _ Hne. by apply Kother.
    - assert (Forall (λ p, hgt h p ≤ i) (la ++ t :: lb')) as Hall.
      { eapply Forall_impl; [exact Hhle|]. simpl. lia. }
      apply chain_nil_iff in Hc; [|done]. apply chain_nil_iff.
      + apply Forall_app in Hall as [Ha Hb]. apply Forall_cons in Hb as [_ Hb].
        apply Forall_app. split; (eapply Forall_impl; [done|]); simpl; intros p; by rewrite Hhgt.
      + rewrite Kother; [done|lia]. }
  destruct (deleteNode_shrink_spec h' hd zl (la ++ lb')) as (zl'' & Hshrink' & Hb & Hf & He).
  { intros i Hi. apply Hchain'. lia. }
  { apply Forall_app in Hhle as [Ha Hb]. apply Forall_cons in Hb as [_ Hb].
    apply Forall_app. split; (eapply Forall_impl; [done|]); simpl; intros p; by rewrite Hhgt. }
  { lia. }
  assert (zl'' = zl') as -> by congruence.
  pose proof (inv_nodes _ _ HI) as Hnodes. simpl in Hnodes. rewrite Hlp in Hnodes.
  apply Forall_app in Hnodes as [Hn1 Hn2]. apply Forall_cons in Hn2 as [_ Hn2].
  constructor; simpl; rewrite ?Hl'.
  - destruct (inv_head _ _ HI) as [sc Hsc]. simpl in Hsc. exists sc. by rewrite S'.
  - done.
  - rewrite <- Hl', Forall_fmap in Hf.
    apply Forall_app in Hf as [Hf1 Hf2].
    apply Forall_app. split.
    + rewrite Forall_forall in Hn1, Hf1 |- *. intros pe Hin.
      destruct (Hn1 _ Hin) as [He' Hh]. specialize (Hf1 _ Hin). simpl in Hf1.
      rewrite (entity_shape h h') by apply S'. rewrite Hhgt in Hf1 |- *. split; [done|lia].
    + rewrite Forall_forall in Hn2, Hf2 |- *. intros pe Hin.
      destruct (Hn2 _ Hin) as [He' Hh]. specialize (Hf2 _ Hin). simpl in Hf2.
      rewrite (entity_shape h h') by apply S'. rewrite Hhgt in Hf2 |- *. split; [done|lia].
  - lia.
  - intros Ht. specialize (He Ht). rewrite <- Hl' in He. by rewrite Exists_fmap in He.
  - pose proof (inv_length _ _ HI) as Hlen. simpl in Hlen.
    rewrite Hlen, Hlp, !length_app. simpl. lia.
  - rewrite !fmap_app, !fmap_cons in Hsorted. rewrite !fmap_app.
    by eapply sorted_delete.
  - exact Hchain'.
  - apply NoDup_cons in Hnd as [_ Hnd].
    pose proof (inv_back _ _ HI) as Hback. simpl in Hback. rewrite Hl in Hback.
    apply (bchain_delete h h' None la lb' t); [done|done|done|].
    intros p _ Hne. by apply Bother.
  - rewrite Htl. pose proof (inv_tail _ _ HI) as Ht. simpl in Ht. rewrite Hl in Ht.
    change (la ++ lb) with (la ++ t :: lb') in Ht.
    rewrite last_app. rewrite last_app, last_cons in Ht.
    destruct lb' as [|y lb'']; simpl; [done|]. simpl in Ht.
    rewrite Ht. destruct (last (y :: lb'')) eqn:Hlast; [done|].
    by apply last_None in Hlast.
Qed.

End proofs10.
Section proofs11.
Context {E : Type} `{RankInterface E}.
Implicit Types (h : list (ZSkipListNode E)) (p q x u cur hd : ptr) (i j : nat).
Implicit Types (s : zskipListLevel) (n : ZSkipListNode E) (l : list ptr) (c k : Z).
Implicit Types (lp : list (ptr * (Z * E))) (zsl : ZSkipList E).
Implicit Types (cond : Z → zskipListLevel → ZSkipListNode E → result bool).

(** ** More fuel does not change a result *)

Lemma bind_Ok {A B} (m : result A) (f : A → result B) b :
  m ≫= f = Ok b → ∃ a, m = Ok a ∧ f a = Ok b.
Proof. destruct m as [a| |]; simpl; [|done|done]. intros Hf. by exists a. Qed.

Lemma advance_mono cond fuel fuel' h i x r v :
  advance cond fuel h i x r = Ok v → fuel ≤ fuel' → advance cond fuel' h i x r = Ok v.
Proof.
  revert fuel' x r. induction fuel as [|fuel IH]; intros fuel' x r; simpl; [done|].
  intros Ha Hle. destruct fuel' as [|fuel']; [lia|]. simpl.
  destruct (load_level h x i) as [s| |]; simpl in *; [|done|done].
  destruct (forward s) as [y|]; [|done].
  destruct (load h y) as [f| |]; simpl in *; [|done|done].
  destruct (cond r s f) as [[|]| |]; simpl in *; [|done|done|done].
  apply IH; [done|lia].
Qed.

Lemma Insert_search_mono fuel fuel' h score obj top nl x (update : list (option ptr))
    (rank : list Z) v :
  Insert_search fuel h score obj top nl x update rank = Ok v → fuel ≤ fuel' →
  Insert_search fuel' h score obj top nl x update rank = Ok v.
Proof.
  intros Hs Hle. revert x update rank Hs.
  induction nl as [|i IH]; intros x update rank; simpl; [done|].
  intros Hs. apply bind_Ok in Hs as (rank1 & -> & Hs). simpl.
  apply bind_Ok in Hs as (r0 & -> & Hs). simpl.
  apply bind_Ok in Hs as ([x' r'] & Ha & Hs).
  rewrite (advance_mono _ _ _ _ _ _ _ _ Ha Hle). simpl.
  apply bind_Ok in Hs as (rank2 & -> & Hs). simpl.
  apply bind_Ok in Hs as (update' & -> & Hs). simpl. by apply IH.
Qed.

Lemma Delete_search_mono fuel fuel' h score obj nl x (update : list (option ptr)) v :
  Delete_search fuel h score obj nl x update = Ok v → fuel ≤ fuel' →
  Delete_search fuel' h score obj nl x update = Ok v.
Proof.
  intros Hs Hle. revert x update Hs.
  induction nl as [|i IH]; intros x update; simpl; [done|].
  intros Hs. apply bind_Ok in Hs as ([x' r'] & Ha & Hs).
  rewrite (advance_mono _ _ _ _ _ _ _ _ Ha Hle). simpl.
  apply bind_Ok in Hs as (update' & -> & Hs). simpl. by apply IH.
Qed.

Lemma Insert_mono fuel fuel' rnd score obj zsl v :
  Insert fuel rnd score obj zsl = Ok v → fuel ≤ fuel' →
  Insert fuel' rnd score obj zsl = Ok v.
Proof.
  unfold Insert. intros Hi Hle. apply bind_Ok in Hi as ([update rank] & Hs & Hi).
  by rewrite (Insert_search_mono _ _ _ _ _ _ _ _ _ _ _ Hs Hle).
Qed.

Lemma Delete_mono fuel fuel' score obj zsl v :
  Delete fuel score obj zsl = Ok v → fuel ≤ fuel' →
  Delete fuel' score obj zsl = Ok v.
Proof.
  unfold Delete. intros Hd Hle. apply bind_Ok in Hd as ([x update] & Hs & Hd).
  by rewrite (Delete_search_mono _ _ _ _ _ _ _ _ _ Hs Hle).
Qed.

Lemma Insert_Ok_randLevel fuel rnd score obj zsl zsl' x rnd' :
  Insert fuel rnd score obj zsl = Ok (zsl', x, rnd') →
  ∃ lv, randLevel rnd = Ok (lv, rnd').
Proof.
  unfold Insert. intros Hi. apply bind_Ok in Hi as ([update rank] & Hs & Hi).
  apply bind_Ok in Hi as ([lv rnd''] & Hr & Hi). exists lv. rewrite Hr.
  apply bind_Ok in Hi as ([[h1 update1] rank1] & _ & Hi).
  apply bind_Ok in Hi as (h3 & _ & Hi).
  apply bind_Ok in Hi as (h4 & _ & Hi).
  apply bind_Ok in Hi as (u0 & _ & Hi).
  apply bind_Ok in Hi as (h5 & _ & Hi).
  apply bind_Ok in Hi as (sx & _ & Hi).
  apply bind_Ok in Hi as ([h6 tl] & _ & Hi). by injection Hi as _ _ ->.
Qed.

(** ** The empty list *)

Lemma Inv_new : Inv (NewZSkipList (E := E)) [].
Proof.
  constructor; simpl.
  - by exists 0%Z.
  - apply NoDup_singleton.
  - constructor.
  - unfold ZSKIPLIST_MAXLEVEL. lia.
  - lia.
  - done.
  - constructor.
  - intros i Hi. unfold ZSKIPLIST_MAXLEVEL in Hi.
    do 12 (destruct i as [|i]; [done|]). lia.
  - done.
  - done.
Qed.

(** ** Every list built by Insert and Delete satisfies the invariant *)

Lemma filter_key_ne (K : Z * Z) (l : list (Z * E)) :
  K ∉ key <$> l → filter (λ se, key se ≠ K) l = l.
Proof.
  induction l as [|se l IH]; intros Hn; [done|].
  rewrite fmap_cons, not_elem_of_cons in Hn. destruct Hn as [Hne Hn].
  rewrite filter_cons_True by done. by rewrite IH.
Qed.

Lemma sorted_keys_ne (l1 l2 : list (Z * E)) (a : Z * E) :
  StronglySorted key_lt (key <$> (l1 ++ a :: l2)) → key a ∉ key <$> (l1 ++ l2).
Proof.
  rewrite !fmap_app, fmap_cons. intros Hs Hin.
  apply StronglySorted_app in Hs as (H1 & _ & H2).
  apply StronglySorted_cons in H2 as [H2 _]. rewrite Forall_forall in H2.
  apply elem_of_app in Hin as [Hin|Hin].
  - eapply key_lt_irrefl, (H1 _ _ Hin). set_solver.
  - eapply key_lt_irrefl, H2, Hin.
Qed.

Lemma built_Inv zsl pr : built zsl pr → ∃ lp, Inv zsl lp ∧ lp.*2 ≡ₚ pr.
Proof.
  induction 1 as [|zsl pr fuel rnd score obj zsl' x rnd' _ (lp & HI & Hperm) Hfresh Hins
                  |zsl pr fuel score obj zsl' r _ (lp & HI & Hperm) Hdel].
  - exists []. split; [apply Inv_new|done].
  - destruct (Insert_Ok_randLevel _ _ _ _ _ _ _ _ Hins) as [lv Hrl].
    destruct (Insert_Inv (fuel `max` S (length lp)) rnd score obj zsl lp lv rnd' HI)
      as (zsl'' & lp1 & lp2 & Hins' & Hlp & HI'); [|lia|done|].
    { by rewrite Hperm. }
    rewrite (Insert_mono _ _ _ _ _ _ _ Hins) in Hins' by lia.
    injection Hins' as <- ->. eexists. split; [exact HI'|].
    rewrite fmap_app, fmap_cons. simpl. rewrite <- Permutation_middle.
    constructor. by rewrite <- Hperm, Hlp, fmap_app.
  - destruct (Delete_spec (fuel `max` S (length lp)) score obj zsl lp HI)
      as [[Habs Hdel']|(lp1 & t & e & lp2 & zsl'' & Hlp & Huuid & Hdel' & HI')]; [lia| |].
    + rewrite (Delete_mono _ _ _ _ _ _ Hdel) in Hdel' by lia. injection Hdel' as <- _.
      exists lp. split; [done|]. rewrite filter_key_ne; [done|]. by rewrite <- Hperm.
    + rewrite (Delete_mono _ _ _ _ _ _ Hdel) in Hdel' by lia. injection Hdel' as <- _.
      exists (lp1 ++ lp2). split; [done|].
      rewrite <- Hperm, Hlp, !fmap_app, fmap_cons, filter_app. simpl.
      pose proof (inv_sorted _ _ HI) as Hs. rewrite Hlp in Hs.
      rewrite (fmap_app snd), (fmap_cons snd) in Hs. cbn [snd] in Hs.
      assert (key (score, e) = key (score, obj)) as Hk by (unfold key; simpl; by rewrite Huuid).
      rewrite filter_cons_False by (intros Hne; by apply Hne).
      rewrite <- filter_app, filter_key_ne; [done|].
      rewrite <- Hk. by apply sorted_keys_ne.
Qed.

End proofs11.
Section proofs12.
Context {E : Type} `{RankInterface E}.
Implicit Types (h : list (ZSkipListNode E)) (p q x u cur hd : ptr) (i j : nat).
Implicit Types (s : zskipListLevel) (n : ZSkipListNode E) (l : list ptr) (c k : Z).
Implicit Types (lp : list (ptr * (Z * E))) (zsl : ZSkipList E).

Lemma NoDup_fmap_eq {A B} (f : A → B) (l : list A) a b :
  NoDup (f <$> l) → a ∈ l → b ∈ l → f a = f b → a = b.
Proof.
  induction l as [|y l IH]; [by intros _ ?%elem_of_nil|].
  rewrite fmap_cons, NoDup_cons. intros [Hy Hnd] Ha Hb Hf.
  apply elem_of_cons in Ha as [->|Ha], Hb as [->|Hb]; [done| | |by apply IH].
  - exfalso. apply Hy. rewrite Hf. apply list_elem_of_fmap. by exists b.
  - exfalso. apply Hy. rewrite <- Hf. apply list_elem_of_fmap. by exists a.
Qed.

(** A node the search stops at is in the heap: the head or a listed node. *)
Lemma Inv_seek_node zsl lp la lb i :
  Inv zsl lp → lp.*1 = la ++ lb →
  let x := (seek (zsl_heap zsl) i (zsl_head zsl) 0 1 la).1 in
  (x = zsl_head zsl ∧ ∃ n, zsl_heap zsl !! x = Some n ∧ Obj n = None) ∨
  (∃ pe n, pe ∈ lp ∧ pe.1 = x ∧ x ∈ la ∧ zsl_heap zsl !! x = Some n ∧
           Obj n = Some pe.2.2 ∧ Score n = pe.2.1).
Proof.
  intros HI Hl x. pose proof (seek_Inv_elem zsl lp la lb i HI Hl) as Hx. fold x in Hx.
  apply elem_of_cons in Hx as [Hx|Hx].
  - left. split; [done|]. destruct (inv_head _ _ HI) as [sc Hsc]. rewrite Hx.
    unfold shape_at in Hsc. destruct (zsl_heap zsl !! zsl_head zsl) as [n|]; [|done].
    exists n. split; [done|]. simpl in Hsc. congruence.
  - right. assert (x ∈ lp.*1) as Hin by (rewrite Hl; set_solver).
    apply list_elem_of_fmap in Hin as (pe & Hpe & Hin).
    pose proof (Inv_entities _ _ HI) as Hents. rewrite Forall_forall in Hents.
    destruct (entity_at_inv _ _ _ (Hents _ Hin)) as (n & Hn & Ho & Hs).
    exists pe, n. rewrite <- Hpe in Hn. by split_and!.
Qed.

(** ** GetRank of an entity in the list *)

Lemma GetRank_present fuel zsl lp (k : nat) t score obj obj' :
  Inv zsl lp → NoDup (ids lp.*2) →
  lp !! k = Some (t, (score, obj')) → Uuid obj' = Uuid obj →
  length lp < fuel →
  GetRank fuel zsl score obj = Ok (Z.of_nat (S k)).
Proof.
  intros HI Hids Hk Huuid Hfuel. destruct zsl as [h hd tl len zl].
  set (zsl := mkZSkipList h hd tl len zl) in HI.
  pose proof (lookup_lt_Some _ _ _ Hk) as Hklt.
  assert (∃ lp1 lp2, lp = lp1 ++ lp2 ∧ lp1 = take k lp ++ [(t, (score, obj'))] ∧
                     length lp1 = S k) as (lp1 & lp2 & Hlp & Hlp1 & Hlen1).
  { exists (take (S k) lp), (drop (S k) lp). split_and!.
    - by rewrite take_drop.
    - by erewrite take_S_r.
    - rewrite length_take. lia. }
  assert (∃ la lb, la = lp1.*1 ∧ lb = lp2.*1) as (la & lb & Hla0 & Hlb0) by eauto.
  assert (lp.*1 = la ++ lb) as Hl by (by rewrite Hlp, fmap_app, Hla0, Hlb0).
  assert (la = (take k lp).*1 ++ [t]) as Hla by (by rewrite Hla0, Hlp1, fmap_app).
  assert (length la = S k) as Hlenla by (by rewrite Hla0, length_fmap).
  pose proof (inv_nodup _ _ HI) as Hnd0. simpl in Hnd0.
  pose proof Hnd0 as Hnd. rewrite Hl in Hnd.
  apply NoDup_cons in Hnd as [Hhd Hnd]. apply NoDup_app in Hnd as (Hnd1 & _ & _).
  pose proof (inv_sorted _ _ HI) as Hsorted.
  pose proof (inv_level _ _ HI) as Hzl. simpl in Hzl.
  pose proof (Inv_hgt_pos _ _ HI) as Hpos. simpl in Hpos.
  assert (hd ≠ t) as Hhdt.
  { intros ->. apply Hhd. rewrite Hla. set_solver. }
  assert (key (score, obj') = key (score, obj)) as Hkey by (unfold key; simpl; by rewrite Huuid).
  (* the keys up to the entity are the keys <= its key *)
  assert (splits (cond_le score obj) h (la ++ lb) 1 (length la) 0) as Hsplit.
  { rewrite Hla0, Hlb0, length_fmap, <- fmap_app.
    apply (splits_keys _ (λ a, key_le a (key (score, obj)))).
    - intros n e r s He. by apply cond_le_spec.
    - rewrite <- Hlp. apply (Inv_entities _ _ HI).
    - rewrite Hlp, Hlp1 in Hsorted. rewrite !fmap_app in Hsorted.
      apply StronglySorted_app_1_l, StronglySorted_app in Hsorted as (Hs & _ & _).
      rewrite Hlp1. apply Forall_app. split.
      + apply Forall_forall. intros pe Hpe. apply key_le_iff. left. rewrite <- Hkey.
        apply Hs; [|set_solver]. apply list_elem_of_fmap. exists pe.2. split; [done|].
        apply list_elem_of_fmap. by exists pe.
      + apply Forall_singleton. apply key_le_iff. by right.
    - rewrite Hlp, !fmap_app in Hsorted. apply StronglySorted_app in Hsorted as (Hs & _ & _).
      apply Forall_forall. intros pe Hpe Hle. apply key_le_iff in Hle.
      assert (key_lt (key (score, obj)) (key pe.2)) as Hlt.
      { rewrite <- Hkey. apply Hs.
        - rewrite Hlp1, !fmap_app. set_solver.
        - apply list_elem_of_fmap. exists pe.2. split; [done|].
          apply list_elem_of_fmap. by exists pe. }
      destruct Hle as [Hle|Heq].
      + eapply key_lt_irrefl, key_lt_trans; [exact Hlt|exact Hle].
      + rewrite Heq in Hlt. by apply key_lt_irrefl in Hlt. }
  assert (∀ nl x c, nl ≤ zl → seek h nl hd 0 1 la = (x, c) → x ≠ t →
            GetRank_loop fuel h score obj nl x c = Ok (Z.of_nat (S k))) as Hloop.
  { induction nl as [|i IH]; intros x c Hnl Hx Hne.
    - exfalso. apply Hne. rewrite Hla in Hx. rewrite seek_snoc in Hx; [congruence|].
      rewrite Hl, Hla in Hpos.
      apply Forall_app in Hpos as [Hp _]. apply Forall_app in Hp as [_ Hp].
      exact (Forall_inv Hp).
    - simpl.
      pose proof (advance_level (cond_le score obj) fuel h i (S i) hd la lb x c 0) as Ha.
      replace (c + 0)%Z with c in Ha by lia. rewrite Ha; clear Ha.
      + destruct (seek h i hd 0 1 la) as [x' c'] eqn:Hx'. simpl.
        replace (c' + 0)%Z with c' by lia.
        pose proof (Inv_seek_node zsl lp la lb i HI Hl) as Hnode. simpl in Hnode.
        rewrite Hx' in Hnode. simpl in Hnode.
        destruct Hnode as [(-> & n & Hn & Ho)|(pe & n & Hin & Hpe & Hxla & Hn & Ho & Hs)].
        * rewrite (load_Ok _ _ _ Hn). simpl. rewrite Ho.
          apply IH; [lia|done|done].
        * rewrite (load_Ok _ _ _ Hn). simpl. rewrite Ho.
          destruct (decide (x' = t)) as [->|Hne'].
          -- assert (pe = (t, (score, obj'))) as ->.
             { eapply (NoDup_fmap_eq fst lp); [|done| |done].
               - by apply NoDup_cons in Hnd0 as [_ ?].
               - by eapply list_elem_of_lookup_2. }
             simpl. rewrite Huuid, Z.eqb_refl. f_equal.
             apply seek_split in Hx' as [(-> & _)|(l1 & l2 & Hsplit' & -> & _)]; [done|].
             assert (l2 = []) as ->.
             { destruct l2 as [|y l2 _] using rev_ind; [done|]. exfalso.
               rewrite Hla in Hsplit'.
               replace (l1 ++ t :: l2 ++ [y]) with ((l1 ++ t :: l2) ++ [y]) in Hsplit'
                 by (by rewrite <- app_assoc).
               apply app_inj_tail in Hsplit' as [Hpre ->].
               rewrite Hla in Hnd1. rewrite Hpre in Hnd1.
               apply NoDup_app in Hnd1 as (_ & Hnd1 & _). apply (Hnd1 y); set_solver. }
             assert (length la = S (length l1)) as Hlen.
             { rewrite Hsplit', length_app. simpl. lia. }
             lia.
          -- destruct (Z.eqb_spec (Uuid pe.2.2) (Uuid obj)) as [Heq|Hneq].
             ++ exfalso. apply Hne'. rewrite <- Hpe.
                assert (pe = (t, (score, obj'))) as ->; [|done].
                eapply (NoDup_fmap_eq (λ pe, Uuid pe.2.2) lp); [|done| |].
                ** unfold ids in Hids. by rewrite <- list_fmap_compose in Hids.
                ** by eapply list_elem_of_lookup_2.
                ** simpl. congruence.
             ++ apply IH; [lia|done|done].
      + lia.
      + rewrite <- Hl. apply (inv_chain _ _ HI). lia.
      + done.
      + lia.
      + done. }
  unfold GetRank. simpl. apply Hloop; [done| |done].
  pose proof (Inv_seek_top zsl lp la zl HI) as Ht. simpl in Ht. apply Ht; [|done].
  by exists lb.
Qed.

End proofs12.
Section proofs13.
Context {E : Type} `{RankInterface E}.
Implicit Types (h : list (ZSkipListNode E)) (p q x u cur hd : ptr) (i j : nat).
Implicit Types (s : zskipListLevel) (n : ZSkipListNode E) (l : list ptr) (c k : Z).
Implicit Types (lp : list (ptr * (Z * E))) (zsl : ZSkipList E).

(** ** GetElementByRank *)

Lemma Inv_nodes_in_heap zsl lp :
  Inv zsl lp → Forall (λ q, is_Some (zsl_heap zsl !! q)) lp.*1.
Proof.
  intros HI. apply Forall_forall. intros q Hq.
  apply lookup_lt_is_Some. apply (Inv_ptr_lt zsl lp q HI). set_solver.
Qed.

(** One level of the walk of GetElementByRank, for a rank that cuts the
    list after its first [m] nodes. *)
Lemma GetElementByRank_level fuel zsl lp (r : Z) (m i : nat) x c :
  Inv zsl lp → length lp < fuel → i < zsl_level zsl →
  (∀ j : nat, j < length lp → j < m ↔ (1 + j ≤ r)%Z) → m ≤ length lp →
  seek (zsl_heap zsl) (S i) (zsl_head zsl) 0 1 (take m lp.*1) = (x, c) →
  advance (cond_span r) fuel (zsl_heap zsl) i x c =
  Ok (seek (zsl_heap zsl) i (zsl_head zsl) 0 1 (take m lp.*1)).
Proof.
  intros HI Hfuel Hi Hm Hmle Hx.
  pose proof (inv_level _ _ HI) as Hzl.
  pose proof (advance_level (cond_span r) fuel (zsl_heap zsl) i (S i) (zsl_head zsl)
                (take m lp.*1) (drop m lp.*1) x c 0) as Ha.
  replace (c + 0)%Z with c in Ha by lia. rewrite Ha.
  - destruct (seek _ i _ 0 1 _) as [x' c']. simpl. f_equal. f_equal. lia.
  - lia.
  - rewrite take_drop. apply (inv_chain _ _ HI). lia.
  - rewrite take_drop. apply splits_span; [by apply Inv_nodes_in_heap|].
    intros j Hj. rewrite length_fmap in Hj. rewrite length_take, length_fmap.
    rewrite <- (Hm j Hj). lia.
  - rewrite length_take, length_fmap. lia.
  - done.
Qed.

Lemma GetElementByRank_in fuel zsl lp (k : nat) pe :
  Inv zsl lp → lp !! k = Some pe → length lp < fuel →
  GetElementByRank fuel zsl (Z.of_nat (S k)) = Ok (Some pe.1).
Proof.
  intros HI Hk Hfuel. pose proof (lookup_lt_Some _ _ _ Hk) as Hklt.
  pose proof (inv_level _ _ HI) as Hzl.
  assert (take (S k) lp.*1 = take k lp.*1 ++ [pe.1]) as Hla.
  { erewrite take_S_r; [done|]. by rewrite list_lookup_fmap, Hk. }
  assert (length (take (S k) lp.*1) = S k) as Hlen.
  { rewrite length_take, length_fmap. lia. }
  assert (∀ nl x c, nl ≤ zsl_level zsl →
            seek (zsl_heap zsl) nl (zsl_head zsl) 0 1 (take (S k) lp.*1) = (x, c) →
            c ≠ Z.of_nat (S k) →
            GetElementByRank_loop fuel (zsl_heap zsl) (Z.of_nat (S k)) nl x c =
            Ok (Some pe.1)) as Hloop.
  { induction nl as [|i IH]; intros x c Hnl Hx Hne.
    - exfalso. apply Hne. rewrite Hla in Hx. rewrite seek_snoc in Hx.
      + injection Hx as _ <-. rewrite length_take, length_fmap. lia.
      + pose proof (Inv_hgt_pos _ _ HI) as Hp. rewrite Forall_forall in Hp. apply Hp.
        apply list_elem_of_fmap. exists pe. split; [done|]. by eapply list_elem_of_lookup_2.
    - simpl. rewrite (GetElementByRank_level fuel zsl lp _ (S k) i x c); try done; try lia.
      simpl. destruct (seek _ i _ 0 1 _) as [x' c'] eqn:Hx'.
      destruct (decide (c' = Z.of_nat (S k))) as [Hc|Hc]; [|apply IH; [lia|done|done]].
      do 2 f_equal.
      apply seek_split in Hx' as [(_ & -> & _)|(l1 & l2 & Hsplit & -> & _)]; [lia|].
      assert (l2 = []) as ->.
      { apply (f_equal length) in Hsplit. rewrite Hlen, length_app in Hsplit.
        simpl in Hsplit. destruct l2; [done|simpl in Hsplit; lia]. }
      rewrite Hla in Hsplit. by apply app_inj_tail in Hsplit as [_ <-]. }
  unfold GetElementByRank. apply Hloop; [done| |lia].
  apply (Inv_seek_top zsl lp _ _ HI); [|done]. apply prefix_take.
Qed.

Lemma GetElementByRank_out fuel zsl lp (r : Z) :
  Inv zsl lp → (r < 0 ∨ length lp < r)%Z → length lp < fuel →
  GetElementByRank fuel zsl r = Ok None.
Proof.
  intros HI Hr Hfuel. pose proof (inv_level _ _ HI) as Hzl.
  set (m := if decide (r < 0)%Z then 0 else length lp).
  assert (m ≤ length lp) as Hmle by (unfold m; case_decide; lia).
  assert (∀ j : nat, j < length lp → j < m ↔ (1 + j ≤ r)%Z) as Hm.
  { intros j Hj. unfold m. case_decide; lia. }
  assert (¬ (0 ≤ r ≤ m)%Z) as Hout by (unfold m; case_decide; lia).
  clearbody m.
  assert (∀ nl x c, nl ≤ zsl_level zsl →
            seek (zsl_heap zsl) nl (zsl_head zsl) 0 1 (take m lp.*1) = (x, c) →
            GetElementByRank_loop fuel (zsl_heap zsl) r nl x c = Ok None) as Hloop.
  { induction nl as [|i IH]; intros x c Hnl Hx; [done|].
    simpl. rewrite (GetElementByRank_level fuel zsl lp _ m i x c); try done; try lia.
    simpl. destruct (seek _ i _ 0 1 _) as [x' c'] eqn:Hx'.
    pose proof (seek_pos (zsl_heap zsl) i (zsl_head zsl) 0 1 (take m lp.*1) ltac:(lia)) as Hpos.
    rewrite Hx' in Hpos. simpl in Hpos. rewrite length_take, length_fmap in Hpos.
    rewrite decide_False by lia. apply IH; [lia|done]. }
  unfold GetElementByRank. apply Hloop; [done|].
  apply (Inv_seek_top zsl lp _ _ HI); [|done]. apply prefix_take.
Qed.

(** Rank 0 finds the head sentinel. *)
Lemma GetElementByRank_zero fuel zsl lp :
  Inv zsl lp → length lp < fuel →
  GetElementByRank fuel zsl 0 = Ok (Some (zsl_head zsl)).
Proof.
  intros HI Hfuel. pose proof (inv_level _ _ HI) as Hzl.
  unfold GetElementByRank. destruct (zsl_level zsl) as [|i] eqn:Hlvl; [lia|]. simpl.
  rewrite (GetElementByRank_level fuel zsl lp 0 0 i (zsl_head zsl) 0); try done; try lia.
Qed.

End proofs13.
Section proofs14.
Context {E : Type} `{RankInterface E}.
Implicit Types (h : list (ZSkipListNode E)) (p q x u cur hd : ptr) (i j : nat).
Implicit Types (s : zskipListLevel) (n : ZSkipListNode E) (l : list ptr) (c k : Z).
Implicit Types (lp : list (ptr * (Z * E))) (zsl : ZSkipList E).

(** ** Level 0 is a plain linked list *)

Lemma chain0_head h cur c k l :
  chain h 0 cur c k l → Forall (λ p, 0 < hgt h p) l →
  ∃ s, slot_at h cur 0 = Some s ∧ forward s = head l ∧
       (is_Some (head l) → span s = (k - c)%Z).
Proof.
  intros Hc Hp. destruct l as [|y l]; simpl in *.
  - apply link_None_inv in Hc as (s & Hs & Hf). exists s. split_and!; [done|done|].
    by intros [??].
  - rewrite decide_True in Hc by (by inversion Hp). destruct Hc as [Hc _].
    apply link_Some_inv in Hc as (s & Hs & Hf & Hsp). by exists s.
Qed.

Lemma chain0_tail h cur c k y l :
  chain h 0 cur c k (y :: l) → 0 < hgt h y → chain h 0 y k (k + 1)%Z l.
Proof. simpl. intros Hc Hy. rewrite decide_True in Hc by done. by destruct Hc. Qed.

Lemma Next_chain h cur c k l :
  chain h 0 cur c k l → Forall (λ p, 0 < hgt h p) l → Next h cur = Ok (head l).
Proof.
  intros Hc Hp. destruct (chain0_head _ _ _ _ _ Hc Hp) as (s & Hs & Hf & _).
  unfold Next. rewrite (load_level_Ok _ _ _ _ Hs). simpl. by rewrite Hf.
Qed.

Lemma Nodes_from_spec fuel h cur c k l :
  chain h 0 cur c k l → Forall (λ p, 0 < hgt h p) l → length l ≤ fuel →
  Nodes_from fuel h (head l) = Ok l.
Proof.
  revert fuel cur c k. induction l as [|y l IH]; intros fuel cur c k Hc Hp Hf.
  - by destruct fuel.
  - destruct fuel as [|fuel]; [simpl in Hf; lia|]. simpl.
    inversion_clear Hp as [|?? Hy Hp'].
    pose proof (chain0_tail _ _ _ _ _ _ Hc Hy) as Hc'.
    rewrite (Next_chain _ _ _ _ _ Hc' Hp'). simpl.
    rewrite (IH fuel y k (k + 1)%Z); [done|done|done|simpl in Hf; lia].
Qed.

Lemma span_sums_from_spec fuel h cur c k l acc :
  chain h 0 cur c k l → Forall (λ p, 0 < hgt h p) l → length l < fuel →
  span_sums_from fuel h cur acc =
  Ok (imap (λ (j : nat) p, (p, (acc + (k - c) + j)%Z)) l).
Proof.
  revert fuel cur c k acc. induction l as [|y l IH]; intros fuel cur c k acc Hc Hp Hf.
  - destruct fuel as [|fuel]; [simpl in Hf; lia|]. simpl.
    destruct (chain0_head _ _ _ _ _ Hc Hp) as (s & Hs & Hfw & _).
    rewrite (load_level_Ok _ _ _ _ Hs). simpl. by rewrite Hfw.
  - destruct fuel as [|fuel]; [simpl in Hf; lia|]. simpl.
    destruct (chain0_head _ _ _ _ _ Hc Hp) as (s & Hs & Hfw & Hsp).
    rewrite (load_level_Ok _ _ _ _ Hs). simpl. rewrite Hfw. simpl.
    rewrite Hsp by (by eexists).
    inversion_clear Hp as [|?? Hy Hp'].
    pose proof (chain0_tail _ _ _ _ _ _ Hc Hy) as Hc'.
    rewrite (IH fuel y k (k + 1)%Z); [|done|done|simpl in Hf; lia]. simpl.
    f_equal. f_equal; [f_equal; lia|]. apply imap_ext. intros j p _. simpl. f_equal. lia.
Qed.

Lemma Inv_chain0 zsl lp :
  Inv zsl lp → chain (zsl_heap zsl) 0 (zsl_head zsl) 0 1 lp.*1.
Proof. intros HI. apply (inv_chain _ _ HI). unfold ZSKIPLIST_MAXLEVEL. lia. Qed.

Lemma Nodes_Inv fuel zsl lp :
  Inv zsl lp → length lp ≤ fuel → Nodes fuel zsl = Ok lp.*1.
Proof.
  intros HI Hf. unfold Nodes, HeaderNode.
  pose proof (Next_chain _ _ _ _ _ (Inv_chain0 _ _ HI) (Inv_hgt_pos _ _ HI)) as Hn.
  unfold Next in Hn. rewrite Hn. simpl.
  eapply Nodes_from_spec; [apply (Inv_chain0 _ _ HI)|apply (Inv_hgt_pos _ _ HI)|].
  by rewrite length_fmap.
Qed.

Lemma Inv_node_obj zsl lp pe :
  Inv zsl lp → pe ∈ lp →
  ∃ n, zsl_heap zsl !! pe.1 = Some n ∧ Obj n = Some pe.2.2 ∧ Score n = pe.2.1 ∧
       node_obj (zsl_heap zsl) pe.1 = Some pe.2.2 ∧
       node_key (zsl_heap zsl) pe.1 = Some (key pe.2).
Proof.
  intros HI Hin. pose proof (Inv_entities _ _ HI) as Hents. rewrite Forall_forall in Hents.
  destruct (entity_at_inv _ _ _ (Hents _ Hin)) as (n & Hn & Ho & Hs).
  exists n. unfold node_obj, node_key, key. rewrite Hn. simpl. rewrite Ho. simpl.
  rewrite Hs. done.
Qed.


(** ** Walk *)

Section walk.
Context {St : Type} (fn : Z → option E → St → bool * St).

Lemma Walk_head_spec fuel h cur c k l (rank : Z) st :
  chain h 0 cur c k l → Forall (λ p, 0 < hgt h p) l → length l ≤ fuel →
  Walk_head fn fuel h (head l) rank st =
  Ok (visit_all fn (imap (λ (j : nat) p, ((rank - j)%Z, node_obj h p)) l) st).
Proof.
  revert fuel cur c k rank st.
  induction l as [|y l IH]; intros fuel cur c k rank st Hc Hp Hf; [by destruct fuel|].
  destruct fuel as [|fuel]; [simpl in Hf; lia|].
  inversion_clear Hp as [|?? Hy Hp'].
  pose proof (chain0_tail _ _ _ _ _ _ Hc Hy) as Hc'.
  destruct (chain0_head _ _ _ _ _ Hc' Hp') as (s & Hs & Hfw & _).
  assert (∃ n, h !! y = Some n) as [n Hn].
  { unfold slot_at in Hs. destruct (h !! y); [eauto|done]. }
  simpl. rewrite (load_Ok _ _ _ Hn). simpl.
  unfold node_obj at 1. rewrite Hn. simpl.
  replace (rank - 0%nat)%Z with rank by lia.
  destruct (fn rank (Obj n) st) as [[|] st']; [|done].
  rewrite (load_level_Ok _ _ _ _ Hs). simpl. rewrite Hfw.
  rewrite (IH fuel y k (k + 1)%Z); [|done|done|simpl in Hf; lia].
  do 2 f_equal. apply imap_ext. intros j p _. simpl. f_equal. lia.
Qed.

Lemma bchain_snoc h prev l y :
  bchain h prev (l ++ [y]) →
  bchain h prev l ∧ back_at h y = Some (if last l is Some p then Some p else prev).
Proof.
  revert prev. induction l as [|p l IH]; intros prev; simpl.
  - by intros [? _].
  - intros [Hp Hb]. destruct (IH _ Hb) as [Hb' Hy]. split; [done|].
    rewrite Hy. rewrite last_cons. by destruct (last l).
Qed.

Lemma Walk_tail_spec fuel h l (rank : Z) st :
  bchain h None l → Forall (λ p, is_Some (h !! p)) l → length l ≤ fuel →
  Walk_tail fn fuel h (last l) rank st =
  Ok (visit_all fn (imap (λ (j : nat) p, ((rank + j)%Z, node_obj h p)) (reverse l)) st).
Proof.
  revert fuel rank st.
  induction l as [|y l IH] using rev_ind; intros fuel rank st Hb Hl Hf; [by destruct fuel|].
  rewrite length_app in Hf. simpl in Hf.
  destruct fuel as [|fuel]; [lia|].
  apply bchain_snoc in Hb as [Hb Hy]. apply Forall_app in Hl as [Hl Hy'].
  apply Forall_singleton in Hy' as [n Hn].
  rewrite last_snoc, reverse_snoc. simpl. rewrite (load_Ok _ _ _ Hn). simpl.
  unfold node_obj at 1. rewrite Hn. simpl.
  replace (rank + 0%nat)%Z with rank by lia.
  destruct (fn rank (Obj n) st) as [[|] st']; [|done].
  unfold back_at in Hy. rewrite Hn in Hy. simpl in Hy. injection Hy as ->.
  replace (if last l is Some p then Some p else None) with (last l) by (by destruct (last l)).
  rewrite (IH fuel); [|done|done|lia].
  do 2 f_equal. apply imap_ext. intros j p _. simpl. f_equal. lia.
Qed.

End walk.

(** ** The loops of GetNearByRankRange *)


Lemma collect_backward_spec (m : nat) h l acc :
  bchain h None l → Forall (λ p, is_Some (h !! p)) l →
  collect_backward m h (last l) acc = Ok (acc ++ take m (node_obj h <$> reverse l)).
Proof.
  revert m acc. induction l as [|y l IH] using rev_ind; intros m acc Hb Hl.
  - destruct m; simpl; by rewrite ?take_nil, app_nil_r.
  - apply bchain_snoc in Hb as [Hb Hy]. apply Forall_app in Hl as [Hl Hy'].
    apply Forall_singleton in Hy' as [n Hn].
    rewrite last_snoc, reverse_snoc.
    destruct m as [|m]; [simpl; by rewrite app_nil_r|].
    simpl. rewrite (load_Ok _ _ _ Hn). simpl.
    unfold back_at in Hy. rewrite Hn in Hy. simpl in Hy. injection Hy as ->.
    replace (if last l is Some p then Some p else None) with (last l) by (by destruct (last l)).
    rewrite IH by done.
    unfold node_obj at 2. rewrite Hn. simpl. by rewrite <- app_assoc.
Qed.



End proofs14.
Section proofs15.
Context {E : Type} `{RankInterface E}.
Implicit Types (h : list (ZSkipListNode E)) (p q x u cur hd : ptr) (i j : nat).
Implicit Types (s : zskipListLevel) (n : ZSkipListNode E) (l : list ptr) (c k : Z).
Implicit Types (lp : list (ptr * (Z * E))) (zsl : ZSkipList E) (pr : list (Z * E)).

(** ** From built lists to the queries *)

Lemma built_length zsl pr lp :
  Inv zsl lp → lp.*2 ≡ₚ pr → length lp = length pr ∧ Len zsl = Z.of_nat (length pr).
Proof.
  intros HI Hp. apply Permutation_length in Hp. rewrite length_fmap in Hp.
  split; [done|]. unfold Len. rewrite (inv_length _ _ HI). by rewrite Hp.
Qed.

Lemma StronglySorted_lookup {A} (R : relation A) (l : list A) i j a b :
  StronglySorted R l → l !! i = Some a → l !! j = Some b → i < j → R a b.
Proof.
  intros Hs Ha Hb Hij. rewrite <- (take_drop (S i) l) in Hs.
  eapply StronglySorted_app_1_elem_of; [exact Hs| |].
  - apply list_elem_of_lookup. exists i. rewrite lookup_take_lt by lia. done.
  - apply list_elem_of_lookup. exists (j - S i). rewrite lookup_drop.
    by replace (S i + (j - S i)) with j by lia.
Qed.

Lemma imap_reverse {A B} (f : nat → A → B) (l : list A) :
  reverse (imap f l) = imap (λ j, f (length l - 1 - j)) (reverse l).
Proof.
  apply list_eq. intros i.
  destruct (decide (i < length l)) as [Hi|Hi].
  - rewrite reverse_lookup by (by rewrite length_imap).
    rewrite !list_lookup_imap, length_imap. rewrite reverse_lookup by done.
    by replace (length l - S i) with (length l - 1 - i) by lia.
  - rewrite !lookup_ge_None_2; [done| |].
    + rewrite length_imap, length_reverse. lia.
    + rewrite length_reverse, length_imap. lia.
Qed.

(** ** GetRank of an identity that is not in the list *)

Lemma GetRank_absent_id fuel zsl lp score obj :
  Inv zsl lp → Uuid obj ∉ ids lp.*2 → length lp < fuel →
  GetRank fuel zsl score obj = Ok 0%Z.
Proof.
  intros HI Hid Hfuel. destruct zsl as [h hd tl len zl].
  set (zsl := mkZSkipList h hd tl len zl) in HI.
  destruct (sorted_split (λ a, key_le a (key (score, obj))) lp) as (lp1 & lp2 & Hlp & H1 & H2).
  { intros a b Hab Hb. by eapply key_lt_le_trans. }
  { apply (inv_sorted _ _ HI). }
  pose proof (inv_level _ _ HI) as Hzl. simpl in Hzl.
  assert (lp.*1 = lp1.*1 ++ lp2.*1) as Hl by (by rewrite Hlp, fmap_app).
  assert (splits (cond_le score obj) h (lp1.*1 ++ lp2.*1) 1 (length lp1.*1) 0) as Hsplit.
  { rewrite length_fmap, <- fmap_app.
    apply (splits_keys _ (λ a, key_le a (key (score, obj)))); [|rewrite <- Hlp; apply (Inv_entities _ _ HI)|done|done].
    intros n e r s He. by apply cond_le_spec. }
  assert (∀ nl x c, nl ≤ zl → seek h nl hd 0 1 lp1.*1 = (x, c) →
            GetRank_loop fuel h score obj nl x c = Ok 0%Z) as Hloop.
  { induction nl as [|i IH]; intros x c Hnl Hx; [done|]. simpl.
    pose proof (advance_level (cond_le score obj) fuel h i (S i) hd lp1.*1 lp2.*1 x c 0) as Ha.
    replace (c + 0)%Z with c in Ha by lia. rewrite Ha; clear Ha.
    - destruct (seek h i hd 0 1 lp1.*1) as [x' c'] eqn:Hx'. simpl.
      replace (c' + 0)%Z with c' by lia.
      pose proof (Inv_seek_node zsl lp lp1.*1 lp2.*1 i HI Hl) as Hnode. simpl in Hnode.
      rewrite Hx' in Hnode. simpl in Hnode.
      destruct Hnode as [(-> & n & Hn & Ho)|(pe & n & Hin & Hpe & Hxla & Hn & Ho & Hs)].
      + rewrite (load_Ok _ _ _ Hn). simpl. rewrite Ho. apply IH; [lia|done].
      + rewrite (load_Ok _ _ _ Hn). simpl. rewrite Ho.
        destruct (Z.eqb_spec (Uuid pe.2.2) (Uuid obj)) as [Heq|Hneq]; [|apply IH; [lia|done]].
        exfalso. apply Hid. rewrite <- Heq. unfold ids.
        apply list_elem_of_fmap. exists pe.2. split; [done|].
        apply list_elem_of_fmap. by exists pe.
    - lia.
    - rewrite <- Hl. apply (inv_chain _ _ HI). lia.
    - done.
    - rewrite length_fmap. rewrite Hlp, length_app in Hfuel. lia.
    - done. }
  unfold GetRank. simpl. apply (Hloop zl hd 0%Z); [done|].
  pose proof (Inv_seek_top zsl lp lp1.*1 zl HI) as Ht. simpl in Ht. apply Ht; [|done].
  by exists lp2.*1.
Qed.

(** ** Batches *)

Lemma Insert_all_Inv fuel (batch : list (list Z * (Z * E))) zsl lp :
  Inv zsl lp →
  NoDup (key <$> (batch.*2 ++ lp.*2)) →
  Forall (λ b, ∃ lv rnd', randLevel b.1 = Ok (lv, rnd')) batch →
  length batch + length lp < fuel →
  ∃ zsl' lp', Insert_all fuel batch zsl = Ok zsl' ∧ Inv zsl' lp' ∧
              lp'.*2 ≡ₚ batch.*2 ++ lp.*2.
Proof.
  revert zsl lp. induction batch as [|[rnd [score obj]] batch IH]; intros zsl lp HI Hnd Hr Hf.
  - exists zsl, lp. by split_and!.
  - simpl in *. apply Forall_cons in Hr as [(lv & rnd' & Hrl) Hr].
    apply NoDup_cons in Hnd as [Hfresh Hnd].
    destruct (Insert_Inv fuel rnd score obj zsl lp lv rnd' HI)
      as (zsl1 & lp1 & lp2 & Hins & Hlp & HI1); [|lia|done|].
    { intros Hin. apply Hfresh. rewrite fmap_app. apply elem_of_app. by right. }
    rewrite Hins. simpl.
    set (lp' := lp1 ++ (length (zsl_heap zsl), (score, obj)) :: lp2) in *.
    assert (lp'.*2 ≡ₚ (score, obj) :: lp.*2) as Hperm.
    { unfold lp'. rewrite fmap_app, fmap_cons. simpl. rewrite <- Permutation_middle.
      by rewrite Hlp, fmap_app. }
    destruct (IH zsl1 lp' HI1) as (zsl' & lp'' & Hall & HI' & Hperm').
    + rewrite fmap_app, Hperm, fmap_cons.
      rewrite <- Permutation_middle. apply NoDup_cons. rewrite <- fmap_app. done.
    + done.
    + apply Permutation_length in Hperm. rewrite length_fmap in Hperm. simpl in Hperm.
      rewrite length_fmap in Hperm. lia.
    + exists zsl', lp''. split_and!; [done|done|].
      rewrite Hperm', Hperm. by rewrite <- Permutation_middle.
Qed.

Lemma Delete_all_Inv fuel (dels : list (Z * E)) zsl lp :
  Inv zsl lp → lp.*2 ≡ₚ dels → length lp < fuel →
  ∃ zsl' rs, Delete_all fuel dels zsl = Ok (zsl', rs) ∧ Inv zsl' [] ∧
             Forall is_Some rs ∧ length rs = length dels.
Proof.
  revert zsl lp. induction dels as [|[score obj] dels IH]; intros zsl lp HI Hperm Hf.
  - apply Permutation_nil_r in Hperm. apply fmap_nil_inv in Hperm as ->.
    exists zsl, []. by split_and!.
  - simpl.
    destruct (Delete_spec fuel score obj zsl lp HI Hf)
      as [[Habs _]|(lp1 & t & e & lp2 & zsl1 & Hlp & Huuid & Hdel & HI1)].
    { exfalso. apply Habs. rewrite Hperm. set_solver. }
    rewrite Hdel. simpl.
    assert ((score, e) = (score, obj)) as Heq.
    { pose proof (inv_sorted _ _ HI) as Hs.
      assert ((score, obj) ∈ lp.*2) as Hin by (rewrite Hperm; set_solver).
      rewrite Hlp in Hs, Hin. rewrite (fmap_app snd), (fmap_cons snd) in Hs, Hin.
      cbn [snd] in Hs, Hin.
      apply sorted_keys_ne in Hs.
      apply elem_of_app in Hin as [Hin|Hin]; [|apply elem_of_cons in Hin as [Hin|Hin]];
        [|done|].
      - exfalso. apply Hs. replace (key (score, e)) with (key (score, obj))
          by (unfold key; simpl; by rewrite Huuid).
        apply list_elem_of_fmap. exists (score, obj). split; [done|set_solver].
      - exfalso. apply Hs. replace (key (score, e)) with (key (score, obj))
          by (unfold key; simpl; by rewrite Huuid).
        apply list_elem_of_fmap. exists (score, obj). split; [done|set_solver]. }
    destruct (IH zsl1 (lp1 ++ lp2) HI1) as (zsl' & rs & Hall & HI' & Hrs & Hlen).
    + rewrite Hlp, (fmap_app snd), (fmap_cons snd) in Hperm. cbn [snd] in Hperm.
      rewrite Heq, <- Permutation_middle in Hperm.
      apply Permutation_cons_inv in Hperm. by rewrite fmap_app.
    + rewrite Hlp, length_app in Hf. simpl in Hf. rewrite length_app. lia.
    + rewrite Hall. simpl. exists zsl', (Some t :: rs). split_and!; [done|done| |simpl; lia].
      constructor; [by eexists|done].
Qed.

End proofs15.
(** * The properties of the specification *)

Section claims.
Context {E : Type} `{RankInterface E}.
Implicit Types (zsl : ZSkipList E) (pr srt : list (Z * E)) (lp : list (ptr * (Z * E))).

Lemma sorted_by_key (l : list (Z * E)) :
  StronglySorted key_lt (key <$> l) →
  StronglySorted (λ a b, key_le (key a) (key b)) l.
Proof.
  induction l as [|a l IH]; intros Hs; [constructor|].
  rewrite fmap_cons in Hs. apply StronglySorted_inv in Hs as [Hs Hall].
  constructor; [by apply IH|].
  rewrite Forall_fmap in Hall. eapply Forall_impl; [exact Hall|].
  intros b Hb. simpl in Hb. unfold key_lt, key_le in *. lia.
Qed.

Lemma key_le_antisym (a b : Z * Z) : key_le a b → key_le b a → a = b.
Proof. destruct a, b. unfold key_le. simpl. intros ??. f_equal; lia. Qed.

Lemma ids_NoDup pr pr' : pr ≡ₚ pr' → NoDup (ids pr') → NoDup (ids pr).
Proof. intros Hp. unfold ids. by rewrite Hp. Qed.

Lemma Inv_lookup_node zsl lp (i : nat) p :
  Inv zsl lp → lp.*1 !! i = Some p →
  ∃ pe n, lp !! i = Some pe ∧ pe.1 = p ∧ zsl_heap zsl !! p = Some n ∧
          Obj n = Some pe.2.2 ∧ Score n = pe.2.1 ∧
          node_obj (zsl_heap zsl) p = Some pe.2.2 ∧
          node_key (zsl_heap zsl) p = Some (key pe.2).
Proof.
  intros HI Hp. apply list_lookup_fmap_Some in Hp as (pe & -> & Hpe).
  destruct (Inv_node_obj zsl lp pe HI (list_elem_of_lookup_2 _ _ _ Hpe))
    as (n & Hn & Ho & Hs & Hno & Hnk).
  exists pe, n. by split_and!.
Qed.

(** C1, for distinct identities.  In a list built from the empty one by Inserts of
    fresh (score, identity) pairs and by Deletes, whose entities have
    pairwise-distinct identities, GetRank of an entity that is present
    returns the 1-based position of that entity in the ascending
    (score, identity) order of the entities present. *)
Theorem C1_GetRank_is_sorted_position zsl pr srt (k : nat) score obj fuel :
  built zsl pr →
  NoDup (ids pr) →
  srt ≡ₚ pr →
  StronglySorted (λ a b, key_le (key a) (key b)) srt →
  srt !! k = Some (score, obj) →
  length pr < fuel →
  GetRank fuel zsl score obj = Ok (Z.of_nat (S k)).
Proof.
  intros Hb Hids Hperm Hsorted Hk Hfuel.
  destruct (built_Inv zsl pr Hb) as (lp & HI & Hlp).
  destruct (built_length zsl pr lp HI Hlp) as [Hlen _].
  assert (NoDup (ids lp.*2)) as Hids'.
  { by apply (ids_NoDup _ pr). }
  assert (srt = lp.*2) as ->.
  { apply (StronglySorted_unique_strong (λ a b, key_le (key a) (key b)));
      [|done|apply sorted_by_key, (inv_sorted _ _ HI)|by rewrite Hlp].
    intros a b Ha Hb' Hab Hba.
    pose proof (key_le_antisym _ _ Hab Hba) as Hkey.
    apply (NoDup_fmap_eq (λ se : Z * E, Uuid se.2) pr); [done|by rewrite <- Hperm|by rewrite <- Hlp|].
    unfold key in Hkey. congruence. }
  apply list_lookup_fmap_Some in Hk as ([t se] & Hse & Hk). simpl in Hse. subst se.
  eapply (GetRank_present fuel zsl lp k t score obj obj); [done|done|done|done|lia].
Qed.

(** C2, for distinct identities.  In a list built by valid operations
    whose entities have pairwise-distinct identities, the level-0 walk from
    the head meets the nodes of the list, and the sum of the level-0 spans
    up to and including a node is what GetRank returns for the score and
    entity of that node. *)
Theorem C2_span_sum_is_GetRank zsl pr fuel :
  built zsl pr →
  NoDup (ids pr) →
  length pr < fuel →
  ∃ nodes sums,
    Nodes fuel zsl = Ok nodes ∧
    span_sums fuel zsl = Ok sums ∧
    sums.*1 = nodes ∧
    length nodes = length pr ∧
    Forall (λ ps, ∃ n e, zsl_heap zsl !! ps.1 = Some n ∧ Obj n = Some e ∧
                         GetRank fuel zsl (Score n) e = Ok ps.2) sums.
Proof.
  intros Hb Hids Hfuel.
  destruct (built_Inv zsl pr Hb) as (lp & HI & Hlp).
  destruct (built_length zsl pr lp HI Hlp) as [Hlen _].
  assert (NoDup (ids lp.*2)) as Hids'.
  { by apply (ids_NoDup _ pr). }
  exists lp.*1, (imap (λ (j : nat) p, (p, (0 + (1 - 0) + j)%Z)) lp.*1).
  split_and!.
  - apply Nodes_Inv; [done|lia].
  - unfold span_sums.
    apply (span_sums_from_spec fuel _ _ 0 1 lp.*1 0);
      [apply (Inv_chain0 _ _ HI)|apply (Inv_hgt_pos _ _ HI)|rewrite length_fmap; lia].
  - apply list_eq. intros i. rewrite list_lookup_fmap, list_lookup_imap.
    by destruct (lp.*1 !! i).
  - by rewrite length_fmap.
  - apply Forall_lookup. intros i [p r] Hi. rewrite list_lookup_imap in Hi.
    destruct (lp.*1 !! i) as [q|] eqn:Hq; [|done]. simpl in Hi. injection Hi as -> <-.
    destruct (Inv_lookup_node zsl lp i p HI Hq) as ([t [sc e]] & n & Hpe & Ht & Hn & Ho & Hs & _).
    simpl in *. subst t. exists n, e. split_and!; [done|done|].
    rewrite Hs. rewrite (GetRank_present fuel zsl lp i p sc e e); [feq|done|done|done|done|lia].
Qed.

(** C3.  In a list built by valid operations, the (score, identity) of a
    node is strictly less than that of the next node at level 0, in the
    order that compares scores first and identities on a tie. *)
Theorem C3_adjacent_nodes_ascend zsl pr fuel :
  built zsl pr →
  length pr ≤ fuel →
  ∃ nodes,
    Nodes fuel zsl = Ok nodes ∧
    length nodes = length pr ∧
    ∀ (i : nat) a b, nodes !! i = Some a → nodes !! S i = Some b →
      ∃ ka kb, node_key (zsl_heap zsl) a = Some ka ∧
               node_key (zsl_heap zsl) b = Some kb ∧ key_lt ka kb.
Proof.
  intros Hb Hfuel.
  destruct (built_Inv zsl pr Hb) as (lp & HI & Hlp).
  destruct (built_length zsl pr lp HI Hlp) as [Hlen _].
  exists lp.*1. split_and!.
  - apply Nodes_Inv; [done|lia].
  - by rewrite length_fmap.
  - intros i a b Ha Hb'.
    destruct (Inv_lookup_node zsl lp i a HI Ha) as (pa & _ & Hpa & _ & _ & _ & _ & _ & Hka).
    destruct (Inv_lookup_node zsl lp (S i) b HI Hb') as (pb & _ & Hpb & _ & _ & _ & _ & _ & Hkb).
    exists (key pa.2), (key pb.2). split_and!; [done|done|].
    apply (StronglySorted_lookup key_lt (key <$> lp.*2) i (S i));
      [apply (inv_sorted _ _ HI)| | |lia].
    + by rewrite !list_lookup_fmap, Hpa.
    + by rewrite !list_lookup_fmap, Hpb.
Qed.

(** C4, for distinct identities.  In a list built by valid operations
    whose entities have pairwise-distinct identities, GetElementByRank of a
    rank [k] between 1 and the length returns a node, and GetRank of the
    score and entity of that node returns [k]. *)
Theorem C4_GetRank_of_element_at_rank zsl pr fuel (k : Z) :
  built zsl pr →
  NoDup (ids pr) →
  (1 ≤ k ≤ Len zsl)%Z →
  length pr < fuel →
  ∃ p n e,
    GetElementByRank fuel zsl k = Ok (Some p) ∧
    zsl_heap zsl !! p = Some n ∧ Obj n = Some e ∧
    GetRank fuel zsl (Score n) e = Ok k.
Proof.
  intros Hb Hids Hk Hfuel.
  destruct (built_Inv zsl pr Hb) as (lp & HI & Hlp).
  destruct (built_length zsl pr lp HI Hlp) as [Hlen HLen].
  assert (NoDup (ids lp.*2)) as Hids'.
  { by apply (ids_NoDup _ pr). }
  assert (∃ j : nat, k = Z.of_nat (S j) ∧ j < length lp) as (j & -> & Hj).
  { exists (Z.to_nat k - 1). lia. }
  destruct (lookup_lt_is_Some_2 lp j Hj) as [[t [sc e]] Hpe].
  destruct (Inv_node_obj zsl lp _ HI (list_elem_of_lookup_2 _ _ _ Hpe)) as (n & Hn & Ho & Hs & _).
  simpl in Hn, Ho, Hs. exists t, n, e. split_and!; [|done|done|].
  - apply (GetElementByRank_in fuel zsl lp _ _ HI Hpe). lia.
  - rewrite Hs.
    apply (GetRank_present fuel zsl lp _ t sc e e); [done|done|done|done|lia].
Qed.

(** C5, the rank 0.  In a list built by valid operations,
    GetElementByRank returns no node for a negative rank and for a rank
    above the length, but for the rank 0 it returns the head sentinel, a
    node whose Obj is nil. *)
Theorem C5_GetElementByRank_zero_is_head zsl pr fuel :
  built zsl pr →
  length pr < fuel →
  GetElementByRank fuel zsl 0 = Ok (Some (zsl_head zsl)) ∧
  node_obj (zsl_heap zsl) (zsl_head zsl) = None ∧
  ∀ r : Z, (r < 0 ∨ Len zsl < r)%Z → GetElementByRank fuel zsl r = Ok None.
Proof.
  intros Hb Hfuel.
  destruct (built_Inv zsl pr Hb) as (lp & HI & Hlp).
  destruct (built_length zsl pr lp HI Hlp) as [Hlen HLen].
  split_and!.
  - apply (GetElementByRank_zero fuel zsl lp HI). lia.
  - destruct (inv_head _ _ HI) as [sc Hsc]. unfold shape_at in Hsc. unfold node_obj.
    destruct (zsl_heap zsl !! zsl_head zsl) as [n|]; [|done]. simpl in *. congruence.
  - intros r Hr. apply (GetElementByRank_out fuel zsl lp r HI); lia.
Qed.

(** C7.  In a list built by valid operations, Delete of a score and an
    entity that no node of the list matches in both score and identity
    returns nil and leaves the whole list as it was: the header fields and
    every node, with its links and spans. *)
Theorem C7_Delete_absent_changes_nothing zsl pr fuel nodes score obj :
  built zsl pr →
  length pr < fuel →
  Nodes fuel zsl = Ok nodes →
  (∀ p, p ∈ nodes → node_key (zsl_heap zsl) p ≠ Some (key (score, obj))) →
  Delete fuel score obj zsl = Ok (zsl, None).
Proof.
  intros Hb Hfuel Hnodes Habs.
  destruct (built_Inv zsl pr Hb) as (lp & HI & Hlp).
  destruct (built_length zsl pr lp HI Hlp) as [Hlen _].
  rewrite (Nodes_Inv fuel zsl lp HI) in Hnodes by lia. injection Hnodes as <-.
  destruct (Delete_spec fuel score obj zsl lp HI)
    as [[_ Hdel]|(lp1 & t & e & lp2 & zsl' & Hlp' & Huuid & _)]; [lia|done|].
  exfalso. apply (Habs t).
  - rewrite Hlp', fmap_app, fmap_cons. set_solver.
  - assert ((t, (score, e)) ∈ lp) as Hin by (rewrite Hlp'; set_solver).
    destruct (Inv_node_obj zsl lp _ HI Hin) as (_ & _ & _ & _ & _ & Hk). simpl in Hk.
    rewrite Hk. unfold key. simpl. by rewrite Huuid.
Qed.


(** C9, counting from the largest.  In a list built by valid operations, Walk follows
    the level-0 chain in the direction of its flag and calls the inspector
    once for each node it visits, until the inspector answers stop, with
    the entity of the node and the number [length - position + 1], where
    [position] is the 1-based position of the node in ascending
    (score, identity) order: the rank counted from the largest entity.
    Walk writes nothing, so the list is as before. *)
Theorem C9_Walk_visits {St : Type} (fn : Z → option E → St → bool * St)
    zsl pr fuel (startTail : bool) (st : St) :
  built zsl pr →
  length pr ≤ fuel →
  ∃ nodes,
    Nodes fuel zsl = Ok nodes ∧
    let visits := imap (λ (j : nat) p, ((Len zsl - Z.of_nat j)%Z,
                                        node_obj (zsl_heap zsl) p)) nodes in
    Walk fn fuel zsl startTail st =
    Ok (visit_all fn (if startTail then reverse visits else visits) st).
Proof.
  intros Hb Hfuel.
  destruct (built_Inv zsl pr Hb) as (lp & HI & Hlp).
  destruct (built_length zsl pr lp HI Hlp) as [Hlen HLen].
  exists lp.*1. split; [apply Nodes_Inv; [done|lia]|].
  intros visits. unfold Walk. destruct startTail.
  - rewrite (inv_tail _ _ HI).
    rewrite (Walk_tail_spec fn fuel (zsl_heap zsl) lp.*1 1 st);
      [|apply (inv_back _ _ HI)|apply (Inv_nodes_in_heap _ _ HI)|rewrite length_fmap; lia].
    do 2 f_equal. unfold visits. rewrite imap_reverse. apply imap_ext.
    intros i x Hi. apply lookup_lt_Some in Hi.
    rewrite length_reverse in Hi. rewrite length_fmap in *. feq.
  - destruct (chain0_head _ _ _ _ _ (Inv_chain0 _ _ HI) (Inv_hgt_pos _ _ HI))
      as (s & Hs & Hfw & _).
    rewrite (load_level_Ok _ _ _ _ Hs). simpl. rewrite Hfw.
    apply (Walk_head_spec fn fuel (zsl_heap zsl) (zsl_head zsl) 0 1 lp.*1);
      [apply (Inv_chain0 _ _ HI)|apply (Inv_hgt_pos _ _ HI)|rewrite length_fmap; lia].
Qed.

(** C10.  Inserting a batch of entities with pairwise-distinct
    (score, identity) pairs into a fresh list, and then deleting each of
    them with its score, in any order, succeeds at every step (each Delete
    returns the node it removed) and ends with length 0, level 1 and a nil
    tail.  Each Insert comes with the random draws it consumes. *)
Theorem C10_insert_then_delete_all (batch : list (list Z * (Z * E)))
    (dels : list (Z * E)) fuel :
  NoDup (key <$> batch.*2) →
  dels ≡ₚ batch.*2 →
  Forall (λ b, ∃ lv rnd', randLevel b.1 = Ok (lv, rnd')) batch →
  length batch < fuel →
  ∃ z1 z2 rs,
    Insert_all fuel batch NewZSkipList = Ok z1 ∧
    Delete_all fuel dels z1 = Ok (z2, rs) ∧
    Forall is_Some rs ∧ length rs = length dels ∧
    zsl_length z2 = 0%Z ∧ zsl_level z2 = 1 ∧ zsl_tail z2 = None.
Proof.
  intros Hnd Hperm Hrnd Hfuel.
  destruct (Insert_all_Inv fuel batch NewZSkipList [] Inv_new)
    as (z1 & lp & Hins & HI & Hlp); [by rewrite app_nil_r|done|simpl; lia|].
  rewrite app_nil_r in Hlp.
  assert (length lp = length batch) as Hlen.
  { apply Permutation_length in Hlp. by rewrite !length_fmap in Hlp. }
  destruct (Delete_all_Inv fuel dels z1 lp HI) as (z2 & rs & Hdel & HI2 & Hrs & Hlrs);
    [by rewrite Hlp|lia|].
  exists z1, z2, rs. split_and!; [done|done|done|done| | |].
  - by rewrite (inv_length _ _ HI2).
  - pose proof (inv_level _ _ HI2) as Hl. pose proof (inv_tight _ _ HI2) as Ht.
    destruct (decide (1 < zsl_level z2)) as [Hgt|]; [|lia].
    apply Ht, Exists_nil in Hgt. done.
  - by rewrite (inv_tail _ _ HI2).
Qed.

End claims.
(** * The concrete lists *)

Lemma built_zA : built Ex.zA [(10%Z, Ex.A)].
Proof.
  apply (built_Insert NewZSkipList [] 4 Ex.one 10 Ex.A Ex.zA 1 []);
    [apply built_new|apply not_elem_of_nil|by vm_compute].
Qed.

Lemma built_zAB : built Ex.zAB [(20%Z, Ex.B); (10%Z, Ex.A)].
Proof.
  apply (built_Insert Ex.zA _ 4 Ex.two 20 Ex.B Ex.zAB 2 []);
    [apply built_zA| |by vm_compute].
  vm_compute. intros Hin. apply list_elem_of_singleton in Hin. discriminate Hin.
Qed.

Lemma built_zABC : built Ex.zABC [(30%Z, Ex.C); (20%Z, Ex.B); (10%Z, Ex.A)].
Proof.
  apply (built_Insert Ex.zAB _ 4 Ex.one 30 Ex.C Ex.zABC 3 []);
    [apply built_zAB| |by vm_compute].
  vm_compute. intros Hin.
  apply elem_of_cons in Hin as [Hin|Hin]; [discriminate Hin|].
  apply list_elem_of_singleton in Hin. discriminate Hin.
Qed.

Lemma built_zP : built Ex.zP [(5%Z, Ex.P)].
Proof.
  apply (built_Insert NewZSkipList [] 4 Ex.two 5 Ex.P Ex.zP 1 []);
    [apply built_new|apply not_elem_of_nil|by vm_compute].
Qed.

(** [Q] has the identity of [P] and another score: the pair is fresh. *)
Lemma built_zPQ : built Ex.zPQ [(10%Z, Ex.Q); (5%Z, Ex.P)].
Proof.
  apply (built_Insert Ex.zP _ 4 Ex.one 10 Ex.Q Ex.zPQ 2 []);
    [apply built_zP| |by vm_compute].
  vm_compute. intros Hin. apply list_elem_of_singleton in Hin. discriminate Hin.
Qed.

Lemma NoDup_3 {A} (a b c : A) : a ≠ b → a ≠ c → b ≠ c → NoDup [a; b; c].
Proof.
  intros. repeat (apply NoDup_cons; split); [set_solver|set_solver|set_solver|apply NoDup_nil_2].
Qed.

Lemma NoDup_2 {A} (a b : A) : a ≠ b → NoDup [a; b].
Proof. intros. repeat (apply NoDup_cons; split); [set_solver|set_solver|apply NoDup_nil_2]. Qed.

(** * Instances and counterexamples *)

Lemma C1_witness : GetRank 4 Ex.zABC 20 Ex.B = Ok 2%Z.
Proof.
  apply (C1_GetRank_is_sorted_position Ex.zABC
           [(30%Z, Ex.C); (20%Z, Ex.B); (10%Z, Ex.A)]
           [(10%Z, Ex.A); (20%Z, Ex.B); (30%Z, Ex.C)] 1 20 Ex.B 4).
  - apply built_zABC.
  - vm_compute. apply NoDup_3; discriminate.
  - apply (reverse_Permutation [(30%Z, Ex.C); (20%Z, Ex.B); (10%Z, Ex.A)]).
  - repeat constructor; vm_compute; auto.
  - reflexivity.
  - simpl. lia.
Defined.

(** C1, for distinct pairs only.  Pairwise-distinct (score, identity) pairs are not
    enough: after the Inserts of [P] (score 5) and [Q] (score 10, the
    identity of [P]), [Q] is second in the sorted order and GetRank
    returns 1 for it. *)
Lemma C1_counterexample :
  ¬ (∀ (zsl : ZSkipList testPlayer) (pr srt : list (Z * testPlayer)) (k : nat)
       (score : Z) (obj : testPlayer) (fuel : nat),
       built zsl pr →
       NoDup (key <$> pr) →
       srt ≡ₚ pr →
       StronglySorted (λ a b, key_le (key a) (key b)) srt →
       srt !! k = Some (score, obj) →
       length pr < fuel →
       GetRank fuel zsl score obj = Ok (Z.of_nat (S k))).
Proof.
  intros Hclaim.
  specialize (Hclaim Ex.zPQ [(10%Z, Ex.Q); (5%Z, Ex.P)] [(5%Z, Ex.P); (10%Z, Ex.Q)]
                1 10%Z Ex.Q 3).
  assert (GetRank 3 Ex.zPQ 10 Ex.Q = Ok 1%Z) as Hrun by (by vm_compute).
  rewrite Hrun in Hclaim.
  assert (Ok (A := Z) 1%Z = Ok (Z.of_nat 2)) as Heq; [|discriminate Heq].
  apply Hclaim.
  - apply built_zPQ.
  - vm_compute. apply NoDup_2. discriminate.
  - apply perm_swap.
  - repeat constructor; vm_compute; auto.
  - reflexivity.
  - simpl. lia.
Qed.

Lemma C2_witness :
  ∃ nodes sums,
    Nodes 3 Ex.zAB = Ok nodes ∧
    span_sums 3 Ex.zAB = Ok sums ∧
    sums.*1 = nodes ∧
    length nodes = 2 ∧
    Forall (λ ps, ∃ n e, zsl_heap Ex.zAB !! ps.1 = Some n ∧ Obj n = Some e ∧
                         GetRank 3 Ex.zAB (Score n) e = Ok ps.2) sums.
Proof.
  apply (C2_span_sum_is_GetRank Ex.zAB [(20%Z, Ex.B); (10%Z, Ex.A)] 3).
  - apply built_zAB.
  - vm_compute. apply NoDup_2. discriminate.
  - simpl. lia.
Defined.

(** C2, for every list built by valid operations.  Inserts of fresh
    (score, identity) pairs are not enough: in the list of [P] (score 5)
    and [Q] (score 10, the identity of [P]) the level-0 spans up to the
    node of [Q] sum to 2, and GetRank of the score and entity of that node
    returns 1. *)
Lemma C2_counterexample :
  ¬ (∀ (zsl : ZSkipList testPlayer) (pr : list (Z * testPlayer)) (fuel : nat),
       built zsl pr →
       length pr < fuel →
       ∃ nodes sums,
         Nodes fuel zsl = Ok nodes ∧
         span_sums fuel zsl = Ok sums ∧
         sums.*1 = nodes ∧
         length nodes = length pr ∧
         Forall (λ ps, ∃ n e, zsl_heap zsl !! ps.1 = Some n ∧ Obj n = Some e ∧
                              GetRank fuel zsl (Score n) e = Ok ps.2) sums).
Proof.
  intros Hclaim.
  destruct (Hclaim Ex.zPQ [(10%Z, Ex.Q); (5%Z, Ex.P)] 3 built_zPQ)
    as (nodes & sums & _ & Hs & _ & _ & Hall); [simpl; lia|].
  assert (span_sums 3 Ex.zPQ = Ok [(1, 1%Z); (2, 2%Z)]) as Hrun by (by vm_compute).
  rewrite Hrun in Hs. injection Hs as <-.
  apply Forall_cons in Hall as [_ Hall].
  apply Forall_cons in Hall as [(n & e & Hn & Ho & Hr) _].
  vm_compute in Hn. injection Hn as <-.
  vm_compute in Ho. injection Ho as <-.
  vm_compute in Hr. discriminate Hr.
Qed.

Lemma C3_witness :
  ∃ nodes,
    Nodes 3 Ex.zABC = Ok nodes ∧
    length nodes = 3 ∧
    ∀ (i : nat) a b, nodes !! i = Some a → nodes !! S i = Some b →
      ∃ ka kb, node_key (zsl_heap Ex.zABC) a = Some ka ∧
               node_key (zsl_heap Ex.zABC) b = Some kb ∧ key_lt ka kb.
Proof.
  apply (C3_adjacent_nodes_ascend Ex.zABC [(30%Z, Ex.C); (20%Z, Ex.B); (10%Z, Ex.A)] 3).
  - apply built_zABC.
  - simpl. lia.
Defined.

Lemma C4_witness :
  ∃ p n e,
    GetElementByRank 4 Ex.zABC 2 = Ok (Some p) ∧
    zsl_heap Ex.zABC !! p = Some n ∧ Obj n = Some e ∧
    GetRank 4 Ex.zABC (Score n) e = Ok 2%Z.
Proof.
  apply (C4_GetRank_of_element_at_rank Ex.zABC
           [(30%Z, Ex.C); (20%Z, Ex.B); (10%Z, Ex.A)] 4 2).
  - apply built_zABC.
  - vm_compute. apply NoDup_3; discriminate.
  - vm_compute. split; discriminate.
  - simpl. lia.
Defined.

(** C4, for every list built by valid operations.  In the list of [P]
    (score 5) and [Q] (score 10, the identity of [P]), GetElementByRank of
    the rank 2 returns the node of [Q], and GetRank of the score and entity
    of that node returns 1. *)
Lemma C4_counterexample :
  ¬ (∀ (zsl : ZSkipList testPlayer) (pr : list (Z * testPlayer)) (fuel : nat) (k : Z),
       built zsl pr →
       (1 ≤ k ≤ Len zsl)%Z →
       length pr < fuel →
       ∃ p n e,
         GetElementByRank fuel zsl k = Ok (Some p) ∧
         zsl_heap zsl !! p = Some n ∧ Obj n = Some e ∧
         GetRank fuel zsl (Score n) e = Ok k).
Proof.
  intros Hclaim.
  destruct (Hclaim Ex.zPQ [(10%Z, Ex.Q); (5%Z, Ex.P)] 3 2%Z built_zPQ)
    as (p & n & e & Hp & Hn & Ho & Hr); [vm_compute; split; discriminate|simpl; lia|].
  vm_compute in Hp. injection Hp as <-.
  vm_compute in Hn. injection Hn as <-.
  vm_compute in Ho. injection Ho as <-.
  vm_compute in Hr. discriminate Hr.
Qed.

Lemma C5_witness :
  GetElementByRank 1 (NewZSkipList (E := testPlayer)) 0 = Ok (Some 0) ∧
  node_obj (zsl_heap (NewZSkipList (E := testPlayer))) 0 = None ∧
  ∀ r : Z, (r < 0 ∨ 0 < r)%Z →
           GetElementByRank 1 (NewZSkipList (E := testPlayer)) r = Ok None.
Proof.
  apply (C5_GetElementByRank_zero_is_head (NewZSkipList (E := testPlayer)) [] 1).
  - apply built_new.
  - simpl. lia.
Defined.

(** C6, a score that is absent.  The list that holds the one entity [A] with
    the score 10 has no node of score 20, and GetRank of the score 20 and
    [A] returns 1, not 0: the match after each level compares identities
    only. *)
Theorem C6_GetRank_ignores_score :
  built Ex.zA [(10%Z, Ex.A)] ∧
  Nodes 2 Ex.zA = Ok [1] ∧
  node_key (zsl_heap Ex.zA) 1 = Some (10%Z, 1%Z) ∧
  key (20%Z, Ex.A) = (20%Z, 1%Z) ∧
  GetRank 2 Ex.zA 20 Ex.A = Ok 1%Z.
Proof. split; [apply built_zA|]. by vm_compute. Qed.

Lemma C7_witness : Delete 2 20 Ex.A Ex.zA = Ok (Ex.zA, None).
Proof.
  apply (C7_Delete_absent_changes_nothing Ex.zA [(10%Z, Ex.A)] 2 [1] 20 Ex.A).
  - apply built_zA.
  - simpl. lia.
  - by vm_compute.
  - intros p Hp. apply list_elem_of_singleton in Hp. subst p. vm_compute. discriminate.
Defined.



Lemma C9_witness :
  ∃ nodes,
    Nodes 3 Ex.zAB = Ok nodes ∧
    let visits := imap (λ (j : nat) p, ((Len Ex.zAB - Z.of_nat j)%Z,
                                        node_obj (zsl_heap Ex.zAB) p)) nodes in
    Walk Ex.record 3 Ex.zAB false [] = Ok (visit_all Ex.record visits []).
Proof.
  apply (C9_Walk_visits Ex.record Ex.zAB [(20%Z, Ex.B); (10%Z, Ex.A)] 3 false []).
  - apply built_zAB.
  - simpl. lia.
Defined.

(** C9, counting from the smallest.  The number passed to the inspector is not the
    position in ascending order: from the head of the list of [A] and [B],
    Walk calls the inspector with 2 for [A] and then with 1 for [B]. *)
Lemma C9_counterexample :
  ¬ (∀ (St : Type) (fn : Z → option testPlayer → St → bool * St)
       (zsl : ZSkipList testPlayer) (pr : list (Z * testPlayer)) (fuel : nat)
       (startTail : bool) (st : St) (nodes : list ptr),
       built zsl pr →
       length pr ≤ fuel →
       Nodes fuel zsl = Ok nodes →
       let visits := imap (λ (j : nat) p, ((1 + Z.of_nat j)%Z,
                                           node_obj (zsl_heap zsl) p)) nodes in
       Walk fn fuel zsl startTail st =
       Ok (visit_all fn (if startTail then reverse visits else visits) st)).
Proof.
  intros Hclaim.
  specialize (Hclaim _ Ex.record Ex.zAB [(20%Z, Ex.B); (10%Z, Ex.A)] 3 false [] [1; 2]).
  assert (Walk Ex.record 3 Ex.zAB false [] = Ok [(2%Z, Some Ex.A); (1%Z, Some Ex.B)])
    as Hrun by (by vm_compute).
  rewrite Hrun in Hclaim.
  assert (Ok [(2%Z, Some Ex.A); (1%Z, Some Ex.B)] =
          Ok [(1%Z, Some Ex.A); (2%Z, Some Ex.B)]) as Heq; [|discriminate Heq].
  apply Hclaim.
  - apply built_zAB.
  - simpl. lia.
  - by vm_compute.
Qed.

Lemma C10_witness :
  ∃ z1 z2 rs,
    Insert_all 3 [(Ex.one, (10%Z, Ex.A)); (Ex.two, (20%Z, Ex.B))] NewZSkipList = Ok z1 ∧
    Delete_all 3 [(20%Z, Ex.B); (10%Z, Ex.A)] z1 = Ok (z2, rs) ∧
    Forall is_Some rs ∧ length rs = 2 ∧
    zsl_length z2 = 0%Z ∧ zsl_level z2 = 1 ∧ zsl_tail z2 = None.
Proof.
  apply (C10_insert_then_delete_all
           [(Ex.one, (10%Z, Ex.A)); (Ex.two, (20%Z, Ex.B))]
           [(20%Z, Ex.B); (10%Z, Ex.A)] 3).
  - vm_compute. apply NoDup_2. discriminate.
  - apply perm_swap.
  - repeat constructor; eexists _, _; by vm_compute.
  - simpl. lia.
Defined.
(** * More of the code: helper lemmas *)

Section proofs18.
Context {E : Type} `{RankInterface E}.
Implicit Types (h : list (ZSkipListNode E)) (p q x u cur hd : ptr) (i j : nat).
Implicit Types (s : zskipListLevel) (n : ZSkipListNode E) (l : list ptr) (c k : Z).
Implicit Types (lp : list (ptr * (Z * E))) (zsl : ZSkipList E) (pr : list (Z * E)).

(** ** What a write never changes *)

Lemma same_shape_refl h : same_shape h h.
Proof. by split. Qed.

Lemma same_shape_trans h1 h2 h3 : same_shape h1 h2 → same_shape h2 h3 → same_shape h1 h3.
Proof. intros [L1 S1] [L2 S2]. split; [congruence|]. intros p. by rewrite S2, S1. Qed.

Lemma store_level_shape h p i s h' : store_level h p i s = Ok h' → same_shape h h'.
Proof.
  unfold store_level, load. destruct (h !! p) as [n|] eqn:Hn; simpl; [|done].
  case_decide; [|done]. intros [= <-]. split; [apply length_insert|].
  intros q. pose proof (shape_at_put_slot h p i s q) as Hs. unfold put_slot in Hs.
  by rewrite Hn in Hs.
Qed.

Lemma set_span_shape h p i v h' : set_span h p i v = Ok h' → same_shape h h'.
Proof.
  unfold set_span. intros Hx. apply bind_Ok in Hx as (s0 & _ & Hx).
  by eapply store_level_shape.
Qed.

Lemma set_forward_shape h p i v h' : set_forward h p i v = Ok h' → same_shape h h'.
Proof.
  unfold set_forward. intros Hx. apply bind_Ok in Hx as (s0 & _ & Hx).
  by eapply store_level_shape.
Qed.

Lemma set_backward_shape h p v h' : set_backward h p v = Ok h' → same_shape h h'.
Proof.
  unfold set_backward, load. destruct (h !! p) as [n|] eqn:Hn; simpl; [|done].
  intros [= <-]. split; [apply length_insert|].
  intros q. pose proof (shape_at_put_back h p v q) as Hs. unfold put_back in Hs.
  by rewrite Hn in Hs.
Qed.

Lemma for_up_inv {T} (P : T → Prop) (body : nat → T → result T) m a t t' :
  (∀ j t1 t2, body j t1 = Ok t2 → P t1 → P t2) →
  for_up m a body t = Ok t' → P t → P t'.
Proof.
  intros Hbody. revert a t. induction m as [|m IH]; intros a t; simpl.
  - by intros [= <-].
  - intros Hf Ht. apply bind_Ok in Hf as (t1 & Hb & Hf). eapply IH; [done|]. by eapply Hbody.
Qed.

Lemma deleteNode_unlink_shape x (update : list (option ptr)) i h h' :
  deleteNode_unlink x update i h = Ok h' → same_shape h h'.
Proof.
  unfold deleteNode_unlink. intros Hx.
  apply bind_Ok in Hx as (u & _ & Hx). apply bind_Ok in Hx as (su & _ & Hx).
  destruct (decide (forward su = Some x)).
  - apply bind_Ok in Hx as (sx & _ & Hx). apply bind_Ok in Hx as (h1 & H1 & Hx).
    apply bind_Ok in Hx as (sx' & _ & Hx).
    eapply same_shape_trans; [by eapply set_span_shape|by eapply set_forward_shape].
  - by eapply set_span_shape.
Qed.

Lemma deleteNode_shape zsl x (update : list (option ptr)) zsl' :
  deleteNode zsl x update = Ok zsl' →
  zsl_head zsl' = zsl_head zsl ∧ same_shape (zsl_heap zsl) (zsl_heap zsl').
Proof.
  unfold deleteNode. intros Hx.
  apply bind_Ok in Hx as (h1 & H1 & Hx). apply bind_Ok in Hx as (sx & _ & Hx).
  apply bind_Ok in Hx as (nx & _ & Hx). apply bind_Ok in Hx as ([h2 tl] & H2 & Hx).
  apply bind_Ok in Hx as (lvl & _ & Hx). injection Hx as <-. simpl. split; [done|].
  assert (same_shape (zsl_heap zsl) h1) as S1.
  { eapply (for_up_inv (same_shape (zsl_heap zsl))); [|exact H1|apply same_shape_refl].
    intros j t1 t2 Hb Ht. eapply same_shape_trans; [done|]. by eapply deleteNode_unlink_shape. }
  eapply same_shape_trans; [exact S1|].
  destruct (forward sx) as [y|].
  - apply bind_Ok in H2 as (h' & Hb & H2). injection H2 as <- _. by eapply set_backward_shape.
  - injection H2 as <- _. apply same_shape_refl.
Qed.

(** Delete changes no [Obj], no [Score] and no number of levels, and
    allocates nothing. *)
Lemma Delete_shape fuel score obj zsl zsl' r :
  Delete fuel score obj zsl = Ok (zsl', r) →
  zsl_head zsl' = zsl_head zsl ∧ same_shape (zsl_heap zsl) (zsl_heap zsl').
Proof.
  unfold Delete. intros Hx.
  apply bind_Ok in Hx as ([x update] & _ & Hx). apply bind_Ok in Hx as (sx & _ & Hx).
  destruct (forward sx) as [t|]; cycle 1.
  { injection Hx as <- _. split; [done|apply same_shape_refl]. }
  apply bind_Ok in Hx as (nt & _ & Hx).
  destruct (score =? Score nt)%Z; cycle 1.
  { injection Hx as <- _. split; [done|apply same_shape_refl]. }
  destruct (Obj nt) as [o|]; [|done].
  destruct (Uuid o =? Uuid obj)%Z; cycle 1.
  { injection Hx as <- _. split; [done|apply same_shape_refl]. }
  apply bind_Ok in Hx as (z & Hd & Hx). injection Hx as <- _.
  by eapply deleteNode_shape.
Qed.

(** ** The level of a list is fixed by the heights of its nodes *)

Lemma Inv_level_unique z1 z2 lp :
  Inv z1 lp → Inv z2 lp →
  (∀ p, p ∈ lp.*1 → hgt (zsl_heap z2) p = hgt (zsl_heap z1) p) →
  zsl_level z2 = zsl_level z1.
Proof.
  intros H1 H2 Hh.
  pose proof (inv_level _ _ H1) as L1. pose proof (inv_level _ _ H2) as L2.
  pose proof (inv_nodes _ _ H1) as N1. pose proof (inv_nodes _ _ H2) as N2.
  rewrite Forall_forall in N1, N2.
  destruct (decide (zsl_level z1 < zsl_level z2)) as [Hlt|Hge].
  - destruct (proj1 (Exists_exists _ _) (inv_tight _ _ H2 ltac:(lia))) as (pe & Hin & Hpe).
    destruct (N1 _ Hin) as [_ Hb]. rewrite Hh in Hpe by (apply list_elem_of_fmap; by exists pe).
    lia.
  - destruct (decide (zsl_level z2 < zsl_level z1)) as [Hlt|]; [|lia].
    destruct (proj1 (Exists_exists _ _) (inv_tight _ _ H1 ltac:(lia))) as (pe & Hin & Hpe).
    destruct (N2 _ Hin) as [_ Hb]. rewrite Hh in Hb by (apply list_elem_of_fmap; by exists pe).
    lia.
Qed.

(** ** Insert, with all that a caller can see *)

Lemma Insert_full fuel rnd score obj zsl lp lv rnd' :
  Inv zsl lp →
  key (score, obj) ∉ key <$> lp.*2 →
  length lp < fuel →
  randLevel rnd = Ok (lv, rnd') →
  ∃ zsl' lp1 lp2,
    Insert fuel rnd score obj zsl = Ok (zsl', length (zsl_heap zsl), rnd') ∧
    lp = lp1 ++ lp2 ∧
    Inv zsl' (lp1 ++ (length (zsl_heap zsl), (score, obj)) :: lp2) ∧
    zsl_head zsl' = zsl_head zsl ∧
    zsl_level zsl' = zsl_level zsl `max` lv ∧
    zsl_length zsl' = (zsl_length zsl + 1)%Z ∧
    length (zsl_heap zsl') = S (length (zsl_heap zsl)) ∧
    (∀ p, p < length (zsl_heap zsl) →
          shape_at (zsl_heap zsl') p = shape_at (zsl_heap zsl) p) ∧
    shape_at (zsl_heap zsl') (length (zsl_heap zsl)) = Some (Some obj, score, lv).
Proof.
  intros HI Hfresh Hfuel Hrl.
  destruct (Insert_Inv fuel rnd score obj zsl lp lv rnd' HI Hfresh Hfuel Hrl)
    as (zsl' & lp1 & lp2 & Hins & Hlp & HI').
  exists zsl', lp1, lp2. split_and!; [done|done|done|..].
  all: destruct zsl as [h hd tl len zl].
  all: destruct (sorted_split (λ a, key_lt a (key (score, obj))) lp)
         as (l1 & l2 & Hl & H1 & H2);
         [intros a b Hab Hb; by eapply key_lt_trans|apply (inv_sorted _ _ HI)|].
  all: destruct (Insert_run fuel rnd score obj h hd tl len zl lp l1 l2 lv rnd' HI Hl H1 H2)
         as (h' & tl' & Hrun & L' & S' & Sx & _);
         [rewrite Hl, length_app in Hfuel; lia|done|].
  all: rewrite Hins in Hrun; injection Hrun as ->; simpl; done.
Qed.

(** The nodes before the new one have smaller keys, those after it larger
    ones. *)
Lemma sorted_around (la lb : list (Z * Z)) (a : Z * Z) :
  StronglySorted key_lt (la ++ a :: lb) →
  Forall (λ b, key_lt b a) la ∧ Forall (λ b, key_lt a b) lb.
Proof.
  rewrite StronglySorted_app, StronglySorted_cons. intros (H1 & _ & H2 & _).
  split; [|done]. apply Forall_forall. intros b Hb. apply H1; [done|set_solver].
Qed.

(** ** Positions along a level *)

(** The forward link of the start of a chain leads to the first node with
    enough levels, and spans the distance to it. *)
Lemma chain_first h i cur c k l q d :
  chain h i cur c k l → link h cur i = Some (Some (q, d)) →
  ∃ j : nat, l !! j = Some q ∧ d = (k + j - c)%Z ∧ i < hgt h q ∧
             Forall (λ p, hgt h p ≤ i) (take j l).
Proof.
  revert k. induction l as [|p l IH]; intros k; simpl.
  - by intros ->.
  - case_decide.
    + intros [H1 _]. rewrite H1. intros [= -> <-]. exists 0. split_and!; [done|lia|done|constructor].
    + intros Hc Hl. destruct (IH _ Hc Hl) as (j & Hj & -> & Hq & Hall).
      exists (S j). split_and!; [done|lia|done|]. simpl. constructor; [lia|done].
Qed.

(** A chain starts again at each of its nodes with enough levels. *)
Lemma chain_from h i cur c k l (j : nat) a :
  chain h i cur c k l → l !! j = Some a → i < hgt h a →
  chain h i a (k + j)%Z (k + j + 1)%Z (drop (S j) l).
Proof.
  revert cur c k j. induction l as [|p l IH]; intros cur c k j; simpl; [done|].
  destruct j as [|j]; simpl.
  - intros Hc [= ->] Ha. rewrite decide_True in Hc by done. destruct Hc as [_ Hc].
    by replace (k + 0%nat)%Z with k by lia.
  - case_decide.
    + intros [_ Hc] Ha Hh. specialize (IH _ _ _ _ Hc Ha Hh).
      by replace (k + S j)%Z with (k + 1 + j)%Z by lia.
    + intros Hc Ha Hh. specialize (IH _ _ _ _ Hc Ha Hh).
      by replace (k + S j)%Z with (k + 1 + j)%Z by lia.
Qed.

Lemma Next_lookup h cur c k l (j : nat) a :
  chain h 0 cur c k l → Forall (λ p, 0 < hgt h p) l → l !! j = Some a →
  Next h a = Ok (l !! S j).
Proof.
  intros Hc Hp Ha.
  assert (0 < hgt h a) as Hh.
  { rewrite Forall_forall in Hp. apply Hp. by eapply list_elem_of_lookup_2. }
  pose proof (chain_from _ _ _ _ _ _ _ _ Hc Ha Hh) as Hc'.
  rewrite (Next_chain _ _ _ _ _ Hc'); [|by apply Forall_drop].
  f_equal. rewrite head_lookup, lookup_drop. f_equal. lia.
Qed.

Lemma Before_lookup h l (j : nat) a :
  bchain h None l → l !! j = Some a →
  Before h a = Ok (match j with O => None | S j' => l !! j' end).
Proof.
  intros Hb Ha. apply list_elem_of_split_length in Ha as (la & lb & -> & ->).
  pose proof (bchain_lookup _ _ _ _ _ Hb) as Hba.
  unfold back_at in Hba. unfold Before, load.
  destruct (h !! a) as [n|]; simpl in *; [|done]. injection Hba as ->. f_equal.
  destruct la as [|y la] using rev_ind; [done|].
  rewrite last_snoc, length_app. simpl.
  replace (length la + 1) with (S (length la)) by lia.
  rewrite lookup_app_l by (rewrite length_app; simpl; lia).
  by rewrite lookup_app_r, Nat.sub_diag by lia.
Qed.

(** ** From the entities to the nodes *)

Lemma Inv_perm_lookup zsl lp pr (se : Z * E) :
  Inv zsl lp → lp.*2 ≡ₚ pr → se ∈ pr → ∃ (k : nat) t, lp !! k = Some (t, se).
Proof.
  intros HI Hp Hin. rewrite <- Hp in Hin.
  apply list_elem_of_fmap in Hin as ([t se'] & -> & Hin).
  apply list_elem_of_lookup in Hin as [k Hk]. by exists k, t.
Qed.

Lemma key_in_perm lp pr (K : Z * Z) : lp.*2 ≡ₚ pr → K ∈ key <$> pr → K ∈ key <$> lp.*2.
Proof. intros Hp. by rewrite Hp. Qed.

End proofs18.
(** * More of the code: Insert, Delete and the accessors *)

Section extras.
Context {E : Type} `{RankInterface E}.
Implicit Types (h : list (ZSkipListNode E)) (p q x u cur hd : ptr) (i j : nat).
Implicit Types (s : zskipListLevel) (n : ZSkipListNode E) (l : list ptr) (c k : Z).
Implicit Types (lp : list (ptr * (Z * E))) (zsl : ZSkipList E) (pr : list (Z * E)).

Lemma node_views_shape h h' p :
  shape_at h' p = shape_at h p →
  node_obj h' p = node_obj h p ∧ node_key h' p = node_key h p.
Proof.
  unfold shape_at, node_obj, node_key.
  destruct (h' !! p) as [n'|], (h !! p) as [n|]; simpl; [|done|done|done].
  intros [= -> -> _]. done.
Qed.

Lemma shape_at_node h p o sc lv :
  shape_at h p = Some (o, sc, lv) →
  ∃ n, h !! p = Some n ∧ Obj n = o ∧ Score n = sc ∧ length (level n) = lv.
Proof.
  unfold shape_at. destruct (h !! p) as [n|]; simpl; [|done]. intros [= <- <- <-]. by exists n.
Qed.

Lemma hgt_node h p n : h !! p = Some n → hgt h p = length (level n).
Proof. unfold hgt, shape_at. by intros ->. Qed.

Lemma sorted_NoDup (l : list (Z * Z)) : StronglySorted key_lt l → NoDup l.
Proof.
  induction 1 as [|a l Hs IH Hall]; [apply NoDup_nil_2|].
  apply NoDup_cons. split; [|done]. intros Hin. rewrite Forall_forall in Hall.
  by eapply key_lt_irrefl, Hall.
Qed.

Lemma split_unique {A B} (f : A → B) (l1 l2 l1' l2' : list A) a a' :
  NoDup (f <$> (l1 ++ a :: l2)) → l1 ++ a :: l2 = l1' ++ a' :: l2' → f a = f a' →
  l1 = l1' ∧ a = a' ∧ l2 = l2'.
Proof.
  revert l1'. induction l1 as [|b l1 IH]; intros l1' Hnd Heq Hf.
  - destruct l1' as [|b' l1']; simplify_eq/=; [done|].
    exfalso. apply NoDup_cons in Hnd as [Hn _]. apply Hn. rewrite Hf.
    apply list_elem_of_fmap. exists a'. split; [done|set_solver].
  - destruct l1' as [|b' l1']; simplify_eq/=.
    + exfalso. apply NoDup_cons in Hnd as [Hn _]. apply Hn. rewrite <- Hf.
      apply list_elem_of_fmap. exists a. split; [done|set_solver].
    + apply NoDup_cons in Hnd as [_ Hnd].
      destruct (IH l1' Hnd) as (-> & -> & ->); done.
Qed.

Lemma fresh_of_ids pr score obj :
  NoDup (ids ((score, obj) :: pr)) → key (score, obj) ∉ key <$> pr.
Proof.
  unfold ids. rewrite fmap_cons, NoDup_cons. intros [Hn _] Hin. apply Hn.
  apply list_elem_of_fmap in Hin as (se & Hk & Hin). apply list_elem_of_fmap.
  exists se. split; [|done]. unfold key in Hk. simpl in *. congruence.
Qed.

Lemma filter_all {A} (P : A → Prop) `{!∀ a, Decision (P a)} (l : list A) :
  Forall P l → filter P l = l.
Proof.
  induction 1 as [|a l Ha _ IH]; [done|]. rewrite filter_cons_True by done. by rewrite IH.
Qed.

Lemma filter_none {A} (P : A → Prop) `{!∀ a, Decision (P a)} (l : list A) :
  Forall (λ a, ¬ P a) l → filter P l = [].
Proof. induction 1 as [|a l Ha _ IH]; [done|]. by rewrite filter_cons_False. Qed.

(** The entities before the place of a key are those with a smaller key. *)
Lemma count_smaller lp1 lp2 pr (K : Z * Z) :
  (lp1 ++ lp2).*2 ≡ₚ pr →
  Forall (λ pe, key_lt (key pe.2) K) lp1 →
  Forall (λ pe, ¬ key_lt (key pe.2) K) lp2 →
  length (filter (λ se, key_lt (key se) K) pr) = length lp1.
Proof.
  intros Hp H1 H2. rewrite <- Hp, fmap_app, filter_app, length_app.
  rewrite filter_all by (by rewrite Forall_fmap).
  rewrite filter_none by (by rewrite Forall_fmap).
  rewrite length_fmap. simpl. lia.
Qed.

Lemma Inv_around zsl lp1 lp2 x se :
  Inv zsl (lp1 ++ (x, se) :: lp2) →
  Forall (λ pe, key_lt (key pe.2) (key se)) lp1 ∧
  Forall (λ pe, key_lt (key se) (key pe.2)) lp2.
Proof.
  intros HI. pose proof (inv_sorted _ _ HI) as Hs.
  rewrite !fmap_app, !fmap_cons in Hs. apply sorted_around in Hs as [H1 H2].
  rewrite <- list_fmap_compose, Forall_fmap in H1.
  rewrite <- list_fmap_compose, Forall_fmap in H2. done.
Qed.

Lemma HeaderNode_Inv zsl lp : Inv zsl lp → HeaderNode zsl = Ok (head lp.*1).
Proof.
  intros HI. exact (Next_chain _ _ _ _ _ (Inv_chain0 _ _ HI) (Inv_hgt_pos _ _ HI)).
Qed.

(** X1.  In a list built by valid operations, Insert of a fresh
    (score, identity) returns: it allocates one node, which carries the
    entity and the score and has as many levels as [randLevel] drew, adds 1
    to the length, raises the level of the list to that of the node when
    it is higher, and links the node on level 0 after the nodes with a
    smaller (score, identity) and before those with a larger one; the old
    nodes keep their place, entity and score. *)
Theorem Insert_links_new_node zsl pr fuel rnd score obj lv rnd' :
  built zsl pr →
  key (score, obj) ∉ key <$> pr →
  randLevel rnd = Ok (lv, rnd') →
  length pr < fuel →
  ∃ zsl' x n before after,
    Insert fuel rnd score obj zsl = Ok (zsl', x, rnd') ∧
    zsl_heap zsl' !! x = Some n ∧ Obj n = Some obj ∧ Score n = score ∧
    length (level n) = lv ∧
    Len zsl' = (Len zsl + 1)%Z ∧
    Height zsl' = Height zsl `max` lv ∧
    Nodes fuel zsl = Ok (before ++ after) ∧
    (x ∉ zsl_head zsl :: before ++ after) ∧
    Nodes fuel zsl' = Ok (before ++ x :: after) ∧
    Forall (λ p, ∃ kp, node_key (zsl_heap zsl') p = Some kp ∧
                       key_lt kp (key (score, obj))) before ∧
    Forall (λ p, ∃ kp, node_key (zsl_heap zsl') p = Some kp ∧
                       key_lt (key (score, obj)) kp) after ∧
    Forall (λ p, node_obj (zsl_heap zsl') p = node_obj (zsl_heap zsl) p ∧
                 node_key (zsl_heap zsl') p = node_key (zsl_heap zsl) p)
           (before ++ after).
Proof.
  intros Hb Hfresh Hrl Hfuel.
  destruct (built_Inv zsl pr Hb) as (lp & HI & Hperm).
  destruct (built_length zsl pr lp HI Hperm) as [Hlen _].
  destruct (Insert_full fuel rnd score obj zsl lp lv rnd' HI)
    as (zsl' & lp1 & lp2 & Hins & Hlp & HI' & Hhd & Hlvl & Hlength & Hheap & Hold & Hnew);
    [by rewrite Hperm|lia|done|].
  destruct (shape_at_node _ _ _ _ _ Hnew) as (n & Hn & Ho & Hs & Hl).
  destruct (Inv_around _ _ _ _ _ HI') as [H1 H2].
  exists zsl', (length (zsl_heap zsl)), n, lp1.*1, lp2.*1.
  split_and!; try done.
  - rewrite <- fmap_app, <- Hlp. apply Nodes_Inv; [done|lia].
  - intros Hin. rewrite <- fmap_app, <- Hlp in Hin. apply (Inv_ptr_lt _ _ _ HI) in Hin. lia.
  - pose proof (Nodes_Inv fuel zsl' _ HI') as Hn'.
    rewrite fmap_app, fmap_cons in Hn'. apply Hn'.
    rewrite length_app. simpl. rewrite Hlp, length_app in Hlen. lia.
  - rewrite Forall_fmap. apply Forall_forall. intros pe Hpe. simpl.
    destruct (Inv_node_obj zsl' _ pe HI') as (_ & _ & _ & _ & _ & Hk); [set_solver|].
    exists (key pe.2). split; [done|]. rewrite Forall_forall in H1. by apply H1.
  - rewrite Forall_fmap. apply Forall_forall. intros pe Hpe. simpl.
    destruct (Inv_node_obj zsl' _ pe HI') as (_ & _ & _ & _ & _ & Hk); [set_solver|].
    exists (key pe.2). split; [done|]. rewrite Forall_forall in H2. by apply H2.
  - rewrite <- fmap_app, <- Hlp. apply Forall_forall. intros p Hp.
    apply node_views_shape, Hold. apply (Inv_ptr_lt _ _ _ HI). set_solver.
Qed.

(** X2.  After Insert of an entity whose identity is not in the list,
    GetRank of the score and the entity returns 1 plus the number of
    entities with a smaller (score, identity), and GetElementByRank of that
    rank returns the node that Insert returned. *)
Theorem Insert_then_GetRank_finds_node zsl pr fuel rnd score obj lv rnd' :
  built zsl pr →
  NoDup (ids ((score, obj) :: pr)) →
  randLevel rnd = Ok (lv, rnd') →
  S (length pr) < fuel →
  ∃ zsl' x,
    Insert fuel rnd score obj zsl = Ok (zsl', x, rnd') ∧
    let r := Z.of_nat (S (length (filter (λ se, key_lt (key se) (key (score, obj))) pr))) in
    GetRank fuel zsl' score obj = Ok r ∧
    GetElementByRank fuel zsl' r = Ok (Some x).
Proof.
  intros Hb Hids Hrl Hfuel.
  destruct (built_Inv zsl pr Hb) as (lp & HI & Hperm).
  destruct (built_length zsl pr lp HI Hperm) as [Hlen _].
  pose proof (fresh_of_ids _ _ _ Hids) as Hfresh.
  destruct (Insert_full fuel rnd score obj zsl lp lv rnd' HI)
    as (zsl' & lp1 & lp2 & Hins & Hlp & HI' & _);
    [by rewrite Hperm|lia|done|].
  destruct (Inv_around _ _ _ _ _ HI') as [H1 H2].
  exists zsl', (length (zsl_heap zsl)). split; [done|].
  rewrite (count_smaller lp1 lp2 pr); [|by rewrite <- Hlp|done|].
  2: { eapply Forall_impl; [exact H2|]. simpl. intros pe Hlt Hgt.
       eapply key_lt_irrefl, key_lt_trans; [exact Hlt|exact Hgt]. }
  set (lp' := lp1 ++ (length (zsl_heap zsl), (score, obj)) :: lp2) in *.
  assert (lp' !! length lp1 = Some (length (zsl_heap zsl), (score, obj))) as Hk.
  { unfold lp'. by rewrite list_lookup_middle. }
  assert (length lp' = S (length lp)) as Hlen'.
  { unfold lp'. rewrite Hlp, !length_app. simpl. lia. }
  split.
  - apply (GetRank_present fuel zsl' lp' (length lp1) (length (zsl_heap zsl)) score obj obj HI');
      [|done|done|lia].
    apply (ids_NoDup _ ((score, obj) :: pr)); [|done].
    unfold lp'. rewrite fmap_app, fmap_cons. simpl. rewrite <- Permutation_middle.
    by rewrite <- Hperm, Hlp, fmap_app.
  - apply (GetElementByRank_in fuel zsl' lp' _ _ HI' Hk). lia.
Qed.

(** X3.  Insert of a fresh (score, identity) followed by Delete of the
    same score and entity: Delete returns the node that Insert returned,
    and the list has its length, its level, its tail, its first node and
    its level-0 sequence of nodes again. *)
Theorem Insert_then_Delete_restores zsl pr fuel rnd score obj lv rnd' :
  built zsl pr →
  key (score, obj) ∉ key <$> pr →
  randLevel rnd = Ok (lv, rnd') →
  S (length pr) < fuel →
  ∃ zsl1 x zsl2 nodes,
    Insert fuel rnd score obj zsl = Ok (zsl1, x, rnd') ∧
    Delete fuel score obj zsl1 = Ok (zsl2, Some x) ∧
    Len zsl2 = Len zsl ∧
    Height zsl2 = Height zsl ∧
    TailNode zsl2 = TailNode zsl ∧
    HeaderNode zsl2 = HeaderNode zsl ∧
    Nodes fuel zsl = Ok nodes ∧
    Nodes fuel zsl2 = Ok nodes.
Proof.
  intros Hb Hfresh Hrl Hfuel.
  destruct (built_Inv zsl pr Hb) as (lp & HI & Hperm).
  destruct (built_length zsl pr lp HI Hperm) as [Hlen _].
  destruct (Insert_full fuel rnd score obj zsl lp lv rnd' HI)
    as (zsl1 & lp1 & lp2 & Hins & Hlp & HI1 & Hhd & Hlvl & Hlength & Hheap & Hold & Hnew);
    [by rewrite Hperm|lia|done|].
  set (x := length (zsl_heap zsl)) in *.
  destruct (Delete_spec fuel score obj zsl1 _ HI1)
    as [[Habs _]|(l1 & t & e & l2 & zsl2 & Hsplit & Huuid & Hdel & HI2)].
  { rewrite Hlp, !length_app in *. simpl. lia. }
  { exfalso. apply Habs. rewrite fmap_app, fmap_cons, fmap_app, fmap_cons. set_solver. }
  destruct (split_unique (λ pe, key pe.2) lp1 lp2 l1 l2 (x, (score, obj)) (t, (score, e)))
    as (<- & Heq & <-); [|done| |].
  { pose proof (inv_sorted _ _ HI1) as Hs. rewrite <- list_fmap_compose in Hs.
    apply sorted_NoDup in Hs. exact Hs. }
  { unfold key. simpl. by rewrite Huuid. }
  injection Heq as <- <-. rewrite <- Hlp in HI2.
  destruct (Delete_shape _ _ _ _ _ _ Hdel) as (Hhd2 & _ & Hsh2).
  exists zsl1, x, zsl2, lp.*1. split_and!; [done|done|..].
  - unfold Len. by rewrite (inv_length _ _ HI2), (inv_length _ _ HI).
  - unfold Height. apply (Inv_level_unique zsl zsl2 lp HI HI2).
    intros p Hp. apply hgt_shape. rewrite Hsh2. apply Hold.
    apply (Inv_ptr_lt _ _ _ HI). set_solver.
  - unfold TailNode. by rewrite (inv_tail _ _ HI2), (inv_tail _ _ HI).
  - by rewrite (HeaderNode_Inv _ _ HI2), (HeaderNode_Inv _ _ HI).
  - apply Nodes_Inv; [done|lia].
  - apply Nodes_Inv; [done|lia].
Qed.

(** X4.  In a list built by valid operations, Delete of a score and an
    entity whose (score, identity) is in the list returns the node that
    carries them, takes that node out of the level-0 sequence and leaves
    the other nodes in their order, subtracts 1 from the length, does not
    raise the level, and changes no entity and no score. *)
Theorem Delete_unlinks_node zsl pr fuel score obj :
  built zsl pr →
  key (score, obj) ∈ key <$> pr →
  length pr < fuel →
  ∃ zsl' t n e before after,
    Delete fuel score obj zsl = Ok (zsl', Some t) ∧
    Nodes fuel zsl = Ok (before ++ t :: after) ∧
    Nodes fuel zsl' = Ok (before ++ after) ∧
    (t ∉ before ++ after) ∧
    zsl_heap zsl' !! t = Some n ∧ Obj n = Some e ∧ Uuid e = Uuid obj ∧ Score n = score ∧
    Len zsl' = (Len zsl - 1)%Z ∧
    Height zsl' ≤ Height zsl ∧
    ∀ p, node_obj (zsl_heap zsl') p = node_obj (zsl_heap zsl) p ∧
         node_key (zsl_heap zsl') p = node_key (zsl_heap zsl) p.
Proof.
  intros Hb Hin Hfuel.
  destruct (built_Inv zsl pr Hb) as (lp & HI & Hperm).
  destruct (built_length zsl pr lp HI Hperm) as [Hlen _].
  destruct (Delete_spec fuel score obj zsl lp HI)
    as [[Habs _]|(lp1 & t & e & lp2 & zsl' & Hlp & Huuid & Hdel & HI')]; [lia| |].
  { exfalso. apply Habs. by apply (key_in_perm lp pr). }
  destruct (Delete_shape _ _ _ _ _ _ Hdel) as (Hhd' & _ & Hsh).
  assert ((t, (score, e)) ∈ lp) as Hinlp by (rewrite Hlp; set_solver).
  destruct (Inv_node_obj zsl lp _ HI Hinlp) as (n0 & Hn0 & Ho0 & Hs0 & _). simpl in *.
  assert (shape_at (zsl_heap zsl') t = Some (Some e, score, length (level n0))) as Hst.
  { rewrite Hsh. unfold shape_at. rewrite Hn0. simpl. by rewrite Ho0, Hs0. }
  destruct (shape_at_node _ _ _ _ _ Hst) as (n & Hn & Ho & Hs & _).
  exists zsl', t, n, e, lp1.*1, lp2.*1. split_and!; try done.
  - pose proof (Nodes_Inv fuel zsl lp HI) as Hn'. rewrite Hlp, fmap_app, fmap_cons in Hn'.
    apply Hn'. rewrite <- Hlp. lia.
  - rewrite <- fmap_app. apply Nodes_Inv; [done|]. rewrite Hlp, !length_app in *. simpl in *. lia.
  - pose proof (inv_nodup _ _ HI) as Hnd. rewrite Hlp, fmap_app, fmap_cons in Hnd.
    apply NoDup_cons in Hnd as [_ Hnd]. apply NoDup_app in Hnd as (_ & Hn1 & Hn2).
    apply NoDup_cons in Hn2 as [Hn2 _]. simpl in *.
    intros Ht. apply elem_of_app in Ht as [Ht|Ht]; [|done]. apply (Hn1 _ Ht). set_solver.
  - unfold Len. rewrite (inv_length _ _ HI'), (inv_length _ _ HI), Hlp, !length_app. simpl. lia.
  - unfold Height. pose proof (inv_level _ _ HI) as L.
    destruct (decide (1 < zsl_level zsl')) as [Hgt|]; [|lia].
    destruct (proj1 (Exists_exists _ _) (inv_tight _ _ HI' Hgt)) as (pe & Hpe & Hh).
    pose proof (inv_nodes _ _ HI) as Hnodes. rewrite Forall_forall in Hnodes.
    destruct (Hnodes pe) as [_ Hle]; [rewrite Hlp; set_solver|].
    rewrite (hgt_shape _ _ _ (Hsh pe.1)) in Hh. lia.
  - intros p. apply node_views_shape, Hsh.
Qed.

(** X5.  A second Delete of the same score and entity finds nothing: it
    returns nil and leaves the list as the first Delete left it. *)
Theorem Delete_again_finds_nothing zsl pr fuel score obj :
  built zsl pr →
  key (score, obj) ∈ key <$> pr →
  length pr < fuel →
  ∃ zsl' t,
    Delete fuel score obj zsl = Ok (zsl', Some t) ∧
    Delete fuel score obj zsl' = Ok (zsl', None).
Proof.
  intros Hb Hin Hfuel.
  destruct (built_Inv zsl pr Hb) as (lp & HI & Hperm).
  destruct (built_length zsl pr lp HI Hperm) as [Hlen _].
  destruct (Delete_spec fuel score obj zsl lp HI)
    as [[Habs _]|(lp1 & t & e & lp2 & zsl' & Hlp & Huuid & Hdel & HI')]; [lia| |].
  { exfalso. apply Habs. by apply (key_in_perm lp pr). }
  exists zsl', t. split; [done|].
  destruct (Delete_spec fuel score obj zsl' _ HI')
    as [[_ Hdel']|(l1 & t' & e' & l2 & zsl'' & Hlp' & Huuid' & _)]; [|done|].
  { rewrite Hlp, !length_app in *. simpl in *. lia. }
  exfalso. pose proof (inv_sorted _ _ HI) as Hs. rewrite Hlp in Hs.
  rewrite (fmap_app snd), (fmap_cons snd) in Hs. cbn [snd] in Hs.
  apply sorted_keys_ne in Hs. apply Hs. rewrite <- fmap_app, Hlp'.
  rewrite !fmap_app, !fmap_cons. unfold key at 1 3. simpl. rewrite Huuid, <- Huuid'. set_solver.
Qed.

(** X6.  In a list built by valid operations, GetTopRankValueRange of a
    number [n] that is not negative returns the entities of the last [n]
    nodes (all of them when there are fewer), the largest first. *)
Theorem GetTopRankValueRange_largest_first zsl pr fuel (m : Z) :
  built zsl pr →
  (0 ≤ m)%Z →
  length pr ≤ fuel →
  ∃ nodes,
    Nodes fuel zsl = Ok nodes ∧
    GetTopRankValueRange zsl m =
    Ok (take (Z.to_nat m) (reverse (node_obj (zsl_heap zsl) <$> nodes))).
Proof.
  intros Hb Hm Hfuel.
  destruct (built_Inv zsl pr Hb) as (lp & HI & Hperm).
  destruct (built_length zsl pr lp HI Hperm) as [Hlen _].
  exists lp.*1. split; [apply Nodes_Inv; [done|lia]|].
  unfold GetTopRankValueRange. destruct (Z.ltb_spec m 0) as [?|_]; [lia|].
  rewrite (inv_tail _ _ HI).
  rewrite (collect_backward_spec _ _ _ [] (inv_back _ _ HI) (Inv_nodes_in_heap _ _ HI)).
  by rewrite fmap_reverse.
Qed.

(** X7.  In a list built by valid operations: the length field is the
    number of nodes on level 0; the level of the list is between 1 and
    ZSKIPLIST_MAXLEVEL; the head is a node of its own with a nil entity and
    ZSKIPLIST_MAXLEVEL levels; every node of the list carries an entity and
    has between 1 and the list's level levels; and when the level of the
    list is above 1, some node has exactly that many levels. *)
Theorem Len_and_Height_invariants zsl pr fuel :
  built zsl pr →
  length pr ≤ fuel →
  ∃ nodes hn,
    Nodes fuel zsl = Ok nodes ∧
    Len zsl = Z.of_nat (length nodes) ∧
    1 ≤ Height zsl ≤ ZSKIPLIST_MAXLEVEL ∧
    zsl_heap zsl !! zsl_head zsl = Some hn ∧ Obj hn = None ∧
    length (level hn) = ZSKIPLIST_MAXLEVEL ∧
    NoDup (zsl_head zsl :: nodes) ∧
    Forall (λ p, ∃ n, zsl_heap zsl !! p = Some n ∧ is_Some (Obj n) ∧
                      1 ≤ length (level n) ≤ Height zsl) nodes ∧
    (1 < Height zsl →
     Exists (λ p, ∃ n, zsl_heap zsl !! p = Some n ∧ length (level n) = Height zsl) nodes).
Proof.
  intros Hb Hfuel.
  destruct (built_Inv zsl pr Hb) as (lp & HI & Hperm).
  destruct (built_length zsl pr lp HI Hperm) as [Hlen _].
  destruct (inv_head _ _ HI) as [sc Hsc].
  destruct (shape_at_node _ _ _ _ _ Hsc) as (hn & Hhn & Hho & _ & Hhl).
  exists lp.*1, hn. split_and!; try done.
  - apply Nodes_Inv; [done|lia].
  - unfold Len. by rewrite (inv_length _ _ HI), length_fmap.
  - apply (inv_level _ _ HI).
  - apply (inv_level _ _ HI).
  - apply (inv_nodup _ _ HI).
  - rewrite Forall_fmap. eapply Forall_impl; [apply (inv_nodes _ _ HI)|].
    intros pe [He Hh]. simpl. apply entity_at_inv in He as (n & Hn & Ho & _).
    exists n. rewrite (hgt_node _ _ _ Hn) in Hh. split_and!; [done|by eexists|lia|apply Hh].
  - intros Hgt. rewrite Exists_fmap. eapply Exists_impl; [apply (inv_tight _ _ HI Hgt)|].
    intros pe Hh. simpl.
    pose proof (inv_nodes _ _ HI) as Hn.
    assert (0 < hgt (zsl_heap zsl) pe.1) as Hpos by (rewrite Hh; unfold Height in Hgt; lia).
    unfold hgt, shape_at in Hpos, Hh.
    destruct (zsl_heap zsl !! pe.1) as [n|]; simpl in *; [|lia]. by exists n.
Qed.

End extras.
(** * More of the code: levels, ranks and neighbours *)

Section extras2.
Context {E : Type} `{RankInterface E}.
Implicit Types (h : list (ZSkipListNode E)) (p q x u cur hd : ptr) (i j : nat).
Implicit Types (s : zskipListLevel) (n : ZSkipListNode E) (l : list ptr) (c k : Z).
Implicit Types (lp : list (ptr * (Z * E))) (zsl : ZSkipList E) (pr : list (Z * E)).

(** ** randLevel *)

Lemma coin_true d : coin d = true ↔ (Z.land d 65535 < 16384)%Z.
Proof. unfold coin. rewrite Z.ltb_lt. lia. Qed.

Lemma coin_false d : coin d = false ↔ (16384 ≤ Z.land d 65535)%Z.
Proof. unfold coin. rewrite Z.ltb_ge. lia. Qed.

Lemma randLevel_loop_spec rnd lvl lv rnd' :
  randLevel_loop rnd lvl = Ok (lv, rnd') ↔
  ∃ heads d, rnd = heads ++ d :: rnd' ∧ Forall (λ d, coin d = true) heads ∧
             coin d = false ∧ lv = lvl + length heads.
Proof.
  revert lvl. induction rnd as [|d rnd IH]; intros lvl; simpl.
  - split; [done|]. intros (heads & d & Heq & _). by destruct heads.
  - destruct (coin d) eqn:Hc.
    + rewrite IH. split.
      * intros (heads & d' & -> & Hh & Hd & ->). exists (d :: heads), d'.
        split_and!; [done|by constructor|done|simpl; lia].
      * intros (heads & d' & Heq & Hh & Hd & ->).
        destruct heads as [|d0 heads]; simplify_eq/=; [congruence|].
        inversion_clear Hh. exists heads, d'. split_and!; [done|done|done|lia].
    + split.
      * intros [= -> ->]. exists [], d. split_and!; [done|constructor|done|simpl; lia].
      * intros (heads & d' & Heq & Hh & Hd & ->).
        destruct heads as [|d0 heads]; simplify_eq/=.
        -- do 2 f_equal. lia.
        -- inversion_clear Hh. congruence.
Qed.

(** X8.  [randLevel] returns exactly when the draws start with a run of
    values whose low 16 bits are below 16384 (a quarter of the 65536
    values), followed by one that is not; it consumes these draws and
    returns 1 plus the length of the run, capped at ZSKIPLIST_MAXLEVEL. *)
Theorem randLevel_counts_low_draws rnd lv rnd' :
  randLevel rnd = Ok (lv, rnd') ↔
  ∃ heads d,
    rnd = heads ++ d :: rnd' ∧
    Forall (λ d, (Z.land d 65535 < 16384)%Z) heads ∧
    (16384 ≤ Z.land d 65535)%Z ∧
    lv = S (length heads) `min` ZSKIPLIST_MAXLEVEL.
Proof.
  unfold randLevel. split.
  - intros Hr. apply bind_Ok in Hr as ([lvl r] & Hl & Hr).
    apply randLevel_loop_spec in Hl as (heads & d & -> & Hh & Hd & ->).
    exists heads, d. unfold ZSKIPLIST_MAXLEVEL in *.
    split_and!.
    + by case_decide; simplify_eq.
    + eapply Forall_impl; [exact Hh|]. intros d'. apply coin_true.
    + by apply coin_false.
    + case_decide; simplify_eq; lia.
  - intros (heads & d & -> & Hh & Hd & ->).
    assert (randLevel_loop (heads ++ d :: rnd') 1 = Ok (1 + length heads, rnd')) as ->.
    { apply randLevel_loop_spec. exists heads, d. split_and!; [done| |by apply coin_false|done].
      eapply Forall_impl; [exact Hh|]. intros d'. apply coin_true. }
    simpl. unfold ZSKIPLIST_MAXLEVEL. case_decide; do 2 f_equal; lia.
Qed.

(** ** The ends of the list *)

(** X9.  In a list built by valid operations, HeaderNode returns the first
    node of level 0 and TailNode the last one, both nil exactly when the
    length is 0; every node of the list has a (score, identity) at least
    that of the first node and at most that of the tail. *)
Theorem HeaderNode_smallest_TailNode_largest zsl pr fuel :
  built zsl pr →
  length pr ≤ fuel →
  ∃ nodes,
    Nodes fuel zsl = Ok nodes ∧
    HeaderNode zsl = Ok (head nodes) ∧
    TailNode zsl = last nodes ∧
    (Len zsl = 0%Z ↔ nodes = []) ∧
    ∀ p f t, p ∈ nodes → head nodes = Some f → last nodes = Some t →
      ∃ kp kf kt,
        node_key (zsl_heap zsl) p = Some kp ∧
        node_key (zsl_heap zsl) f = Some kf ∧
        node_key (zsl_heap zsl) t = Some kt ∧
        key_le kf kp ∧ key_le kp kt.
Proof.
  intros Hb Hfuel.
  destruct (built_Inv zsl pr Hb) as (lp & HI & Hperm).
  destruct (built_length zsl pr lp HI Hperm) as [Hlen _].
  exists lp.*1. split_and!.
  - apply Nodes_Inv; [done|lia].
  - apply (HeaderNode_Inv _ _ HI).
  - apply (inv_tail _ _ HI).
  - unfold Len. rewrite (inv_length _ _ HI). split.
    + intros Hz. destruct lp; [done|simpl in Hz; lia].
    + intros Hn. apply fmap_nil_inv in Hn as ->. done.
  - intros p f t Hp Hf Ht.
    apply list_elem_of_lookup in Hp as [j Hj].
    rewrite head_lookup in Hf. rewrite last_lookup, length_fmap in Ht.
    destruct (Inv_lookup_node zsl lp _ _ HI Hj) as (pp & _ & Hpp & _ & _ & _ & _ & _ & Hkp).
    destruct (Inv_lookup_node zsl lp _ _ HI Hf) as (pf & _ & Hpf & _ & _ & _ & _ & _ & Hkf).
    destruct (Inv_lookup_node zsl lp _ _ HI Ht) as (pt & _ & Hpt & _ & _ & _ & _ & _ & Hkt).
    exists (key pp.2), (key pf.2), (key pt.2). split_and!; [done|done|done|..].
    + apply key_le_iff. destruct j as [|j]; [right; congruence|left].
      apply (StronglySorted_lookup key_lt (key <$> lp.*2) 0 (S j));
        [apply (inv_sorted _ _ HI)| | |lia].
      * by rewrite !list_lookup_fmap, Hpf.
      * by rewrite !list_lookup_fmap, Hpp.
    + apply key_le_iff. pose proof (lookup_lt_Some _ _ _ Hpp) as Hlt.
      destruct (decide (j = pred (length lp))) as [->|Hne]; [right; congruence|left].
      apply (StronglySorted_lookup key_lt (key <$> lp.*2) j (pred (length lp)));
        [apply (inv_sorted _ _ HI)| | |lia].
      * by rewrite !list_lookup_fmap, Hpp.
      * by rewrite !list_lookup_fmap, Hpt.
Qed.

(** X10.  In a list built by valid operations, Next of a node is the node
    after it on level 0 and Before is the node before it; Next of the last
    node is nil, and Before of the first node is nil, not the head. *)
Theorem Next_and_Before_walk_the_nodes zsl pr fuel :
  built zsl pr →
  length pr ≤ fuel →
  ∃ nodes,
    Nodes fuel zsl = Ok nodes ∧
    ∀ (j : nat) a, nodes !! j = Some a →
      Next (zsl_heap zsl) a = Ok (nodes !! S j) ∧
      Before (zsl_heap zsl) a = Ok (match j with O => None | S j' => nodes !! j' end).
Proof.
  intros Hb Hfuel.
  destruct (built_Inv zsl pr Hb) as (lp & HI & Hperm).
  destruct (built_length zsl pr lp HI Hperm) as [Hlen _].
  exists lp.*1. split; [apply Nodes_Inv; [done|lia]|].
  intros j a Ha. split.
  - apply (Next_lookup _ _ _ _ _ _ _ (Inv_chain0 _ _ HI) (Inv_hgt_pos _ _ HI) Ha).
  - apply (Before_lookup _ _ _ _ (inv_back _ _ HI) Ha).
Qed.

(** ** GetRank for any score *)

(** X11.  In a list built by valid operations, GetRank of an entity whose
    identity no entity of the list has returns 0, whatever the score. *)
Theorem GetRank_unknown_identity zsl pr fuel score obj :
  built zsl pr →
  Uuid obj ∉ ids pr →
  length pr < fuel →
  GetRank fuel zsl score obj = Ok 0%Z.
Proof.
  intros Hb Hid Hfuel.
  destruct (built_Inv zsl pr Hb) as (lp & HI & Hperm).
  destruct (built_length zsl pr lp HI Hperm) as [Hlen _].
  apply (GetRank_absent_id fuel zsl lp score obj HI); [|lia].
  unfold ids in *. by rewrite Hperm.
Qed.

Lemma GetRank_sound fuel zsl lp (k0 : nat) t sc e score obj :
  Inv zsl lp → NoDup (ids lp.*2) →
  lp !! k0 = Some (t, (sc, e)) → Uuid e = Uuid obj →
  length lp < fuel →
  ∃ r, GetRank fuel zsl score obj = Ok r ∧
       (r = 0%Z ∨ r = Z.of_nat (S k0)) ∧
       ((score < sc)%Z → r = 0%Z).
Proof.
  intros HI Hids Hk Huuid Hfuel. destruct zsl as [h hd tl len zl].
  set (zsl := mkZSkipList h hd tl len zl) in HI.
  destruct (sorted_split (λ a, key_le a (key (score, obj))) lp) as (lp1 & lp2 & Hlp & H1 & H2).
  { intros a b Hab Hb. by eapply key_lt_le_trans. }
  { apply (inv_sorted _ _ HI). }
  pose proof (inv_level _ _ HI) as Hzl. simpl in Hzl.
  pose proof (inv_nodup _ _ HI) as Hnd. simpl in Hnd.
  apply NoDup_cons in Hnd as [Hhd Hnd].
  assert (lp.*1 = lp1.*1 ++ lp2.*1) as Hl by (by rewrite Hlp, fmap_app).
  assert (splits (cond_le score obj) h (lp1.*1 ++ lp2.*1) 1 (length lp1.*1) 0) as Hsplit.
  { rewrite length_fmap, <- fmap_app.
    apply (splits_keys _ (λ a, key_le a (key (score, obj))));
      [|rewrite <- Hlp; apply (Inv_entities _ _ HI)|done|done].
    intros n e' r s He. by apply cond_le_spec. }
  assert (lp.*1 !! k0 = Some t) as Hkt by (by rewrite list_lookup_fmap, Hk).
  assert (∀ nl x c, nl ≤ zl → seek h nl hd 0 1 lp1.*1 = (x, c) →
            ∃ r, GetRank_loop fuel h score obj nl x c = Ok r ∧
                 (r = 0%Z ∨ (r = Z.of_nat (S k0) ∧ t ∈ lp1.*1))) as Hloop.
  { induction nl as [|i IH]; intros x c Hnl Hx; [exists 0%Z; split; [done|by left]|]. simpl.
    pose proof (advance_level (cond_le score obj) fuel h i (S i) hd lp1.*1 lp2.*1 x c 0) as Ha.
    replace (c + 0)%Z with c in Ha by lia. rewrite Ha; clear Ha.
    - destruct (seek h i hd 0 1 lp1.*1) as [x' c'] eqn:Hx'. simpl.
      replace (c' + 0)%Z with c' by lia.
      pose proof (Inv_seek_node zsl lp lp1.*1 lp2.*1 i HI Hl) as Hnode. simpl in Hnode.
      rewrite Hx' in Hnode. simpl in Hnode.
      destruct Hnode as [(-> & n & Hn & Ho)|(pe & n & Hin & Hpe & Hxla & Hn & Ho & Hs)].
      + rewrite (load_Ok _ _ _ Hn). simpl. rewrite Ho. apply IH; [lia|done].
      + rewrite (load_Ok _ _ _ Hn). simpl. rewrite Ho.
        destruct (Z.eqb_spec (Uuid pe.2.2) (Uuid obj)) as [Heq|Hneq]; [|apply IH; [lia|done]].
        assert (pe = (t, (sc, e))) as ->.
        { eapply (NoDup_fmap_eq (λ pe, Uuid pe.2.2) lp); [|done| |].
          - unfold ids in Hids. by rewrite <- list_fmap_compose in Hids.
          - by eapply list_elem_of_lookup_2.
          - simpl in *. congruence. }
        simpl in Hpe. subst x'. exists c'. split; [done|]. right. split; [|done].
        apply seek_split in Hx' as [(-> & _)|(l1 & l2 & Hsp & -> & _)].
        { exfalso. apply Hhd. rewrite Hl. set_solver. }
        assert (lp.*1 !! length l1 = Some t) as Hl1.
        { rewrite Hl, Hsp, <- app_assoc, <- app_comm_cons. by rewrite list_lookup_middle. }
        rewrite (NoDup_lookup _ _ _ _ Hnd Hkt Hl1). lia.
    - lia.
    - rewrite <- Hl. apply (inv_chain _ _ HI). lia.
    - done.
    - rewrite length_fmap. rewrite Hlp, length_app in Hfuel. lia.
    - done. }
  destruct (Hloop zl hd 0%Z) as (r & Hr & Hcases); [done| |].
  { pose proof (Inv_seek_top zsl lp lp1.*1 zl HI) as Ht. simpl in Ht. apply Ht; [|done].
    by exists lp2.*1. }
  exists r. split; [done|]. split; [destruct Hcases as [?|[? _]]; [by left|by right]|].
  intros Hlt. destruct Hcases as [?|[_ Hin]]; [done|]. exfalso.
  apply list_elem_of_fmap in Hin as (pe & Hpe & Hin).
  assert (pe = (t, (sc, e))) as ->.
  { eapply (NoDup_fmap_eq fst lp); [done|rewrite Hlp; set_solver|by eapply list_elem_of_lookup_2|done]. }
  rewrite Forall_forall in H1. specialize (H1 _ Hin). unfold key_le, key in H1. simpl in H1. lia.
Qed.

(** X12.  In a list built by valid operations whose entities have
    distinct identities, GetRank of an entity of the list called with any
    score returns either 0 or the position of that entity, never the
    position of another one; it returns that position when the score is
    the entity's, and 0 when the score is below it. *)
Theorem GetRank_any_score zsl pr fuel sc e score obj :
  built zsl pr →
  NoDup (ids pr) →
  (sc, e) ∈ pr →
  Uuid e = Uuid obj →
  length pr < fuel →
  ∃ pos r,
    GetRank fuel zsl sc e = Ok pos ∧ (1 ≤ pos ≤ Len zsl)%Z ∧
    GetRank fuel zsl score obj = Ok r ∧
    (r = 0%Z ∨ r = pos) ∧
    (score = sc → r = pos) ∧
    ((score < sc)%Z → r = 0%Z).
Proof.
  intros Hb Hids Hin Huuid Hfuel.
  destruct (built_Inv zsl pr Hb) as (lp & HI & Hperm).
  destruct (built_length zsl pr lp HI Hperm) as [Hlen HLen].
  pose proof (ids_NoDup _ _ Hperm Hids) as Hids'.
  destruct (Inv_perm_lookup zsl lp pr _ HI Hperm Hin) as (k0 & t & Hk).
  pose proof (lookup_lt_Some _ _ _ Hk) as Hklt.
  destruct (GetRank_sound fuel zsl lp k0 t sc e score obj HI Hids' Hk Huuid) as (r & Hr & Hc & Hz);
    [lia|].
  exists (Z.of_nat (S k0)), r. split_and!; [|lia|lia|done|done| |done].
  - apply (GetRank_present fuel zsl lp k0 t sc e e HI Hids' Hk); [done|lia].
  - intros ->. rewrite (GetRank_present fuel zsl lp k0 t sc obj e HI Hids' Hk) in Hr; [|done|lia].
    by injection Hr.
Qed.

(** ** How Insert and Delete move the ranks *)

(** X13.  In a list built by valid operations whose entities have
    pairwise-distinct identities, Insert of an entity whose identity is not
    in the list adds 1 to the rank (GetRank) of the entities with a larger
    (score, identity) and leaves the rank of the others as it was. *)
Theorem Insert_shifts_ranks zsl pr fuel rnd score obj lv rnd' sc e :
  built zsl pr →
  NoDup (ids ((score, obj) :: pr)) →
  (sc, e) ∈ pr →
  randLevel rnd = Ok (lv, rnd') →
  S (length pr) < fuel →
  ∃ zsl' x r,
    Insert fuel rnd score obj zsl = Ok (zsl', x, rnd') ∧
    GetRank fuel zsl sc e = Ok r ∧
    GetRank fuel zsl' sc e =
    Ok (if decide (key_lt (key (score, obj)) (key (sc, e))) then r + 1 else r)%Z.
Proof.
  intros Hb Hids Hin Hrl Hfuel.
  destruct (built_Inv zsl pr Hb) as (lp & HI & Hperm).
  destruct (built_length zsl pr lp HI Hperm) as [Hlen _].
  pose proof (fresh_of_ids _ _ _ Hids) as Hfresh.
  assert (NoDup (ids lp.*2)) as Hids0.
  { apply (ids_NoDup _ pr Hperm). unfold ids in Hids. rewrite fmap_cons in Hids.
    by apply NoDup_cons in Hids as [_ ?]. }
  destruct (Insert_full fuel rnd score obj zsl lp lv rnd' HI)
    as (zsl' & lp1 & lp2 & Hins & Hlp & HI' & _);
    [by rewrite Hperm|lia|done|].
  destruct (Inv_around _ _ _ _ _ HI') as [H1 H2].
  rewrite Forall_forall in H1, H2.
  set (lp' := lp1 ++ (length (zsl_heap zsl), (score, obj)) :: lp2) in *.
  assert (NoDup (ids lp'.*2)) as Hids'.
  { apply (ids_NoDup _ ((score, obj) :: pr)); [|done].
    unfold lp'. rewrite fmap_app, fmap_cons. simpl. rewrite <- Permutation_middle.
    by rewrite <- Hperm, Hlp, fmap_app. }
  assert (length lp' = S (length lp)) as Hlen'.
  { unfold lp'. rewrite Hlp, !length_app. simpl. lia. }
  destruct (Inv_perm_lookup zsl lp pr _ HI Hperm Hin) as (k0 & t & Hk).
  exists zsl', (length (zsl_heap zsl)), (Z.of_nat (S k0)). split_and!; [done| |].
  - apply (GetRank_present fuel zsl lp k0 t sc e e HI Hids0 Hk); [done|lia].
  - rewrite Hlp in Hk. destruct (decide (k0 < length lp1)) as [Hlt|Hge].
    + rewrite lookup_app_l in Hk by done.
      assert (key_lt (key (sc, e)) (key (score, obj))) as Hkey.
      { apply (H1 (t, (sc, e))). by eapply list_elem_of_lookup_2. }
      rewrite decide_False
        by (intros Hgt; eapply key_lt_irrefl, key_lt_trans; [exact Hkey|exact Hgt]).
      apply (GetRank_present fuel zsl' lp' k0 t sc e e HI' Hids'); [|done|lia].
      unfold lp'. by rewrite lookup_app_l.
    + rewrite lookup_app_r in Hk by lia.
      assert (key_lt (key (score, obj)) (key (sc, e))) as Hkey.
      { apply (H2 (t, (sc, e))). by eapply list_elem_of_lookup_2. }
      rewrite decide_True by done.
      replace (Z.of_nat (S k0) + 1)%Z with (Z.of_nat (S (S k0))) by lia.
      apply (GetRank_present fuel zsl' lp' (S k0) t sc e e HI' Hids'); [|done|lia].
      unfold lp'. rewrite lookup_app_r by lia.
      replace (S k0 - length lp1) with (S (k0 - length lp1)) by lia. done.
Qed.

(** X14.  In a list built by valid operations whose entities have
    pairwise-distinct identities, Delete of an entity of the list subtracts
    1 from the rank (GetRank) of the other entities with a larger
    (score, identity) and leaves the rank of the others as it was. *)
Theorem Delete_shifts_ranks zsl pr fuel score obj sc e :
  built zsl pr →
  NoDup (ids pr) →
  key (score, obj) ∈ key <$> pr →
  (sc, e) ∈ pr →
  key (sc, e) ≠ key (score, obj) →
  length pr < fuel →
  ∃ zsl' t r,
    Delete fuel score obj zsl = Ok (zsl', Some t) ∧
    GetRank fuel zsl sc e = Ok r ∧
    GetRank fuel zsl' sc e =
    Ok (if decide (key_lt (key (score, obj)) (key (sc, e))) then r - 1 else r)%Z.
Proof.
  intros Hb Hids Hin Hse Hne Hfuel.
  destruct (built_Inv zsl pr Hb) as (lp & HI & Hperm).
  destruct (built_length zsl pr lp HI Hperm) as [Hlen _].
  pose proof (ids_NoDup _ _ Hperm Hids) as Hids0.
  destruct (Delete_spec fuel score obj zsl lp HI)
    as [[Habs _]|(lp1 & t & e0 & lp2 & zsl' & Hlp & Huuid & Hdel & HI')]; [lia| |].
  { exfalso. apply Habs. by apply (key_in_perm lp pr). }
  assert (key (score, e0) = key (score, obj)) as Hkey0 by (unfold key; simpl; by rewrite Huuid).
  pose proof HI as HI0. rewrite Hlp in HI0.
  destruct (Inv_around _ _ _ _ _ HI0) as [H1 H2]. rewrite Hkey0 in H1, H2.
  rewrite Forall_forall in H1, H2.
  assert (NoDup (ids (lp1 ++ lp2).*2)) as Hids'.
  { unfold ids in *. rewrite Hlp, !fmap_app, !fmap_cons in Hids0. rewrite !fmap_app.
    apply NoDup_app in Hids0 as (N1 & N2 & N3). apply NoDup_cons in N3 as [N3 N4].
    apply NoDup_app. split_and!; [done| |done].
    intros y Hy Hy'. apply (N2 y Hy). set_solver. }
  destruct (Inv_perm_lookup zsl lp pr _ HI Hperm Hse) as (k0 & t0 & Hk).
  exists zsl', t, (Z.of_nat (S k0)). split_and!; [done| |].
  - apply (GetRank_present fuel zsl lp k0 t0 sc e e HI Hids0 Hk); [done|lia].
  - assert (length (lp1 ++ lp2) < fuel) as Hfuel'.
    { rewrite Hlp, !length_app in *. simpl in *. lia. }
    rewrite Hlp in Hk. destruct (decide (k0 < length lp1)) as [Hlt|Hge].
    + rewrite lookup_app_l in Hk by done.
      assert (key_lt (key (sc, e)) (key (score, obj))) as Hkey.
      { apply (H1 (t0, (sc, e))). by eapply list_elem_of_lookup_2. }
      rewrite decide_False
        by (intros Hgt; eapply key_lt_irrefl, key_lt_trans; [exact Hkey|exact Hgt]).
      apply (GetRank_present fuel zsl' (lp1 ++ lp2) k0 t0 sc e e HI' Hids'); [|done|done].
      by rewrite lookup_app_l.
    + rewrite lookup_app_r in Hk by lia.
      destruct (k0 - length lp1) as [|d] eqn:Hd.
      { simpl in Hk. exfalso. apply Hne. by injection Hk as _ <- <-. }
      simpl in Hk.
      assert (key_lt (key (score, obj)) (key (sc, e))) as Hkey.
      { apply (H2 (t0, (sc, e))). by eapply list_elem_of_lookup_2. }
      rewrite decide_True by done.
      replace (Z.of_nat (S k0) - 1)%Z with (Z.of_nat (S (k0 - 1))) by lia.
      apply (GetRank_present fuel zsl' (lp1 ++ lp2) (k0 - 1) t0 sc e e HI' Hids'); [|done|done].
      rewrite lookup_app_r by lia. by replace (k0 - 1 - length lp1) with d by lia.
Qed.

(** ** GetElementByRank and GetNearByRankRange *)

(** X15.  In a list built by valid operations, GetElementByRank of a rank
    [k] that is at least 1 returns the [k]-th node of level 0, nil when
    there are fewer than [k] nodes. *)
Theorem GetElementByRank_is_kth_node zsl pr fuel (r : Z) :
  built zsl pr →
  (1 ≤ r)%Z →
  length pr < fuel →
  ∃ nodes,
    Nodes fuel zsl = Ok nodes ∧
    GetElementByRank fuel zsl r = Ok (nodes !! (Z.to_nat r - 1)).
Proof.
  intros Hb Hr Hfuel.
  destruct (built_Inv zsl pr Hb) as (lp & HI & Hperm).
  destruct (built_length zsl pr lp HI Hperm) as [Hlen _].
  exists lp.*1. split; [apply Nodes_Inv; [done|lia]|].
  assert (∃ j : nat, r = Z.of_nat (S j)) as (j & ->) by (exists (Z.to_nat r - 1); lia).
  rewrite Nat2Z.id. replace (S j - 1) with j by lia.
  rewrite list_lookup_fmap. destruct (lp !! j) as [pe|] eqn:Hj; simpl.
  - apply (GetElementByRank_in fuel zsl lp j pe HI Hj). lia.
  - apply lookup_ge_None in Hj. apply (GetElementByRank_out fuel zsl lp _ HI); lia.
Qed.


(** ** The spans on every level *)

Lemma load_level_inv h p i s : load_level h p i = Ok s → slot_at h p i = Some s.
Proof.
  unfold load_level, load, slot_at. destruct (h !! p) as [n|]; simpl; [|done].
  destruct (level n !! i); by intros [= ->].
Qed.

(** X17.  In a list built by valid operations, on every level a forward
    link leads from a node (or the head) to the first later node that has
    that level, its span is the number of level-0 steps between the two,
    and a nil forward link means that no later node has that level. *)
Theorem spans_count_level0_steps zsl pr fuel :
  built zsl pr →
  length pr ≤ fuel →
  ∃ nodes,
    Nodes fuel zsl = Ok nodes ∧
    ∀ (i ja : nat) a s,
      i < ZSKIPLIST_MAXLEVEL →
      (zsl_head zsl :: nodes) !! ja = Some a →
      load_level (zsl_heap zsl) a i = Ok s →
      match forward s with
      | Some b =>
          ∃ jb : nat,
            (zsl_head zsl :: nodes) !! jb = Some b ∧ ja < jb ∧
            span s = (Z.of_nat jb - Z.of_nat ja)%Z ∧
            i < hgt (zsl_heap zsl) b ∧
            ∀ (j : nat) q, ja < j < jb → (zsl_head zsl :: nodes) !! j = Some q →
                           hgt (zsl_heap zsl) q ≤ i
      | None =>
          ∀ (j : nat) q, ja < j → (zsl_head zsl :: nodes) !! j = Some q →
                         hgt (zsl_heap zsl) q ≤ i
      end.
Proof.
  intros Hb Hfuel.
  destruct (built_Inv zsl pr Hb) as (lp & HI & Hperm).
  destruct (built_length zsl pr lp HI Hperm) as [Hlen _].
  exists lp.*1. split; [apply Nodes_Inv; [done|lia]|].
  intros i ja a s Hi Ha Hs. apply load_level_inv in Hs.
  pose proof (slot_at_hgt _ _ _ _ Hs) as Hh.
  pose proof (link_of_slot _ _ _ _ Hs) as Hlk.
  assert (chain (zsl_heap zsl) i a (Z.of_nat ja) (Z.of_nat ja + 1) (drop ja lp.*1)) as Hc.
  { destruct ja as [|ja]; simpl in Ha.
    - injection Ha as <-. rewrite drop_0. apply (inv_chain _ _ HI i Hi).
    - pose proof (chain_from _ _ _ _ _ _ _ _ (inv_chain _ _ HI i Hi) Ha Hh) as Hc.
      by replace (Z.of_nat (S ja)) with (1 + Z.of_nat ja)%Z by lia. }
  destruct (forward s) as [b|] eqn:Hf; simpl in Hlk.
  - destruct (chain_first _ _ _ _ _ _ _ _ Hc Hlk) as (j & Hj & Hd & Hb' & Hall).
    rewrite lookup_drop in Hj. exists (S (ja + j)). split_and!; [done|lia|lia|done|].
    intros j' q [Hlo Hhi] Hq. destruct j' as [|j']; [lia|]. simpl in Hq.
    rewrite Forall_forall in Hall. apply Hall.
    apply list_elem_of_lookup. exists (j' - ja).
    rewrite lookup_take_lt by lia. rewrite lookup_drop.
    by replace (ja + (j' - ja)) with j' by lia.
  - pose proof (chain_nil_all _ _ _ _ _ _ Hc Hlk) as Hall.
    intros j' q Hlo Hq. destruct j' as [|j']; [lia|]. simpl in Hq.
    rewrite Forall_forall in Hall. apply Hall.
    apply list_elem_of_lookup. exists (j' - ja). rewrite lookup_drop.
    by replace (ja + (j' - ja)) with j' by lia.
Qed.

End extras2.
(** * More of the code: the update idiom and the duplicate check of the tests *)

Section extras3.
Context {E : Type} `{RankInterface E}.
Implicit Types (lp : list (ptr * (Z * E))) (zsl : ZSkipList E) (pr : list (Z * E)).

Lemma delete_perm lp lp1 lp2 pr t (se : Z * E) (K : Z * Z) :
  lp.*2 ≡ₚ pr → lp = lp1 ++ (t, se) :: lp2 →
  StronglySorted key_lt (key <$> lp.*2) → key se = K →
  (lp1 ++ lp2).*2 ≡ₚ filter (λ se', key se' ≠ K) pr.
Proof.
  intros Hp -> Hs HK. rewrite <- Hp.
  rewrite !(fmap_app snd), (fmap_cons snd). rewrite (fmap_app snd), (fmap_cons snd) in Hs.
  cbn [snd] in *.
  pose proof (sorted_keys_ne _ _ _ Hs) as Hne. rewrite HK in Hne.
  rewrite filter_app, filter_cons_False by (intros Hc; by apply Hc).
  by rewrite <- filter_app, (filter_key_ne K).
Qed.

(** X18.  The update of a score as the tests do it, Delete with the old
    score and then Insert with the new one: in a list built by valid
    operations whose entities have distinct identities, both calls return
    a node, the length is as before, and GetRank of the new score and the
    entity returns 1 plus the number of other entities with a smaller
    (score, identity), the rank at which GetElementByRank finds the new
    node. *)
Theorem Delete_then_Insert_moves_entity zsl pr fuel rnd old new v lv rnd' :
  built zsl pr →
  NoDup (ids pr) →
  (old, v) ∈ pr →
  randLevel rnd = Ok (lv, rnd') →
  length pr < fuel →
  ∃ zsl1 t zsl2 x,
    Delete fuel old v zsl = Ok (zsl1, Some t) ∧
    Insert fuel rnd new v zsl1 = Ok (zsl2, x, rnd') ∧
    Len zsl2 = Len zsl ∧
    let others := filter (λ se, key se ≠ key (old, v)) pr in
    let r := Z.of_nat (S (length (filter (λ se, key_lt (key se) (key (new, v))) others))) in
    GetRank fuel zsl2 new v = Ok r ∧
    GetElementByRank fuel zsl2 r = Ok (Some x).
Proof.
  intros Hb Hids Hin Hrl Hfuel.
  destruct (built_Inv zsl pr Hb) as (lp & HI & Hperm).
  destruct (built_length zsl pr lp HI Hperm) as [Hlen _].
  pose proof (ids_NoDup _ _ Hperm Hids) as Hids0.
  destruct (Delete_spec fuel old v zsl lp HI)
    as [[Habs _]|(lp1 & t & e0 & lp2 & zsl1 & Hlp & Huuid & Hdel & HI1)]; [lia| |].
  { exfalso. apply Habs. apply (key_in_perm lp pr _ Hperm).
    apply list_elem_of_fmap. by exists (old, v). }
  assert (key (old, e0) = key (old, v)) as Hkey0 by (unfold key; simpl; by rewrite Huuid).
  pose proof (delete_perm lp lp1 lp2 pr t (old, e0) _ Hperm Hlp (inv_sorted _ _ HI) Hkey0)
    as Hperm1.
  assert (NoDup (ids ((new, v) :: (lp1 ++ lp2).*2))) as Hids1.
  { unfold ids in *. rewrite Hlp, !fmap_app, !fmap_cons in Hids0.
    rewrite fmap_cons, !fmap_app. simpl in *. rewrite <- Huuid.
    apply NoDup_app in Hids0 as (N1 & N2 & N3). apply NoDup_cons in N3 as [N3 N4].
    apply NoDup_cons. split.
    - intros Hc. apply elem_of_app in Hc as [Hc|Hc]; [|done]. apply (N2 _ Hc). set_solver.
    - apply NoDup_app. split_and!; [done| |done]. intros y Hy Hy'. apply (N2 y Hy). set_solver. }
  pose proof (fresh_of_ids _ _ _ Hids1) as Hfresh.
  assert (length (lp1 ++ lp2) < fuel) as Hfuel1.
  { rewrite Hlp, !length_app in *. simpl in *. lia. }
  destruct (Insert_full fuel rnd new v zsl1 (lp1 ++ lp2) lv rnd' HI1 Hfresh Hfuel1 Hrl)
    as (zsl2 & l1 & l2 & Hins & Hl & HI2 & _ & _ & Hlength & _).
  destruct (Inv_around _ _ _ _ _ HI2) as [H1 H2].
  exists zsl1, t, zsl2, (length (zsl_heap zsl1)). split_and!; [done|done|..].
  - unfold Len. rewrite Hlength, (inv_length _ _ HI1), (inv_length _ _ HI), Hlp, !length_app.
    simpl. lia.
  - intros others r. unfold r, others.
    rewrite (count_smaller l1 l2 _ (key (new, v))); [|by rewrite <- Hl|done|].
    2: { eapply Forall_impl; [exact H2|]. simpl. intros pe Hlt Hgt.
         eapply key_lt_irrefl, key_lt_trans; [exact Hlt|exact Hgt]. }
    set (lp' := l1 ++ (length (zsl_heap zsl1), (new, v)) :: l2) in *.
    assert (lp' !! length l1 = Some (length (zsl_heap zsl1), (new, v))) as Hk.
    { unfold lp'. by rewrite list_lookup_middle. }
    assert (length lp' = S (length (lp1 ++ lp2))) as Hlen'.
    { unfold lp'. rewrite Hl, !length_app. simpl. lia. }
    assert (length lp' < fuel) as Hfuel'.
    { rewrite Hlen'. rewrite Hlp, !length_app in *. simpl in *. lia. }
    split.
    + apply (GetRank_present fuel zsl2 lp' (length l1) (length (zsl_heap zsl1)) new v v HI2);
        [|done|done|done].
      apply (ids_NoDup _ ((new, v) :: (lp1 ++ lp2).*2)); [|done].
      unfold lp'. rewrite fmap_app, fmap_cons. simpl. rewrite <- Permutation_middle.
      by rewrite Hl, fmap_app.
    + apply (GetElementByRank_in fuel zsl2 lp' _ _ HI2 Hk). done.
Qed.

End extras3.

(** ** checkDupObject *)

Lemma checkDupObject_loop_spec fuel (h : list (ZSkipListNode testPlayer)) cur c k l rank
    (set : gmap Z bool) :
  chain h 0 cur c k l → Forall (λ p, 0 < hgt h p) l →
  Forall (λ p, is_Some (node_obj h p)) l → length l ≤ fuel →
  ∃ r, checkDupObject_loop fuel h (head l) rank set = Ok r ∧
       (r = None ↔
        NoDup (omap (λ p, Uid <$> node_obj h p) l) ∧
        ∀ id, id ∈ omap (λ p, Uid <$> node_obj h p) l → set !! id = None).
Proof.
  revert fuel cur c k rank set.
  induction l as [|y l IH]; intros fuel cur c k rank set Hc Hp Ho Hf.
  - exists None. split; [by destruct fuel|]. split; [|done]. intros _.
    split; [apply NoDup_nil_2|]. by intros id ?%elem_of_nil.
  - destruct fuel as [|fuel]; [simpl in Hf; lia|].
    inversion_clear Hp as [|?? Hy Hp']. inversion_clear Ho as [|?? [player Hpl] Ho'].
    pose proof (chain0_tail _ _ _ _ _ _ Hc Hy) as Hc'.
    assert (∃ n, h !! y = Some n ∧ Obj n = Some player) as (n & Hn & Hon).
    { unfold node_obj in Hpl. destruct (h !! y) as [n|]; simpl in Hpl; [|done]. by exists n. }
    cbn [head checkDupObject_loop]. rewrite (load_Ok _ _ _ Hn). simpl. rewrite Hon.
    cbn [omap list_omap]. rewrite Hpl. cbn [fmap option_fmap option_map].
    destruct (decide (is_Some (set !! Uid player))) as [Hs|Hs].
    + eexists. split; [done|]. split; [done|]. intros [_ Hall]. exfalso.
      rewrite (Hall (Uid player)) in Hs; [by destruct Hs|set_solver].
    + rewrite (Next_chain _ _ _ _ _ Hc' Hp'). simpl.
      destruct (IH fuel y k (k + 1)%Z (rank - 1)%Z (<[Uid player := true]> set) Hc' Hp' Ho')
        as (r & Hr & Hiff); [simpl in Hf; lia|].
      exists r. split; [done|]. rewrite Hiff. rewrite NoDup_cons.
      apply eq_None_not_Some in Hs.
      split.
      * intros [Hnd Hall]. split_and!; [|done|].
        -- intros Hin. specialize (Hall _ Hin). by rewrite lookup_insert_eq in Hall.
        -- intros id Hid. apply elem_of_cons in Hid as [->|Hid]; [done|].
           specialize (Hall _ Hid). by apply lookup_insert_None in Hall as [? _].
      * intros [[Hnin Hnd] Hall]. split; [done|]. intros id Hid.
        apply lookup_insert_None. split; [apply Hall; set_solver|]. intros <-. done.
Qed.

(** X19.  [checkDupObject] of zskiplist_test.go, on a list built by valid
    operations: it never panics, and it passes exactly when the identities
    of the nodes from the second one on are pairwise distinct.  The first
    node of the list is not looked at. *)
Theorem checkDupObject_skips_first_node (zsl : ZSkipList testPlayer)
    (pr : list (Z * testPlayer)) fuel :
  built zsl pr →
  length pr ≤ fuel →
  ∃ nodes r,
    Nodes fuel zsl = Ok nodes ∧
    checkDupObject fuel zsl = Ok r ∧
    (r = None ↔
     NoDup (omap (λ p, Uid <$> node_obj (zsl_heap zsl) p) (drop 1 nodes))).
Proof.
  intros Hb Hfuel.
  destruct (built_Inv zsl pr Hb) as (lp & HI & Hperm).
  destruct (built_length zsl pr lp HI Hperm) as [Hlen _].
  exists lp.*1. unfold checkDupObject, Len. rewrite (inv_length _ _ HI).
  destruct lp as [|pe lp0] eqn:Hlp.
  { exists None. split; [apply (Nodes_Inv fuel zsl [] HI); simpl; lia|]. split; [done|].
    split; [intros _; apply NoDup_nil_2|done]. }
  rewrite <- Hlp in *.
  rewrite decide_False by (rewrite Hlp; simpl; lia).
  rewrite (HeaderNode_Inv _ _ HI).
  assert (lp.*1 !! 0 = Some pe.1) as H0 by (by rewrite Hlp).
  rewrite head_lookup, H0. simpl.
  rewrite (Next_lookup _ _ _ _ _ _ _ (Inv_chain0 _ _ HI) (Inv_hgt_pos _ _ HI) H0). simpl.
  assert (0 < hgt (zsl_heap zsl) pe.1) as Hh.
  { pose proof (Inv_hgt_pos _ _ HI) as Hp. rewrite Forall_forall in Hp. apply Hp.
    by eapply list_elem_of_lookup_2. }
  pose proof (chain_from _ _ _ _ _ _ _ _ (Inv_chain0 _ _ HI) H0 Hh) as Hc.
  destruct (checkDupObject_loop_spec fuel (zsl_heap zsl) pe.1 (1 + 0%nat)%Z (1 + 0%nat + 1)%Z
              (drop 1 lp.*1) (Z.of_nat (length lp)) ∅ Hc) as (r & Hr & Hiff).
  { apply Forall_drop, (Inv_hgt_pos _ _ HI). }
  { apply Forall_drop. rewrite (Forall_fmap). apply Forall_forall. intros pe' Hpe'.
    destruct (Inv_node_obj zsl lp pe' HI Hpe') as (_ & _ & _ & _ & Hno & _).
    simpl. rewrite Hno. by eexists. }
  { rewrite length_drop, length_fmap. lia. }
  exists r. split; [apply Nodes_Inv; [done|lia]|].
  rewrite head_lookup, lookup_drop in Hr. split; [done|].
  rewrite Hiff. split; [by intros [? _]|]. intros Hnd. split; [done|]. intros id _.
  apply lookup_empty.
Qed.
(** * Instances of the further properties on the concrete lists *)

Lemma key_B_fresh_in_zA : key (20%Z, Ex.B) ∉ key <$> [(10%Z, Ex.A)].
Proof. vm_compute. intros Hin. apply list_elem_of_singleton in Hin. discriminate Hin. Qed.

Lemma key_A_in_zAB : key (10%Z, Ex.A) ∈ key <$> [(20%Z, Ex.B); (10%Z, Ex.A)].
Proof.
  apply list_elem_of_fmap. exists (10%Z, Ex.A). split; [reflexivity|].
  apply elem_of_cons. right. apply elem_of_cons. by left.
Qed.

Lemma A_in_zAB : (10%Z, Ex.A) ∈ [(20%Z, Ex.B); (10%Z, Ex.A)].
Proof. apply elem_of_cons. right. apply elem_of_cons. by left. Qed.

Lemma Insert_links_new_node_witness :
  ∃ zsl' x n, Insert 4 Ex.two 20 Ex.B Ex.zA = Ok (zsl', x, []) ∧
              zsl_heap zsl' !! x = Some n ∧ Obj n = Some Ex.B ∧ length (level n) = 2 ∧
              Len zsl' = (Len Ex.zA + 1)%Z.
Proof.
  destruct (Insert_links_new_node Ex.zA [(10%Z, Ex.A)] 4 Ex.two 20 Ex.B 2 [])
    as (zsl' & x & n & before & after & H1 & H2 & H3 & H4 & H5 & H6 & _).
  - apply built_zA.
  - apply key_B_fresh_in_zA.
  - by vm_compute.
  - simpl. lia.
  - exists zsl', x, n. repeat split; assumption.
Defined.

Lemma Insert_then_GetRank_finds_node_witness :
  ∃ zsl' x, Insert 4 Ex.two 20 Ex.B Ex.zA = Ok (zsl', x, []) ∧
            GetRank 4 zsl' 20 Ex.B = Ok 2%Z ∧
            GetElementByRank 4 zsl' 2 = Ok (Some x).
Proof.
  destruct (Insert_then_GetRank_finds_node Ex.zA [(10%Z, Ex.A)] 4 Ex.two 20 Ex.B 2 [])
    as (zsl' & x & H1 & H2 & H3).
  - apply built_zA.
  - vm_compute. apply NoDup_2. discriminate.
  - by vm_compute.
  - simpl. lia.
  - exists zsl', x. repeat split; assumption.
Defined.

Lemma Insert_then_Delete_restores_witness :
  ∃ zsl1 x zsl2,
    Insert 4 Ex.two 20 Ex.B Ex.zA = Ok (zsl1, x, []) ∧
    Delete 4 20 Ex.B zsl1 = Ok (zsl2, Some x) ∧
    Len zsl2 = Len Ex.zA ∧ Height zsl2 = Height Ex.zA ∧
    Nodes 4 zsl2 = Nodes 4 Ex.zA.
Proof.
  destruct (Insert_then_Delete_restores Ex.zA [(10%Z, Ex.A)] 4 Ex.two 20 Ex.B 2 [])
    as (zsl1 & x & zsl2 & nodes & H1 & H2 & H3 & H4 & H5 & H6 & H7 & H8).
  - apply built_zA.
  - apply key_B_fresh_in_zA.
  - by vm_compute.
  - simpl. lia.
  - exists zsl1, x, zsl2. repeat split; try assumption. by rewrite H7, H8.
Defined.

Lemma Delete_unlinks_node_witness :
  ∃ zsl' t, Delete 3 10 Ex.A Ex.zAB = Ok (zsl', Some t) ∧
            Len zsl' = (Len Ex.zAB - 1)%Z ∧ Height zsl' ≤ Height Ex.zAB.
Proof.
  destruct (Delete_unlinks_node Ex.zAB [(20%Z, Ex.B); (10%Z, Ex.A)] 3 10 Ex.A)
    as (zsl' & t & n & e & before & after & H1 & H2 & H3 & H4 & H5 & H6 & H7 & H8 & H9 & H10 & _).
  - apply built_zAB.
  - apply key_A_in_zAB.
  - simpl. lia.
  - exists zsl', t. repeat split; assumption.
Defined.

Lemma Delete_again_finds_nothing_witness :
  ∃ zsl' t, Delete 3 10 Ex.A Ex.zAB = Ok (zsl', Some t) ∧
            Delete 3 10 Ex.A zsl' = Ok (zsl', None).
Proof.
  apply (Delete_again_finds_nothing Ex.zAB [(20%Z, Ex.B); (10%Z, Ex.A)] 3 10 Ex.A).
  - apply built_zAB.
  - apply key_A_in_zAB.
  - simpl. lia.
Defined.

Lemma GetTopRankValueRange_largest_first_witness :
  ∃ nodes,
    Nodes 3 Ex.zABC = Ok nodes ∧
    GetTopRankValueRange Ex.zABC 2 =
    Ok (take 2 (reverse (node_obj (zsl_heap Ex.zABC) <$> nodes))).
Proof.
  apply (GetTopRankValueRange_largest_first Ex.zABC
           [(30%Z, Ex.C); (20%Z, Ex.B); (10%Z, Ex.A)] 3 2).
  - apply built_zABC.
  - lia.
  - simpl. lia.
Defined.

Lemma Len_and_Height_invariants_witness :
  ∃ nodes, Nodes 3 Ex.zABC = Ok nodes ∧ Len Ex.zABC = Z.of_nat (length nodes) ∧
           1 ≤ Height Ex.zABC ≤ ZSKIPLIST_MAXLEVEL.
Proof.
  destruct (Len_and_Height_invariants Ex.zABC [(30%Z, Ex.C); (20%Z, Ex.B); (10%Z, Ex.A)] 3)
    as (nodes & hn & H1 & H2 & H3 & _).
  - apply built_zABC.
  - simpl. lia.
  - exists nodes. repeat split; try assumption; apply H3.
Defined.

Lemma HeaderNode_smallest_TailNode_largest_witness :
  ∃ nodes, Nodes 3 Ex.zABC = Ok nodes ∧
           HeaderNode Ex.zABC = Ok (head nodes) ∧ TailNode Ex.zABC = last nodes.
Proof.
  destruct (HeaderNode_smallest_TailNode_largest Ex.zABC
              [(30%Z, Ex.C); (20%Z, Ex.B); (10%Z, Ex.A)] 3)
    as (nodes & H1 & H2 & H3 & _).
  - apply built_zABC.
  - simpl. lia.
  - exists nodes. repeat split; assumption.
Defined.

Lemma Next_and_Before_walk_the_nodes_witness :
  ∃ nodes,
    Nodes 3 Ex.zABC = Ok nodes ∧
    ∀ (j : nat) a, nodes !! j = Some a →
      Next (zsl_heap Ex.zABC) a = Ok (nodes !! S j) ∧
      Before (zsl_heap Ex.zABC) a = Ok (match j with O => None | S j' => nodes !! j' end).
Proof.
  apply (Next_and_Before_walk_the_nodes Ex.zABC
           [(30%Z, Ex.C); (20%Z, Ex.B); (10%Z, Ex.A)] 3).
  - apply built_zABC.
  - simpl. lia.
Defined.

Lemma GetRank_unknown_identity_witness : GetRank 3 Ex.zAB 5 Ex.C = Ok 0%Z.
Proof.
  apply (GetRank_unknown_identity Ex.zAB [(20%Z, Ex.B); (10%Z, Ex.A)] 3 5 Ex.C).
  - apply built_zAB.
  - vm_compute. intros Hin.
    apply elem_of_cons in Hin as [Hin|Hin]; [discriminate Hin|].
    apply list_elem_of_singleton in Hin. discriminate Hin.
  - simpl. lia.
Defined.

Lemma GetRank_any_score_witness :
  ∃ pos r, GetRank 3 Ex.zAB 10 Ex.A = Ok pos ∧ GetRank 3 Ex.zAB 50 Ex.A = Ok r ∧
           (r = 0%Z ∨ r = pos).
Proof.
  destruct (GetRank_any_score Ex.zAB [(20%Z, Ex.B); (10%Z, Ex.A)] 3 10 Ex.A 50 Ex.A)
    as (pos & r & H1 & H2 & H3 & H4 & _).
  - apply built_zAB.
  - vm_compute. apply NoDup_2. discriminate.
  - apply A_in_zAB.
  - reflexivity.
  - simpl. lia.
  - exists pos, r. repeat split; assumption.
Defined.

Lemma Insert_shifts_ranks_witness :
  ∃ zsl' x r,
    Insert 4 Ex.one 30 Ex.C Ex.zAB = Ok (zsl', x, []) ∧
    GetRank 4 Ex.zAB 10 Ex.A = Ok r ∧
    GetRank 4 zsl' 10 Ex.A =
    Ok (if decide (key_lt (key (30%Z, Ex.C)) (key (10%Z, Ex.A))) then r + 1 else r)%Z.
Proof.
  apply (Insert_shifts_ranks Ex.zAB [(20%Z, Ex.B); (10%Z, Ex.A)] 4 Ex.one 30 Ex.C 1 [] 10 Ex.A).
  - apply built_zAB.
  - vm_compute. apply NoDup_3; discriminate.
  - apply A_in_zAB.
  - by vm_compute.
  - simpl. lia.
Defined.

Lemma Delete_shifts_ranks_witness :
  ∃ zsl' t r,
    Delete 4 20 Ex.B Ex.zABC = Ok (zsl', Some t) ∧
    GetRank 4 Ex.zABC 30 Ex.C = Ok r ∧
    GetRank 4 zsl' 30 Ex.C =
    Ok (if decide (key_lt (key (20%Z, Ex.B)) (key (30%Z, Ex.C))) then r - 1 else r)%Z.
Proof.
  apply (Delete_shifts_ranks Ex.zABC [(30%Z, Ex.C); (20%Z, Ex.B); (10%Z, Ex.A)] 4 20 Ex.B 30 Ex.C).
  - apply built_zABC.
  - vm_compute. apply NoDup_3; discriminate.
  - apply list_elem_of_fmap. exists (20%Z, Ex.B). split; [reflexivity|].
    apply elem_of_cons. right. apply elem_of_cons. by left.
  - apply elem_of_cons. by left.
  - vm_compute. discriminate.
  - simpl. lia.
Defined.

Lemma GetElementByRank_is_kth_node_witness :
  ∃ nodes, Nodes 4 Ex.zABC = Ok nodes ∧ GetElementByRank 4 Ex.zABC 2 = Ok (nodes !! 1).
Proof.
  apply (GetElementByRank_is_kth_node Ex.zABC [(30%Z, Ex.C); (20%Z, Ex.B); (10%Z, Ex.A)] 4 2).
  - apply built_zABC.
  - lia.
  - simpl. lia.
Defined.


Lemma spans_count_level0_steps_witness :
  ∃ nodes, Nodes 3 Ex.zABC = Ok nodes ∧ length nodes = 3.
Proof.
  destruct (spans_count_level0_steps Ex.zABC [(30%Z, Ex.C); (20%Z, Ex.B); (10%Z, Ex.A)] 3)
    as (nodes & H1 & _).
  - apply built_zABC.
  - simpl. lia.
  - exists nodes. split; [assumption|].
    assert (Ok nodes = Ok [1; 2; 3]) as Heq by (rewrite <- H1; by vm_compute).
    by injection Heq as ->.
Defined.

Lemma Delete_then_Insert_moves_entity_witness :
  ∃ zsl1 t zsl2 x,
    Delete 3 10 Ex.A Ex.zAB = Ok (zsl1, Some t) ∧
    Insert 3 Ex.one 25 Ex.A zsl1 = Ok (zsl2, x, []) ∧
    Len zsl2 = Len Ex.zAB.
Proof.
  destruct (Delete_then_Insert_moves_entity Ex.zAB [(20%Z, Ex.B); (10%Z, Ex.A)] 3 Ex.one
              10 25 Ex.A 1 [])
    as (zsl1 & t & zsl2 & x & H1 & H2 & H3 & _).
  - apply built_zAB.
  - vm_compute. apply NoDup_2. discriminate.
  - apply A_in_zAB.
  - by vm_compute.
  - simpl. lia.
  - exists zsl1, t, zsl2, x. repeat split; assumption.
Defined.

Lemma checkDupObject_skips_first_node_witness :
  ∃ nodes r,
    Nodes 3 Ex.zABC = Ok nodes ∧
    checkDupObject 3 Ex.zABC = Ok r ∧
    (r = None ↔
     NoDup (omap (λ p, Uid <$> node_obj (zsl_heap Ex.zABC) p) (drop 1 nodes))).
Proof.
  apply (checkDupObject_skips_first_node Ex.zABC
           [(30%Z, Ex.C); (20%Z, Ex.B); (10%Z, Ex.A)] 3).
  - apply built_zABC.
  - simpl. lia.
Defined.
